(** * Wordwave: the guess evaluator and the game-state engine

    A shallow embedding of the game logic of the two scripts of the
    repository: the full one (with [MAX_GUESSES], [gameOver], the board
    and the two-pass [processGuess]), at top level, and the shorter one
    (a single pass over the guess, no board, no loss), in module
    [Simple].

    Modelling conventions.
    - A JavaScript string is a list of characters ([list ascii]); the model
      covers ASCII text, where a character is one UTF-16 code unit and
      [toUpperCase] only moves [a-z] to [A-Z].  [s[i]] is the list lookup
      [s !! i], whose [None] is JavaScript's [undefined].
    - [Set] objects of letters are [gset ascii]; the object [letterCounts]
      is a [gmap ascii Z].
    - [points] and [streak] are JavaScript numbers holding integers; they
      are modelled as [Z].
    - [Math.random()] is an explicit argument of the functions that draw.
    - The DOM is not part of the state: an [alert] is returned as a value
      of type [Alert], the tiles a guess paints are returned as a row.
      The board built by [generateGameBoard] has [MAX_GUESSES] rows of
      [WORD_LENGTH] tiles, which is what the row look-ups rely on.
      The [display*] functions are left out.
    - The engine leaves [localStorage] and the field [guess-input] out;
      module [Page] adds them to the state, with [String(n)] and
      [parseInt] on the numbers that are stored. *)

From Stdlib Require Import ZArith Ascii String.
From stdpp Require Import gmap strings list fin_maps.

Local Open Scope Z_scope.
Local Open Scope nat_scope.

(** ** JavaScript strings *)

Abbreviation jsstring := (list ascii).

(** A string literal as a list of characters. *)
Definition str (s : string) : jsstring := list_ascii_of_string s.

Definition isUpperAZ (c : ascii) : bool :=
  (65 <=? nat_of_ascii c) && (nat_of_ascii c <=? 90).

Definition isLowerAZ (c : ascii) : bool :=
  (97 <=? nat_of_ascii c) && (nat_of_ascii c <=? 122).


Definition toUpperChar (c : ascii) : ascii :=
  if isLowerAZ c then ascii_of_nat (nat_of_ascii c - 32) else c.

(** [String.prototype.toUpperCase] on ASCII text. *)
Definition toUpperCase (s : jsstring) : jsstring := map toUpperChar s.

(** White space and line terminators of the ASCII range, as [trim] sees
    them: TAB, LF, VT, FF, CR and SPACE. *)
Definition isWhiteSpace (c : ascii) : bool :=
  let n := nat_of_ascii c in
  (n =? 9) || (n =? 10) || (n =? 11) || (n =? 12) || (n =? 13) || (n =? 32).

Fixpoint trimStart (s : jsstring) : jsstring :=
  match s with
  | c :: rest => if isWhiteSpace c then trimStart rest else s
  | [] => []
  end.

Definition trimEnd (s : jsstring) : jsstring := rev (trimStart (rev s)).

(** [String.prototype.trim]. *)
Definition trim (s : jsstring) : jsstring := trimEnd (trimStart s).

Definition isNewline (c : ascii) : bool := nat_of_ascii c =? 10.

(** [s.split('\n')]: never empty, the empty string splits to one empty
    line. *)
Fixpoint splitLines (s : jsstring) : list jsstring :=
  match s with
  | [] => [[]]
  | c :: rest =>
      if isNewline c then [] :: splitLines rest
      else match splitLines rest with
           | line :: lines => (c :: line) :: lines
           | [] => [[c]]
           end
  end.

(** [guess.match(/^[A-Z]+$/)]: one or more characters, all in [A-Z]. *)
Definition matchesAZ (s : jsstring) : bool :=
  match s with
  | [] => false
  | _ => forallb isUpperAZ s
  end.

(** [list.includes(x)]. *)
Definition includes (l : list jsstring) (x : jsstring) : bool :=
  bool_decide (x ∈ l).

(** ** Math.random

    [Math.random()] returns a number in [[0, 1)].  The model takes the
    rational [rnd_num / (rnd_num + rnd_gap + 1)], which ranges over all
    rationals of that interval and over nothing else. *)
Record Random := { rnd_num : nat; rnd_gap : nat }.

(** [Math.floor(Math.random() * len)]. *)
Definition randomIndex (r : Random) (len : nat) : nat :=
  (rnd_num r * len) / (rnd_num r + rnd_gap r + 1).

(** ** The game state *)

Definition MAX_GUESSES : nat := 6.
Definition WORD_LENGTH : nat := 5.

Record GameState := {
  wordToGuess : jsstring;
  guessCount : nat;
  greenLetters : gset ascii;
  yellowLetters : gset ascii;
  grayLetters : gset ascii;
  points : Z;
  revealedHintIndices : list nat;
  validWords : list jsstring;
  streak : Z;
  gameOver : bool
}.

(** The object literal [gameState] is initialised with. *)
Definition initialState : GameState :=
  {| wordToGuess := [];
     guessCount := 0;
     greenLetters := ∅;
     yellowLetters := ∅;
     grayLetters := ∅;
     points := 0%Z;
     revealedHintIndices := [];
     validWords := [];
     streak := 0%Z;
     gameOver := false |}.

(** Field assignments. *)
Definition set_wordToGuess (w : jsstring) (gs : GameState) : GameState :=
  {| wordToGuess := w; guessCount := guessCount gs;
     greenLetters := greenLetters gs; yellowLetters := yellowLetters gs;
     grayLetters := grayLetters gs; points := points gs;
     revealedHintIndices := revealedHintIndices gs;
     validWords := validWords gs; streak := streak gs;
     gameOver := gameOver gs |}.

Definition set_guessCount (n : nat) (gs : GameState) : GameState :=
  {| wordToGuess := wordToGuess gs; guessCount := n;
     greenLetters := greenLetters gs; yellowLetters := yellowLetters gs;
     grayLetters := grayLetters gs; points := points gs;
     revealedHintIndices := revealedHintIndices gs;
     validWords := validWords gs; streak := streak gs;
     gameOver := gameOver gs |}.

Definition set_greenLetters (s : gset ascii) (gs : GameState) : GameState :=
  {| wordToGuess := wordToGuess gs; guessCount := guessCount gs;
     greenLetters := s; yellowLetters := yellowLetters gs;
     grayLetters := grayLetters gs; points := points gs;
     revealedHintIndices := revealedHintIndices gs;
     validWords := validWords gs; streak := streak gs;
     gameOver := gameOver gs |}.

Definition set_yellowLetters (s : gset ascii) (gs : GameState) : GameState :=
  {| wordToGuess := wordToGuess gs; guessCount := guessCount gs;
     greenLetters := greenLetters gs; yellowLetters := s;
     grayLetters := grayLetters gs; points := points gs;
     revealedHintIndices := revealedHintIndices gs;
     validWords := validWords gs; streak := streak gs;
     gameOver := gameOver gs |}.

Definition set_grayLetters (s : gset ascii) (gs : GameState) : GameState :=
  {| wordToGuess := wordToGuess gs; guessCount := guessCount gs;
     greenLetters := greenLetters gs; yellowLetters := yellowLetters gs;
     grayLetters := s; points := points gs;
     revealedHintIndices := revealedHintIndices gs;
     validWords := validWords gs; streak := streak gs;
     gameOver := gameOver gs |}.

Definition set_points (p : Z) (gs : GameState) : GameState :=
  {| wordToGuess := wordToGuess gs; guessCount := guessCount gs;
     greenLetters := greenLetters gs; yellowLetters := yellowLetters gs;
     grayLetters := grayLetters gs; points := p;
     revealedHintIndices := revealedHintIndices gs;
     validWords := validWords gs; streak := streak gs;
     gameOver := gameOver gs |}.

Definition set_revealedHintIndices (l : list nat) (gs : GameState) : GameState :=
  {| wordToGuess := wordToGuess gs; guessCount := guessCount gs;
     greenLetters := greenLetters gs; yellowLetters := yellowLetters gs;
     grayLetters := grayLetters gs; points := points gs;
     revealedHintIndices := l;
     validWords := validWords gs; streak := streak gs;
     gameOver := gameOver gs |}.

Definition set_validWords (l : list jsstring) (gs : GameState) : GameState :=
  {| wordToGuess := wordToGuess gs; guessCount := guessCount gs;
     greenLetters := greenLetters gs; yellowLetters := yellowLetters gs;
     grayLetters := grayLetters gs; points := points gs;
     revealedHintIndices := revealedHintIndices gs;
     validWords := l; streak := streak gs;
     gameOver := gameOver gs |}.

Definition set_streak (n : Z) (gs : GameState) : GameState :=
  {| wordToGuess := wordToGuess gs; guessCount := guessCount gs;
     greenLetters := greenLetters gs; yellowLetters := yellowLetters gs;
     grayLetters := grayLetters gs; points := points gs;
     revealedHintIndices := revealedHintIndices gs;
     validWords := validWords gs; streak := n;
     gameOver := gameOver gs |}.

Definition set_gameOver (b : bool) (gs : GameState) : GameState :=
  {| wordToGuess := wordToGuess gs; guessCount := guessCount gs;
     greenLetters := greenLetters gs; yellowLetters := yellowLetters gs;
     grayLetters := grayLetters gs; points := points gs;
     revealedHintIndices := revealedHintIndices gs;
     validWords := validWords gs; streak := streak gs;
     gameOver := b |}.

(** ** Alerts and tiles *)

(** The messages the script shows with [alert]. *)
Inductive Alert :=
  | AlertGameOver          (* "Game is over. Start a new game." *)
  | AlertMaxGuesses        (* "You've reached the maximum number of guesses." *)
  | AlertLength            (* "Enter a 5 letter word." *)
  | AlertIllegalChars      (* "Word contains illegal characters" *)
  | AlertNotInDictionary   (* "Word not in dictionary." *)
  | AlertWin (tries : nat) (pointsAwarded : Z)
                           (* "Congratulations! You guessed the word in ..." *)
  | AlertLoss (word : jsstring)
                           (* "Game over! The word was ..." *)
  | AlertNotEnoughPoints   (* "You don't have enough points to buy a hint..." *)
  | AlertAllRevealed       (* "All letters have been revealed as hints!" *)
  | AlertDefaultWord.      (* "Error loading word list. Using default word." *)

(** [style.backgroundColor] of a tile: [''], ['rgb(0, 122, 0)'],
    ['rgb(255, 215, 0)'], ['gray'] and ['lightblue']. *)
Inductive Color := NoColor | Green | Yellow | Gray | LightBlue.

Record Tile := { innerText : option ascii; backgroundColor : Color }.

Definition blankTile : Tile := {| innerText := None; backgroundColor := NoColor |}.

Definition setText (letter : ascii) (t : Tile) : Tile :=
  {| innerText := Some letter; backgroundColor := backgroundColor t |}.

Definition setColor (c : Color) (t : Tile) : Tile :=
  {| innerText := innerText t; backgroundColor := c |}.

#[global] Instance Color_eq_dec : EqDecision Color.
Proof. solve_decision. Defined.

#[global] Instance Tile_eq_dec : EqDecision Tile.
Proof. solve_decision. Defined.

#[global] Instance Alert_eq_dec : EqDecision Alert.
Proof. solve_decision. Defined.

(** ** processGuess *)

(** The row [#game-board .row:nth-child(guessCount + 1)]: present for the
    [MAX_GUESSES] rows of the board, [null] beyond.  Every tile of the row
    is rewritten by [processGuess] (its text in the first pass, its colour
    in the first or the last one), so the row is taken blank. *)
Definition boardRow (n : nat) : option (list Tile) :=
  if n <? MAX_GUESSES then Some (replicate WORD_LENGTH blankTile) else None.

(** The variables a pass of [processGuess] reads and writes: the state
    (for its letter sets), the tiles of the row, [correctCount] and
    [letterCounts]. *)
Record Frame := {
  fr_state : GameState;
  fr_tiles : list Tile;
  fr_correct : nat;
  fr_counts : gmap ascii Z
}.

Definition with_state (f : GameState → GameState) (fr : Frame) : Frame :=
  {| fr_state := f (fr_state fr); fr_tiles := fr_tiles fr;
     fr_correct := fr_correct fr; fr_counts := fr_counts fr |}.

Definition with_tiles (f : list Tile → list Tile) (fr : Frame) : Frame :=
  {| fr_state := fr_state fr; fr_tiles := f (fr_tiles fr);
     fr_correct := fr_correct fr; fr_counts := fr_counts fr |}.

Definition with_correct (f : nat → nat) (fr : Frame) : Frame :=
  {| fr_state := fr_state fr; fr_tiles := fr_tiles fr;
     fr_correct := f (fr_correct fr); fr_counts := fr_counts fr |}.

Definition with_counts (f : gmap ascii Z → gmap ascii Z) (fr : Frame) : Frame :=
  {| fr_state := fr_state fr; fr_tiles := fr_tiles fr;
     fr_correct := fr_correct fr; fr_counts := f (fr_counts fr) |}.

Definition addGreen (letter : ascii) (gs : GameState) : GameState :=
  set_greenLetters ({[letter]} ∪ greenLetters gs) gs.

Definition addYellow (letter : ascii) (gs : GameState) : GameState :=
  set_yellowLetters ({[letter]} ∪ yellowLetters gs) gs.

Definition addGray (letter : ascii) (gs : GameState) : GameState :=
  set_grayLetters ({[letter]} ∪ grayLetters gs) gs.

(** [letterCounts[letter]], with [undefined] read as 0 (as in
    [letterCounts[letter] || 0], and as [undefined > 0] is false). *)
Definition countOf (m : gmap ascii Z) (letter : ascii) : Z :=
  default 0%Z (m !! letter).

(** [processGuess] is called by [makeGuess] after the length check, so
    [guess[i]] is a letter for every [i < WORD_LENGTH]; a body below does
    nothing at an index where [guess[i]] is [undefined]. *)

(** First pass, body of the loop: write the letter, mark an exact match. *)
Definition markGreen (guess : jsstring) (fr : Frame) (i : nat) : Frame :=
  match guess !! i with
  | None => fr
  | Some letter =>
      let fr := with_tiles (alter (setText letter) i) fr in
      if bool_decide (wordToGuess (fr_state fr) !! i = Some letter)
      then with_correct S
             (with_state (addGreen letter)
                (with_tiles (alter (setColor Green) i) fr))
      else fr
  end.

(** [for (const letter of wordToGuess) letterCounts[letter] = (letterCounts[letter] || 0) + 1]. *)
Definition countLetter (m : gmap ascii Z) (letter : ascii) : gmap ascii Z :=
  <[letter := (countOf m letter + 1)%Z]> m.

(** Deduct green matches, body of the loop: [letterCounts[guess[i]]--].
    The key is a letter of the target there, so it is present. *)
Definition deductGreen (guess : jsstring) (fr : Frame) (i : nat) : Frame :=
  match guess !! i with
  | None => fr
  | Some letter =>
      if bool_decide (wordToGuess (fr_state fr) !! i = Some letter)
      then with_counts (alter (λ n, (n - 1)%Z) letter) fr
      else fr
  end.

(** Last pass, body of the loop: yellow while the letter has occurrences
    left, gray otherwise; green tiles are skipped. *)
Definition markYellowGray (guess : jsstring) (fr : Frame) (i : nat) : Frame :=
  match guess !! i with
  | None => fr
  | Some letter =>
      if bool_decide (wordToGuess (fr_state fr) !! i = Some letter) then fr
      else if (0 <? countOf (fr_counts fr) letter)%Z
      then with_counts (alter (λ n, (n - 1)%Z) letter)
             (with_state (addYellow letter)
                (with_tiles (alter (setColor Yellow) i) fr))
      else with_state (addGray letter)
             (with_tiles (alter (setColor Gray) i) fr)
  end.

(** The three passes over [i = 0 .. WORD_LENGTH - 1], in the order of the
    source. *)
Definition runPasses (guess : jsstring) (fr : Frame) : Frame :=
  let fr := foldl (markGreen guess) fr (seq 0 WORD_LENGTH) in
  let fr := with_counts (λ _, foldl countLetter ∅ (wordToGuess (fr_state fr))) fr in
  let fr := foldl (deductGreen guess) fr (seq 0 WORD_LENGTH) in
  foldl (markYellowGray guess) fr (seq 0 WORD_LENGTH).

(** The variables on entry: [correctCount = 0], [letterCounts = {}]. *)
Definition enterRow (gs : GameState) (tiles : list Tile) : Frame :=
  {| fr_state := gs; fr_tiles := tiles; fr_correct := 0; fr_counts := ∅ |}.

(** The result of [processGuess]: the state, the row as painted ([None]
    when the row was not found) and the [correct] flag. *)
Definition processGuess (gs : GameState) (guess : jsstring)
  : GameState * option (list Tile) * bool :=
  match boardRow (guessCount gs) with
  | None => (gs, None, false)
  | Some tiles =>
      let fr := runPasses guess (enterRow gs tiles) in
      (fr_state fr, Some (fr_tiles fr), fr_correct fr =? WORD_LENGTH)
  end.

(** The tags of a painted row. *)
Definition colors (tiles : list Tile) : list Color := map backgroundColor tiles.

(** ** Points and streak *)

(** [updatePoints(score)]: [gameState.points += score]. *)
Definition updatePoints (score : Z) (gs : GameState) : GameState :=
  set_points (points gs + score)%Z gs.

(** [updateStreak()]: [gameState.streak += 1]. *)
Definition updateStreak (gs : GameState) : GameState :=
  set_streak (streak gs + 1)%Z gs.

(** [resetStreak()]: [gameState.streak = 0]. *)
Definition resetStreak (gs : GameState) : GameState := set_streak 0%Z gs.

(** [pointsAwarded] of [handleWin]. *)
Definition pointsAwarded (gs : GameState) : Z :=
  if guessCount gs <=? 2 then 6%Z else 3%Z.

Definition handleWin (gs : GameState) : GameState * Alert :=
  let gs := set_gameOver true gs in
  let awarded := pointsAwarded gs in
  let gs := updatePoints awarded gs in
  let gs := updateStreak gs in
  (gs, AlertWin (guessCount gs) awarded).

Definition handleLoss (gs : GameState) : GameState * Alert :=
  let gs := set_gameOver true gs in
  let gs := resetStreak gs in
  (gs, AlertLoss (wordToGuess gs)).

(** ** makeGuess *)

(** What a call of [makeGuess] shows: the alert of a rejected input, or
    the painted row and the alert that ends the game, if any. *)
Inductive GuessOutcome :=
  | Rejected (a : Alert)
  | Played (row : option (list Tile)) (ending : option Alert).

(** [input] is the value of the field [guess-input]. *)
Definition makeGuess (gs : GameState) (input : jsstring)
  : GameState * GuessOutcome :=
  if gameOver gs then (gs, Rejected AlertGameOver)
  else if MAX_GUESSES <=? guessCount gs then (gs, Rejected AlertMaxGuesses)
  else
    let guess := toUpperCase input in
    if negb (length guess =? WORD_LENGTH) then (gs, Rejected AlertLength)
    else if negb (matchesAZ guess) then (gs, Rejected AlertIllegalChars)
    else if negb (includes (validWords gs) guess)
    then (gs, Rejected AlertNotInDictionary)
    else
      let '(gs, row, correct) := processGuess gs guess in
      let gs := set_guessCount (guessCount gs + 1) gs in
      if correct then
        let '(gs, a) := handleWin gs in (gs, Played row (Some a))
      else if MAX_GUESSES <=? guessCount gs then
        let '(gs, a) := handleLoss gs in (gs, Played row (Some a))
      else (gs, Played row None).

(** ** The keyboard *)

(** The class [createKey] gives the key of a letter: ['key'],
    ['key gray-key'], ['key yellow-key'] or ['key green-key']. *)
Inductive KeyClass := KeyPlain | KeyGray | KeyYellow | KeyGreen.

Definition createKey (gs : GameState) (letter : ascii) : KeyClass :=
  if bool_decide (letter ∈ greenLetters gs) then KeyGreen
  else if bool_decide (letter ∈ yellowLetters gs) then KeyYellow
  else if bool_decide (letter ∈ grayLetters gs) then KeyGray
  else KeyPlain.

(** Unknown < Absent < Present < Correct. *)
Definition rank (k : KeyClass) : nat :=
  match k with
  | KeyPlain => 0
  | KeyGray => 1
  | KeyYellow => 2
  | KeyGreen => 3
  end.

(** ** buyHint *)

(** What a call of [buyHint] shows: an alert, the hint tile (its index
    and [wordToGuess[randomIndex]]), or the [TypeError] of
    [hintRow.querySelectorAll] when the row is [null]. *)
Inductive HintOutcome :=
  | HintRefused (a : Alert)
  | HintShown (index : nat) (letter : option ascii)
  | HintTypeError.

(** The loop that collects the unrevealed indices keeps, in increasing
    order, the [i < WORD_LENGTH] that [revealedHintIndices] does not
    include. *)
Definition availableIndices (gs : GameState) : list nat :=
  filter (λ i, i ∉ revealedHintIndices gs) (seq 0 WORD_LENGTH).

Definition buyHint (gs : GameState) (r : Random) : GameState * HintOutcome :=
  if gameOver gs then (gs, HintRefused AlertGameOver)
  else if (points gs <? 5)%Z then (gs, HintRefused AlertNotEnoughPoints)
  else
    match availableIndices gs with
    | [] => (gs, HintRefused AlertAllRevealed)
    | first :: _ =>
        let available := availableIndices gs in
        let index := nth (randomIndex r (length available)) available first in
        let gs := set_revealedHintIndices (revealedHintIndices gs ++ [index]) gs in
        let gs := updatePoints (-5)%Z gs in
        match boardRow (guessCount gs) with
        | None => (gs, HintTypeError)
        | Some _ => (gs, HintShown index (wordToGuess gs !! index))
        end
    end.

(** ** newGame and fetchWordList *)

Definition newGame (gs : GameState) (r : Random) : GameState :=
  let gs := set_guessCount 0 gs in
  let gs := set_greenLetters ∅ gs in
  let gs := set_yellowLetters ∅ gs in
  let gs := set_grayLetters ∅ gs in
  let gs := set_revealedHintIndices [] gs in
  let gs := set_gameOver false gs in
  match validWords gs with
  | [] => gs
  | first :: _ =>
      set_wordToGuess
        (nth (randomIndex r (length (validWords gs))) (validWords gs) first) gs
  end.

(** [data.split('\n').map(word => word.trim().toUpperCase())
         .filter(word => word.length === WORD_LENGTH)]. *)
Definition parseWordList (data : jsstring) : list jsstring :=
  filter (λ word, length word = WORD_LENGTH)
    (map (λ word, toUpperCase (trim word)) (splitLines data)).

(** [response] is the text of [wordList.txt], [None] when the request
    fails.  An empty list throws into the same handler. *)
Definition fetchWordList (gs : GameState) (response : option jsstring)
    (r : Random) : GameState * option Alert :=
  let fallback := (set_wordToGuess (str "APPLE") gs, Some AlertDefaultWord) in
  match response with
  | None => fallback
  | Some data =>
      let wordList := parseWordList data in
      match wordList with
      | [] => fallback
      | first :: _ =>
          let gs := set_validWords wordList gs in
          (set_wordToGuess
             (nth (randomIndex r (length wordList)) wordList first) gs,
           None)
      end
  end.

(** * The shorter script

    The same game without a board, a loss or a game-over flag: a guess
    only feeds the three letter sets, a win awards 10 points and starts
    the next game at once.  [revealedHintIndices] is a [Set] here. *)
Module Simple.

Record GameState := {
  wordToGuess : option jsstring;   (* [None]: [undefined] *)
  guessCount : nat;
  points : Z;
  streak : Z;
  greenLetters : gset ascii;
  yellowLetters : gset ascii;
  grayLetters : gset ascii;
  revealedHintIndices : gset nat;
  validWords : list jsstring
}.

Definition initialState : GameState :=
  {| wordToGuess := Some [];
     guessCount := 0;
     points := 0%Z;
     streak := 0%Z;
     greenLetters := ∅;
     yellowLetters := ∅;
     grayLetters := ∅;
     revealedHintIndices := ∅;
     validWords := [] |}.

Inductive Alert :=
  | AlertDefaultWord       (* "Using default word: APPLE" *)
  | AlertInvalidWord       (* "Invalid word. Try again!" *)
  | AlertGuessed           (* "You guessed the word!" *)
  | AlertNotEnoughPoints   (* "Not enough points!" *)
  | AlertNoMoreHints.      (* "No more hints available!" *)

Definition set_wordToGuess (w : option jsstring) (gs : GameState) : GameState :=
  {| wordToGuess := w; guessCount := guessCount gs; points := points gs;
     streak := streak gs; greenLetters := greenLetters gs;
     yellowLetters := yellowLetters gs; grayLetters := grayLetters gs;
     revealedHintIndices := revealedHintIndices gs;
     validWords := validWords gs |}.

Definition set_guessCount (n : nat) (gs : GameState) : GameState :=
  {| wordToGuess := wordToGuess gs; guessCount := n; points := points gs;
     streak := streak gs; greenLetters := greenLetters gs;
     yellowLetters := yellowLetters gs; grayLetters := grayLetters gs;
     revealedHintIndices := revealedHintIndices gs;
     validWords := validWords gs |}.

Definition set_points (p : Z) (gs : GameState) : GameState :=
  {| wordToGuess := wordToGuess gs; guessCount := guessCount gs; points := p;
     streak := streak gs; greenLetters := greenLetters gs;
     yellowLetters := yellowLetters gs; grayLetters := grayLetters gs;
     revealedHintIndices := revealedHintIndices gs;
     validWords := validWords gs |}.

Definition set_streak (n : Z) (gs : GameState) : GameState :=
  {| wordToGuess := wordToGuess gs; guessCount := guessCount gs;
     points := points gs; streak := n; greenLetters := greenLetters gs;
     yellowLetters := yellowLetters gs; grayLetters := grayLetters gs;
     revealedHintIndices := revealedHintIndices gs;
     validWords := validWords gs |}.

Definition set_letters (green yellow gray : gset ascii) (gs : GameState)
  : GameState :=
  {| wordToGuess := wordToGuess gs; guessCount := guessCount gs;
     points := points gs; streak := streak gs; greenLetters := green;
     yellowLetters := yellow; grayLetters := gray;
     revealedHintIndices := revealedHintIndices gs;
     validWords := validWords gs |}.

Definition set_revealedHintIndices (s : gset nat) (gs : GameState) : GameState :=
  {| wordToGuess := wordToGuess gs; guessCount := guessCount gs;
     points := points gs; streak := streak gs; greenLetters := greenLetters gs;
     yellowLetters := yellowLetters gs; grayLetters := grayLetters gs;
     revealedHintIndices := s; validWords := validWords gs |}.

Definition set_validWords (l : list jsstring) (gs : GameState) : GameState :=
  {| wordToGuess := wordToGuess gs; guessCount := guessCount gs;
     points := points gs; streak := streak gs; greenLetters := greenLetters gs;
     yellowLetters := yellowLetters gs; grayLetters := grayLetters gs;
     revealedHintIndices := revealedHintIndices gs; validWords := l |}.

(** [validWords[Math.floor(Math.random() * validWords.length)]]:
    [undefined] on an empty list. *)
Definition getRandomWord (gs : GameState) (r : Random) : option jsstring :=
  validWords gs !! randomIndex r (length (validWords gs)).

(** [response] is the text of [wordList.txt], [None] when the request
    fails.  [validWords] is assigned before the list is found empty. *)
Definition fetchWords (gs : GameState) (response : option jsstring)
    (r : Random) : GameState * option Alert :=
  match response with
  | None => (set_wordToGuess (Some (str "APPLE")) gs, Some AlertDefaultWord)
  | Some data =>
      let gs := set_validWords (parseWordList data) gs in
      match validWords gs with
      | [] => (set_wordToGuess (Some (str "APPLE")) gs, Some AlertDefaultWord)
      | _ => (set_wordToGuess (getRandomWord gs r) gs, None)
      end
  end.

Definition validateGuess (gs : GameState) (guess : jsstring) : bool :=
  if negb (length guess =? 5) || negb (includes (validWords gs) guess)
  then false else true.

(** Body of the loop of [updateGameboard], for the target [word]. *)
Definition classify (word guess : jsstring) (gs : GameState) (i : nat)
  : GameState :=
  match guess !! i with
  | None => gs
  | Some letter =>
      if bool_decide (word !! i = Some letter)
      then set_letters ({[letter]} ∪ greenLetters gs) (yellowLetters gs)
             (grayLetters gs) gs
      else if bool_decide (letter ∈ word)
      then set_letters (greenLetters gs) ({[letter]} ∪ yellowLetters gs)
             (grayLetters gs) gs
      else set_letters (greenLetters gs) (yellowLetters gs)
             ({[letter]} ∪ grayLetters gs) gs
  end.

(** [None]: the [TypeError] of reading [wordToGuess[0]] of [undefined],
    thrown before any letter is added. *)
Definition updateGameboard (gs : GameState) (guess : jsstring)
  : option GameState :=
  match wordToGuess gs with
  | None => None
  | Some word => Some (foldl (classify word guess) gs (seq 0 5))
  end.

(** The class [updateKeyColors] leaves on the key of a letter. *)
Definition keyClass (gs : GameState) (letter : ascii) : KeyClass :=
  if bool_decide (letter ∈ greenLetters gs) then KeyGreen
  else if bool_decide (letter ∈ yellowLetters gs) then KeyYellow
  else if bool_decide (letter ∈ grayLetters gs) then KeyGray
  else KeyPlain.

Definition resetGame (gs : GameState) (r : Random) : GameState :=
  let gs := set_wordToGuess (getRandomWord gs r) gs in
  let gs := set_guessCount 0 gs in
  let gs := set_letters ∅ ∅ ∅ gs in
  set_revealedHintIndices ∅ gs.

Definition checkWinCondition (gs : GameState) (guess : jsstring) (r : Random)
  : GameState * option Alert :=
  if bool_decide (wordToGuess gs = Some guess) then
    let gs := set_points (points gs + 10)%Z gs in
    let gs := set_streak (streak gs + 1)%Z gs in
    (resetGame gs r, Some AlertGuessed)
  else (set_guessCount (guessCount gs + 1) gs, None).

(** [input] is the value of the field [guess-input]; [None] is the
    [TypeError] of [updateGameboard]. *)
Definition makeGuess (gs : GameState) (input : jsstring) (r : Random)
  : option (GameState * option Alert) :=
  let guess := trim (toUpperCase input) in
  if negb (validateGuess gs guess) then Some (gs, Some AlertInvalidWord)
  else
    match updateGameboard gs guess with
    | None => None
    | Some gs => Some (checkWinCondition gs guess r)
    end.

Definition availableIndices (gs : GameState) : list nat :=
  filter (λ i, i ∉ revealedHintIndices gs) (seq 0 5).

Definition buyHint (gs : GameState) (r : Random) : GameState * option Alert :=
  if (points gs <? 5)%Z then (gs, Some AlertNotEnoughPoints)
  else
    match availableIndices gs with
    | [] => (gs, Some AlertNoMoreHints)
    | first :: _ =>
        let available := availableIndices gs in
        let index := nth (randomIndex r (length available)) available first in
        let gs := set_revealedHintIndices ({[index]} ∪ revealedHintIndices gs) gs in
        (set_points (points gs - 5)%Z gs, None)
    end.

End Simple.

(** * Vocabulary of the properties *)

(** The number of elements of [l] that satisfy [f]. *)
Definition count_if {A} (f : A → bool) (l : list A) : nat :=
  length (List.filter f l).

(** The number of occurrences of [letter] in [word]. *)
Definition occurrences (letter : ascii) (word : jsstring) : nat :=
  count_if (λ c, bool_decide (c = letter)) word.

(** The number of tiles of a row that show [letter] on colour [c]. *)
Definition tagged (c : Color) (letter : ascii) (tiles : list Tile) : nat :=
  count_if (λ t, bool_decide (innerText t = Some letter)
                 && bool_decide (backgroundColor t = c)) tiles.

(** Position [i] of the guess holds the letter the target has there. *)
Definition exactAt (target guess : jsstring) (i : nat) : bool :=
  match guess !! i with
  | Some letter => bool_decide (target !! i = Some letter)
  | None => false
  end.

(** Position [i] of the guess and of the target both hold [letter]. *)
Definition exactFor (letter : ascii) (target guess : jsstring) (i : nat) : bool :=
  bool_decide (guess !! i = Some letter) && bool_decide (target !! i = Some letter).

(** Tile [i] as the first pass leaves it. *)
Definition firstPaint (target guess : jsstring) (i : nat) (t : Tile) : Tile :=
  match guess !! i with
  | None => t
  | Some letter =>
      {| innerText := Some letter;
         backgroundColor :=
           if bool_decide (target !! i = Some letter) then Green
           else backgroundColor t |}
  end.

(** Tile [i] before ([t]) and after ([t']) the last pass. *)
Definition lastPaint (target guess : jsstring) (i : nat) (t t' : Tile) : Prop :=
  innerText t' = innerText t ∧
  match guess !! i with
  | None => t' = t
  | Some letter =>
      if bool_decide (target !! i = Some letter) then t' = t
      else backgroundColor t' = Yellow ∨ backgroundColor t' = Gray
  end.

(** [grows gs gs']: [gs'] is [gs] with letters added to its three sets. *)
Record grows (gs gs' : GameState) : Prop := {
  grows_word : wordToGuess gs' = wordToGuess gs;
  grows_count : guessCount gs' = guessCount gs;
  grows_points : points gs' = points gs;
  grows_hints : revealedHintIndices gs' = revealedHintIndices gs;
  grows_words : validWords gs' = validWords gs;
  grows_streak : streak gs' = streak gs;
  grows_over : gameOver gs' = gameOver gs;
  grows_green : greenLetters gs ⊆ greenLetters gs';
  grows_yellow : yellowLetters gs ⊆ yellowLetters gs';
  grows_gray : grayLetters gs ⊆ grayLetters gs'
}.

(** ** Runs of a game *)

(** The three guards of [makeGuess] on its input. *)
Definition validGuess (gs : GameState) (input : jsstring) : bool :=
  (length (toUpperCase input) =? WORD_LENGTH)
  && matchesAZ (toUpperCase input)
  && includes (validWords gs) (toUpperCase input).

(** A valid guess that is not the target. *)
Definition missGuess (gs : GameState) (input : jsstring) : Prop :=
  validGuess gs input = true ∧ toUpperCase input ≠ wordToGuess gs.

(** A game that is not over has guesses left. *)
Definition guessesLeft (gs : GameState) : Prop :=
  gameOver gs = false → guessCount gs < MAX_GUESSES.

(** The words of the list have five characters and, unless the list is
    empty, the target is one of them. *)
Definition wellFormed (gs : GameState) : Prop :=
  (∀ word, word ∈ validWords gs → length word = WORD_LENGTH)
  ∧ (validWords gs = [] ∨ wordToGuess gs ∈ validWords gs).

(** The calls the player makes during one game. *)
Inductive Action :=
  | Guess (input : jsstring)
  | Hint (r : Random).

Inductive Event :=
  | GuessEvent (o : GuessOutcome)
  | HintEvent (o : HintOutcome).

Definition act (gs : GameState) (a : Action) : GameState * Event :=
  match a with
  | Guess input => let '(gs, o) := makeGuess gs input in (gs, GuessEvent o)
  | Hint r => let '(gs, o) := buyHint gs r in (gs, HintEvent o)
  end.

Fixpoint play (gs : GameState) (actions : list Action) : GameState * list Event :=
  match actions with
  | [] => (gs, [])
  | a :: rest =>
      let '(gs, e) := act gs a in
      let '(gs, events) := play gs rest in
      (gs, e :: events)
  end.


(** ** Sample states *)

Definition sampleState (target : string) : GameState :=
  set_wordToGuess (str target) initialState.

(** A game on "APPLE" with a word list of three words. *)
Definition dictState : GameState :=
  set_validWords [str "APPLE"; str "CRANE"; str "LEVEL"] (sampleState "APPLE").


(** The value 1/3 of [Math.random()]. *)
Definition oneThird : Random := {| rnd_num := 1; rnd_gap := 1 |}.

(** A word list of five lines: "apple", "  crane ", "12345", "toolong"
    and "ab-cd". *)
Definition lf : ascii := ascii_of_nat 10.

Definition sampleText : jsstring :=
  str "apple" ++ [lf] ++ str "  crane " ++ [lf] ++ str "12345" ++ [lf]
  ++ str "toolong" ++ [lf] ++ str "ab-cd".

(** * Further vocabulary *)

(** ** Tiles of a row *)

(** Position [i] of the guess holds [letter] and the target holds
    something else there. *)
Definition nonExactFor (letter : ascii) (target guess : jsstring) (i : nat)
  : bool :=
  bool_decide (guess !! i = Some letter)
  && negb (bool_decide (target !! i = Some letter)).

(** Some tile of the row shows [letter] on colour [c]. *)
Definition shows (c : Color) (letter : ascii) (tiles : list Tile) : Prop :=
  ∃ t, t ∈ tiles ∧ innerText t = Some letter ∧ backgroundColor t = c.

(** Tile [i] before ([t]) and after ([t']) the last pass, with what the
    colour says about the letter. *)
Definition lastPaintIn (target guess : jsstring) (i : nat) (t t' : Tile) : Prop :=
  innerText t' = innerText t ∧
  match guess !! i with
  | None => t' = t
  | Some letter =>
      if bool_decide (target !! i = Some letter) then t' = t
      else (backgroundColor t' = Yellow ∧ letter ∈ target)
           ∨ backgroundColor t' = Gray
  end.

(** The part of a frame the passes read: all but the tiles. *)
Definition sameCore (fr fr' : Frame) : Prop :=
  fr_state fr = fr_state fr' ∧ fr_correct fr = fr_correct fr'
  ∧ fr_counts fr = fr_counts fr'.

(** Two frames with the same core, on the target [target]. *)
Definition alike (target : jsstring) (fr fr' : Frame) : Prop :=
  sameCore fr fr' ∧ wordToGuess (fr_state fr) = target.

(** Two tiles after the first pass at an index: the letter of the guess
    on both, and the same tile if the index is an exact match. *)
Definition written (target guess : jsstring) (i : nat) (t t' : Tile) : Prop :=
  ∃ letter, guess !! i = Some letter
    ∧ innerText t = Some letter ∧ innerText t' = Some letter
    ∧ (target !! i = Some letter → t = t').

(** A row with the tile of a hint on it. *)
Definition hintedRow : list Tile :=
  [blankTile; {| innerText := Some "P"%char; backgroundColor := LightBlue |};
   blankTile; blankTile; {| innerText := Some "E"%char; backgroundColor := LightBlue |}].

(** The frame after the first pass and the counting, before the last
    pass. *)
Definition beforeLastPass (guess : jsstring) (fr : Frame) : Frame :=
  let fr := foldl (markGreen guess) fr (seq 0 WORD_LENGTH) in
  let fr := with_counts (λ _, foldl countLetter ∅ (wordToGuess (fr_state fr))) fr in
  foldl (deductGreen guess) fr (seq 0 WORD_LENGTH).


(** ** What the keyboard says about the target *)

(** Green and yellow letters are letters of the target, and a gray
    letter of the target is green or yellow as well. *)
Definition keyboardSound (gs : GameState) : Prop :=
  (∀ letter, letter ∈ greenLetters gs → letter ∈ wordToGuess gs)
  ∧ (∀ letter, letter ∈ yellowLetters gs → letter ∈ wordToGuess gs)
  ∧ (∀ letter, letter ∈ grayLetters gs → letter ∈ wordToGuess gs →
       letter ∈ greenLetters gs ∨ letter ∈ yellowLetters gs).


(** ** Sessions *)

(** [gameState] once [loadSavedData] has read [p] points and a streak of
    [s] from the storage. *)
Definition loadedState (p s : Z) : GameState :=
  set_streak s (set_points p initialState).

(** What the player can do on the page: guess, buy a hint, start a new
    game. *)
Inductive Command :=
  | Act (a : Action)
  | NewGame (r : Random).

Inductive Shown :=
  | ShownEvent (e : Event)
  | ShownNewGame.

Definition exec (gs : GameState) (c : Command) : GameState * Shown :=
  match c with
  | Act a => let '(gs, e) := act gs a in (gs, ShownEvent e)
  | NewGame r => (newGame gs r, ShownNewGame)
  end.

Fixpoint run (gs : GameState) (commands : list Command)
  : GameState * list Shown :=
  match commands with
  | [] => (gs, [])
  | c :: rest =>
      let '(gs, s) := exec gs c in
      let '(gs, shown) := run gs rest in
      (gs, s :: shown)
  end.

(** A state of a session: the saved numbers are loaded, the player may
    act while the word list is fetched ([before]), the fetch comes back
    with [response], and the player goes on ([after]). *)
Definition session (p s : Z) (before : list Command)
    (response : option jsstring) (r : Random) (after : list Command)
  : GameState :=
  (run (fetchWordList (run (loadedState p s) before).1 response r).1 after).1.

(** The bounds every operation keeps. *)
Definition steady (gs : GameState) : Prop :=
  guessesLeft gs
  ∧ guessCount gs ≤ MAX_GUESSES
  ∧ NoDup (revealedHintIndices gs)
  ∧ (∀ i, i ∈ revealedHintIndices gs → i < WORD_LENGTH).

(** The points the wins of a run have awarded. *)
Fixpoint awarded (shown : list Shown) : Z :=
  match shown with
  | [] => 0
  | ShownEvent (GuessEvent (Played _ (Some (AlertWin _ n)))) :: rest =>
      (n + awarded rest)%Z
  | _ :: rest => awarded rest
  end.



(** ** Sessions of the shorter script *)

(** The calls of one page of the shorter script.  Only [makeGuess] is
    bound to an event there; [buyHint] is taken as callable all the
    same. *)
Inductive SimpleCommand :=
  | SimpleGuess (input : jsstring) (r : Random)
  | SimpleHint (r : Random).

(** [None]: a [TypeError] leaves [makeGuess]. *)
Fixpoint simpleRun (gs : Simple.GameState) (commands : list SimpleCommand)
  : option Simple.GameState :=
  match commands with
  | [] => Some gs
  | SimpleGuess input r :: rest =>
      match Simple.makeGuess gs input r with
      | None => None
      | Some (gs, _) => simpleRun gs rest
      end
  | SimpleHint r :: rest => simpleRun (Simple.buyHint gs r).1 rest
  end.

(** The calls made before the word list has come back, [fetchWords]
    completing, and the calls made after. *)
Definition simpleSession (before : list SimpleCommand)
    (response : option jsstring) (r : Random) (after : list SimpleCommand)
  : option Simple.GameState :=
  match simpleRun Simple.initialState before with
  | None => None
  | Some gs => simpleRun (Simple.fetchWords gs response r).1 after
  end.

(** What holds of every state of the shorter script once the list has
    come back, for the target [word]. *)
Definition simpleSteady (gs : Simple.GameState) (word : jsstring) : Prop :=
  Simple.wordToGuess gs = Some word
  ∧ length word = 5
  ∧ (∀ w, w ∈ Simple.validWords gs → length w = 5)
  ∧ (word ∈ Simple.validWords gs
     ∨ (Simple.validWords gs = [] ∧ word = str "APPLE"))
  ∧ (∀ letter, letter ∈ Simple.greenLetters gs → letter ∈ word)
  ∧ (∀ letter, letter ∈ Simple.yellowLetters gs → letter ∈ word)
  ∧ (∀ letter, letter ∈ Simple.grayLetters gs → letter ∉ word)
  ∧ (0 ≤ Simple.points gs)%Z ∧ (0 ≤ Simple.streak gs)%Z
  ∧ (∀ i, i ∈ Simple.revealedHintIndices gs → i < 5).

(** A game of the shorter script on "APPLE" with a list of three
    words. *)
Definition simpleDict : Simple.GameState :=
  Simple.set_validWords [str "APPLE"; str "CRANE"; str "LEVEL"]
    (Simple.set_wordToGuess (Some (str "APPLE")) Simple.initialState).

(** * The page: the input field and localStorage

    The state of the full script together with the value of the field
    [guess-input] and with [localStorage], whose items are strings.  The
    board stays out, as before: the rows are returned. *)

(** ** Numbers as strings

    [localStorage.setItem(key, n)] stores [String(n)]; for an integer
    that is its decimal digits, after a minus sign if it is negative. *)

(** The digit of [n < 10]. *)
Definition digitChar (n : N) : ascii := ascii_of_N (48 + n).

(** The decimal digits of [n] in front of [acc]; [fuel] bounds their
    number. *)
Fixpoint digitsOf (fuel : nat) (n : N) (acc : jsstring) : jsstring :=
  match fuel with
  | 0 => acc
  | S fuel =>
      let acc := digitChar (n mod 10) :: acc in
      if (n / 10 =? 0)%N then acc else digitsOf fuel (n / 10) acc
  end.

Definition numberToString (z : Z) : jsstring :=
  let n := Z.to_N (Z.abs z) in
  let digits := digitsOf (S (N.to_nat (N.size n))) n [] in
  if (z <? 0)%Z then "-"%char :: digits else digits.




(** ** The keyboard *)

(** The rows of [generateKeyboard]. *)
Definition keyboardRows : list jsstring :=
  [str "QWERTYUIOP"; str "ASDFGHJKL"; str "ZXCVBNM"].

(** The keys [generateKeyboard] builds, each with its letter (which a
    click hands to [insertLetter]) and its class. *)
Definition generateKeyboard (gs : GameState) : list (list (ascii * KeyClass)) :=
  map (map (λ letter, (letter, createKey gs letter))) keyboardRows.

Module Page.

Record Page := {
  game : GameState;
  guessInput : jsstring;               (* the value of the field *)
  localStorage : gmap string jsstring
}.

Definition with_game (f : GameState → GameState) (pg : Page) : Page :=
  {| game := f (game pg); guessInput := guessInput pg;
     localStorage := localStorage pg |}.

Definition set_guessInput (value : jsstring) (pg : Page) : Page :=
  {| game := game pg; guessInput := value; localStorage := localStorage pg |}.

(** [localStorage.setItem(key, value)]. *)
Definition setItem (key : string) (value : jsstring) (pg : Page) : Page :=
  {| game := game pg; guessInput := guessInput pg;
     localStorage := <[key := value]> (localStorage pg) |}.

(** The page as the script finds it: the state of the declaration, the
    field and the storage as the browser has them. *)
Definition initialPage (value : jsstring) (items : gmap string jsstring)
  : Page :=
  {| game := initialState; guessInput := value; localStorage := items |}.

(** [updatePoints(score)], with its write to [localStorage]. *)
Definition updatePoints (score : Z) (pg : Page) : Page :=
  let pg := with_game (updatePoints score) pg in
  setItem "points" (numberToString (points (game pg))) pg.

Definition updateStreak (pg : Page) : Page :=
  let pg := with_game updateStreak pg in
  setItem "streak" (numberToString (streak (game pg))) pg.

Definition resetStreak (pg : Page) : Page :=
  let pg := with_game resetStreak pg in
  setItem "streak" (numberToString (streak (game pg))) pg.


Definition handleWin (pg : Page) : Page * Alert :=
  let pg := with_game (set_gameOver true) pg in
  let awarded := pointsAwarded (game pg) in
  let pg := updatePoints awarded pg in
  let pg := updateStreak pg in
  (pg, AlertWin (guessCount (game pg)) awarded).

Definition handleLoss (pg : Page) : Page * Alert :=
  let pg := with_game (set_gameOver true) pg in
  let pg := resetStreak pg in
  (pg, AlertLoss (wordToGuess (game pg))).

(** [makeGuess()]: the guess is read from the field, which is emptied
    once the guess is played. *)
Definition makeGuess (pg : Page) : Page * GuessOutcome :=
  if gameOver (game pg) then (pg, Rejected AlertGameOver)
  else if MAX_GUESSES <=? guessCount (game pg) then (pg, Rejected AlertMaxGuesses)
  else
    let guess := toUpperCase (guessInput pg) in
    if negb (length guess =? WORD_LENGTH) then (pg, Rejected AlertLength)
    else if negb (matchesAZ guess) then (pg, Rejected AlertIllegalChars)
    else if negb (includes (validWords (game pg)) guess)
    then (pg, Rejected AlertNotInDictionary)
    else
      let '(gs, row, correct) := processGuess (game pg) guess in
      let pg := with_game (λ _, set_guessCount (guessCount gs + 1) gs) pg in
      let pg := set_guessInput [] pg in
      if correct then
        let '(pg, a) := handleWin pg in (pg, Played row (Some a))
      else if MAX_GUESSES <=? guessCount (game pg) then
        let '(pg, a) := handleLoss pg in (pg, Played row (Some a))
      else (pg, Played row None).

Definition buyHint (pg : Page) (r : Random) : Page * HintOutcome :=
  if gameOver (game pg) then (pg, HintRefused AlertGameOver)
  else if (points (game pg) <? 5)%Z then (pg, HintRefused AlertNotEnoughPoints)
  else
    match availableIndices (game pg) with
    | [] => (pg, HintRefused AlertAllRevealed)
    | first :: _ =>
        let available := availableIndices (game pg) in
        let index := nth (randomIndex r (length available)) available first in
        let pg :=
          with_game (λ gs, set_revealedHintIndices
                             (revealedHintIndices gs ++ [index]) gs) pg in
        let pg := updatePoints (-5)%Z pg in
        match boardRow (guessCount (game pg)) with
        | None => (pg, HintTypeError)
        | Some _ => (pg, HintShown index (wordToGuess (game pg) !! index))
        end
    end.

(** [newGame()] also empties the field. *)
Definition newGame (pg : Page) (r : Random) : Page :=
  set_guessInput [] (with_game (λ gs, newGame gs r) pg).

Definition fetchWordList (pg : Page) (response : option jsstring) (r : Random)
  : Page :=
  with_game (λ gs, (fetchWordList gs response r).1) pg.

(** [insertLetter(letter)], the click of a key. *)
Definition insertLetter (letter : ascii) (pg : Page) : Page :=
  if length (guessInput pg) <? WORD_LENGTH
  then set_guessInput (guessInput pg ++ [letter]) pg
  else pg.

(** [toggleDarkMode(enabled)]: the saved preference; the colours it
    sets are left out. *)
Definition toggleDarkMode (enabled : bool) (pg : Page) : Page :=
  setItem "darkMode" (str (if enabled then "true" else "false")) pg.

(** What the player does on the page.  [PressEnter] is [handleKeyPress]
    on the key Enter; [EditInput] stands for anything the browser lets
    the player do to the field. *)
Inductive PageCommand :=
  | PressEnter
  | ClickKey (letter : ascii)
  | EditInput (value : jsstring)
  | ClickHint (r : Random)
  | ClickNewGame (r : Random)
  | ToggleDark (enabled : bool).

Definition exec (pg : Page) (c : PageCommand) : Page :=
  match c with
  | PressEnter => (makeGuess pg).1
  | ClickKey letter => insertLetter letter pg
  | EditInput value => set_guessInput value pg
  | ClickHint r => (buyHint pg r).1
  | ClickNewGame r => newGame pg r
  | ToggleDark enabled => toggleDarkMode enabled pg
  end.

Definition run (pg : Page) (commands : list PageCommand) : Page :=
  foldl exec pg commands.



(** The keys pressed one after the other. *)
Definition clicks (letters : jsstring) (pg : Page) : Page :=
  foldl (λ pg letter, insertLetter letter pg) pg letters.

End Page.

(** ** What the storage keeps *)




(** ** The row, position by position

    The rule the passes of [processGuess] come to, written out: a
    position that is not an exact match is yellow while the letter has
    occurrences in the target left, counting its exact matches anywhere
    and its other positions further left in the guess. *)
Definition expectedColor (target guess : jsstring) (i : nat) : Color :=
  match guess !! i with
  | None => NoColor
  | Some letter =>
      if bool_decide (target !! i = Some letter) then Green
      else if count_if (nonExactFor letter target guess) (seq 0 i)
              + count_if (exactFor letter target guess) (seq 0 WORD_LENGTH)
              <? occurrences letter target
      then Yellow else Gray
  end.

Definition expectedRow (target guess : jsstring) : list Tile :=
  map (λ i, {| innerText := guess !! i;
               backgroundColor := expectedColor target guess i |})
    (seq 0 WORD_LENGTH).

(** The occurrences of [letter] the last pass can still hand out before
    position [n]. *)
Definition leftBefore (letter : ascii) (target guess : jsstring) (n : nat) : Z :=
  Z.max 0
    (Z.of_nat (occurrences letter target)
     - Z.of_nat (count_if (exactFor letter target guess) (seq 0 WORD_LENGTH))
     - Z.of_nat (count_if (nonExactFor letter target guess) (seq 0 n))).

(** * Properties *)

(** ** Counting in lists *)

Lemma count_if_app {A} (f : A → bool) (l k : list A) :
  count_if f (l ++ k) = count_if f l + count_if f k.
Proof. unfold count_if. by rewrite List.filter_app, length_app. Qed.

Lemma count_if_ext {A} (f g : A → bool) (l : list A) :
  (∀ x, x ∈ l → f x = g x) → count_if f l = count_if g l.
Proof.
  unfold count_if. induction l as [|a l IH]; intros Hfg; [done|].
  simpl. rewrite (Hfg a) by left.
  destruct (g a); simpl; rewrite IH; auto; intros x Hx; apply Hfg; by right.
Qed.

Lemma count_if_le {A} (f g : A → bool) (l : list A) :
  (∀ x, x ∈ l → f x = true → g x = true) → count_if f l ≤ count_if g l.
Proof.
  unfold count_if. induction l as [|a l IH]; intros Hfg; [done|].
  assert (Hl : ∀ x, x ∈ l → f x = true → g x = true).
  { intros x Hx. apply Hfg. by right. }
  specialize (IH Hl). simpl.
  destruct (f a) eqn:Hfa.
  - rewrite (Hfg a) by (done || left). simpl. lia.
  - destruct (g a); simpl; lia.
Qed.

Lemma count_if_length {A} (f : A → bool) (l : list A) :
  count_if f l ≤ length l.
Proof. unfold count_if. induction l as [|a l IH]; simpl; [done|]. destruct (f a); simpl; lia. Qed.

Lemma count_if_all {A} (f : A → bool) (l : list A) :
  count_if f l = length l → ∀ x, x ∈ l → f x = true.
Proof.
  unfold count_if. induction l as [|a l IH]; intros Hlen x Hx.
  - by apply elem_of_nil in Hx.
  - simpl in Hlen. pose proof (count_if_length f l) as Hle. unfold count_if in Hle.
    destruct (f a) eqn:Hfa; simpl in Hlen; [|lia].
    apply elem_of_cons in Hx as [->|Hx]; [done|]. apply IH; [lia|done].
Qed.

(** Changing one element changes the count by that element's share. *)
Lemma count_if_alter {A} (f : A → bool) (h : A → A) (l : list A) i x :
  l !! i = Some x →
  count_if f (alter h i l) + Nat.b2n (f x) = count_if f l + Nat.b2n (f (h x)).
Proof.
  unfold count_if. revert i. induction l as [|a l IH]; intros [|i] Hi; simplify_eq/=.
  - destruct (f x), (f (h x)); simpl; lia.
  - specialize (IH _ Hi). destruct (f a); simpl; lia.
Qed.

(** Counting the elements of a list and counting its indices agree. *)
Lemma count_if_index {A} (f : A → bool) (l : list A) :
  count_if (λ i, from_option f false (l !! i)) (seq 0 (length l)) = count_if f l.
Proof.
  induction l as [|x l IH] using rev_ind; [done|].
  rewrite length_app, seq_app, !count_if_app. simpl. f_equal.
  - rewrite <- IH. apply count_if_ext. intros i Hi.
    apply elem_of_seq in Hi. by rewrite lookup_app_l by lia.
  - unfold count_if. simpl. rewrite lookup_app_r by lia.
    rewrite Nat.sub_diag. simpl. by destruct (f x).
Qed.

(** ** States that differ by letters learnt *)

Lemma grows_refl gs : grows gs gs.
Proof. by split. Qed.

Lemma grows_trans gs1 gs2 gs3 : grows gs1 gs2 → grows gs2 gs3 → grows gs1 gs3.
Proof.
  intros [] []. split; try congruence; etrans; eauto.
Qed.

Lemma grows_addGreen letter gs : grows gs (addGreen letter gs).
Proof. split; simpl; try done; set_solver. Qed.

Lemma grows_addYellow letter gs : grows gs (addYellow letter gs).
Proof. split; simpl; try done; set_solver. Qed.

Lemma grows_addGray letter gs : grows gs (addGray letter gs).
Proof. split; simpl; try done; set_solver. Qed.

#[local] Hint Resolve grows_refl grows_addGreen grows_addYellow grows_addGray : core.

(** ** A loop over tile indices

    What holds after [foldl step fr indices] when a step at [i] only
    touches tile [i]. *)
Section Loop.
Variable step : Frame → nat → Frame.
Variable target : jsstring.
Variable R : nat → Tile → Tile → Prop.

Hypothesis step_grows : ∀ fr i, grows (fr_state fr) (fr_state (step fr i)).
Hypothesis step_other :
  ∀ fr i j, i ≠ j → fr_tiles (step fr i) !! j = fr_tiles fr !! j.
Hypothesis step_at :
  ∀ fr i t, wordToGuess (fr_state fr) = target → fr_tiles fr !! i = Some t →
    ∃ t', fr_tiles (step fr i) !! i = Some t' ∧ R i t t'.

Lemma loop_grows fr indices :
  grows (fr_state fr) (fr_state (foldl step fr indices)).
Proof.
  revert fr. induction indices as [|i indices IH]; intros fr; simpl; [done|].
  eapply grows_trans; [apply (step_grows fr i)|apply IH].
Qed.

Lemma loop_target fr indices :
  wordToGuess (fr_state fr) = target →
  wordToGuess (fr_state (foldl step fr indices)) = target.
Proof. intros Ht. by rewrite (grows_word _ _ (loop_grows fr indices)). Qed.

Lemma loop_other fr indices j :
  j ∉ indices → fr_tiles (foldl step fr indices) !! j = fr_tiles fr !! j.
Proof.
  revert fr. induction indices as [|i indices IH]; intros fr Hj; simpl; [done|].
  apply not_elem_of_cons in Hj as [Hne Hj].
  rewrite IH by done. by apply step_other.
Qed.

Lemma loop_at fr indices j t :
  wordToGuess (fr_state fr) = target → NoDup indices → j ∈ indices →
  fr_tiles fr !! j = Some t →
  ∃ t', fr_tiles (foldl step fr indices) !! j = Some t' ∧ R j t t'.
Proof.
  revert fr. induction indices as [|i indices IH]; intros fr Ht Hnd Hj Hlk; simpl.
  - by apply elem_of_nil in Hj.
  - apply NoDup_cons in Hnd as [Hi Hnd].
    apply elem_of_cons in Hj as [->|Hj].
    + destruct (step_at fr i t Ht Hlk) as (t' & Hlk' & HR).
      exists t'. split; [|done]. by rewrite loop_other.
    + assert (i ≠ j) by (intros ->; contradiction).
      apply IH; try done.
      * rewrite <- Ht. apply (step_grows fr i).
      * by rewrite step_other.
Qed.
End Loop.

Lemma count_if_true {A} (f : A → bool) (l : list A) :
  (∀ x, x ∈ l → f x = true) → count_if f l = length l.
Proof.
  intros Hf. rewrite (count_if_ext f (λ _, true)) by done.
  clear Hf. unfold count_if. induction l; simpl; auto.
Qed.

Lemma count_if_false {A} (f : A → bool) (l : list A) :
  (∀ x, x ∈ l → f x = false) → count_if f l = 0.
Proof.
  intros Hf. rewrite (count_if_ext f (λ _, false)) by done.
  clear Hf. unfold count_if. induction l; simpl; auto.
Qed.

(** ** The first pass *)

Ltac step_cases :=
  repeat match goal with
    | |- context [match ?g !! ?i with _ => _ end] => destruct (g !! i) eqn:?
    | |- context [bool_decide ?P] => destruct (bool_decide_reflect P)
    | |- context [(0 <? ?z)%Z] => destruct (Z.ltb_spec 0 z)
    end.

Lemma markGreen_grows guess fr i :
  grows (fr_state fr) (fr_state (markGreen guess fr i)).
Proof. unfold markGreen. step_cases; simpl; auto. Qed.

Lemma markGreen_other guess fr i j :
  i ≠ j → fr_tiles (markGreen guess fr i) !! j = fr_tiles fr !! j.
Proof.
  intros Hne. unfold markGreen. step_cases; simpl;
    by rewrite ?list_lookup_alter_ne.
Qed.

Lemma markGreen_at target guess fr i t :
  wordToGuess (fr_state fr) = target → fr_tiles fr !! i = Some t →
  ∃ t', fr_tiles (markGreen guess fr i) !! i = Some t'
        ∧ t' = firstPaint target guess i t.
Proof.
  intros <- Hlk. unfold markGreen, firstPaint. simpl.
  destruct (guess !! i) as [letter|]; [|eauto]. simpl.
  destruct (bool_decide_reflect (wordToGuess (fr_state fr) !! i = Some letter));
    simpl; rewrite ?list_lookup_alter_eq, Hlk; simpl; eauto.
Qed.

Lemma markGreen_counts guess fr i :
  fr_counts (markGreen guess fr i) = fr_counts fr.
Proof. unfold markGreen. by step_cases. Qed.

Lemma markGreen_correct guess fr i :
  fr_correct (markGreen guess fr i)
  = fr_correct fr + Nat.b2n (exactAt (wordToGuess (fr_state fr)) guess i).
Proof.
  unfold markGreen, exactAt. simpl.
  destruct (guess !! i) as [letter|]; simpl; [|lia].
  destruct (bool_decide_reflect (wordToGuess (fr_state fr) !! i = Some letter));
    simpl; lia.
Qed.

Lemma firstPass_counts guess fr indices :
  fr_counts (foldl (markGreen guess) fr indices) = fr_counts fr.
Proof.
  revert fr. induction indices as [|i indices IH]; intros fr; simpl; [done|].
  by rewrite IH, markGreen_counts.
Qed.

Lemma firstPass_correct guess fr indices :
  fr_correct (foldl (markGreen guess) fr indices)
  = fr_correct fr + count_if (exactAt (wordToGuess (fr_state fr)) guess) indices.
Proof.
  revert fr. induction indices as [|i indices IH]; intros fr; simpl.
  - unfold count_if. simpl. lia.
  - rewrite IH, markGreen_correct.
    rewrite (grows_word _ _ (markGreen_grows guess fr i)).
    change (i :: indices) with ([i] ++ indices). rewrite count_if_app.
    unfold count_if at 2. simpl.
    destruct (exactAt (wordToGuess (fr_state fr)) guess i); simpl; lia.
Qed.

(** ** Counting the letters of the target *)

Lemma countLetter_fold letter word m :
  countOf (foldl countLetter m word) letter
  = (countOf m letter + Z.of_nat (occurrences letter word))%Z.
Proof.
  revert m. induction word as [|c word IH]; intros m; simpl.
  - unfold occurrences, count_if. simpl. lia.
  - rewrite IH. unfold occurrences.
    change (c :: word) with ([c] ++ word). rewrite count_if_app.
    unfold count_if at 2. simpl. unfold countLetter, countOf.
    destruct (bool_decide_reflect (c = letter)) as [->|Hne]; simpl.
    + rewrite lookup_insert_eq. simpl. lia.
    + rewrite lookup_insert_ne by done. lia.
Qed.

Lemma countLetter_fold_present letter word m :
  letter ∈ word ∨ is_Some (m !! letter) →
  is_Some (foldl countLetter m word !! letter).
Proof.
  revert m. induction word as [|c word IH]; intros m; simpl.
  - intros [H|H]; [by apply elem_of_nil in H|done].
  - intros H. apply IH. unfold countLetter.
    destruct (decide (c = letter)) as [->|Hne].
    + right. rewrite lookup_insert_eq. eauto.
    + rewrite lookup_insert_ne by done.
      destruct H as [H|H]; [|by right].
      apply elem_of_cons in H as [->|H]; [done|by left].
Qed.

(** ** Deducting the green matches *)

Lemma deductGreen_state guess fr i :
  fr_state (deductGreen guess fr i) = fr_state fr.
Proof. unfold deductGreen. by step_cases. Qed.

Lemma deductGreen_tiles guess fr i :
  fr_tiles (deductGreen guess fr i) = fr_tiles fr.
Proof. unfold deductGreen. by step_cases. Qed.

Lemma deductGreen_correct guess fr i :
  fr_correct (deductGreen guess fr i) = fr_correct fr.
Proof. unfold deductGreen. by step_cases. Qed.

Lemma deductGreen_present guess fr i c :
  is_Some (fr_counts fr !! c) → is_Some (fr_counts (deductGreen guess fr i) !! c).
Proof.
  intros H. unfold deductGreen. step_cases; simpl; try done.
  by apply lookup_alter_is_Some.
Qed.

Lemma deductGreen_count letter guess fr i :
  (∀ c, c ∈ wordToGuess (fr_state fr) → is_Some (fr_counts fr !! c)) →
  countOf (fr_counts (deductGreen guess fr i)) letter
  = (countOf (fr_counts fr) letter
     - Z.of_nat (Nat.b2n (exactFor letter (wordToGuess (fr_state fr)) guess i)))%Z.
Proof.
  intros Hpresent. unfold deductGreen, exactFor, countOf.
  destruct (guess !! i) as [c|] eqn:Hg.
  2:{ rewrite bool_decide_eq_false_2 by done. simpl. lia. }
  destruct (decide (c = letter)) as [->|Hne].
  - rewrite (bool_decide_eq_true_2 (Some letter = Some letter)) by done.
    destruct (bool_decide_reflect (wordToGuess (fr_state fr) !! i = Some letter))
      as [Ht|Ht]; cbn [andb Nat.b2n fr_counts with_counts]; [|lia].
    rewrite lookup_alter_eq.
    destruct (Hpresent letter) as [n ->]; [|simpl; lia].
    apply list_elem_of_lookup. eauto.
  - rewrite (bool_decide_eq_false_2 (Some c = Some letter)) by congruence.
    destruct (bool_decide_reflect (wordToGuess (fr_state fr) !! i = Some c));
      cbn [andb Nat.b2n fr_counts with_counts]; [|lia].
    rewrite lookup_alter_ne by done. lia.
Qed.

Lemma deductPass_state guess fr indices :
  fr_state (foldl (deductGreen guess) fr indices) = fr_state fr.
Proof.
  revert fr. induction indices as [|i indices IH]; intros fr; simpl; [done|].
  by rewrite IH, deductGreen_state.
Qed.

Lemma deductPass_tiles guess fr indices :
  fr_tiles (foldl (deductGreen guess) fr indices) = fr_tiles fr.
Proof.
  revert fr. induction indices as [|i indices IH]; intros fr; simpl; [done|].
  by rewrite IH, deductGreen_tiles.
Qed.

Lemma deductPass_correct guess fr indices :
  fr_correct (foldl (deductGreen guess) fr indices) = fr_correct fr.
Proof.
  revert fr. induction indices as [|i indices IH]; intros fr; simpl; [done|].
  by rewrite IH, deductGreen_correct.
Qed.

Lemma deductPass_count letter guess fr indices :
  (∀ c, c ∈ wordToGuess (fr_state fr) → is_Some (fr_counts fr !! c)) →
  countOf (fr_counts (foldl (deductGreen guess) fr indices)) letter
  = (countOf (fr_counts fr) letter
     - Z.of_nat (count_if (exactFor letter (wordToGuess (fr_state fr)) guess) indices))%Z.
Proof.
  revert fr. induction indices as [|i indices IH]; intros fr Hpresent; simpl.
  - unfold count_if. simpl. lia.
  - rewrite IH.
    + rewrite deductGreen_count by done. rewrite deductGreen_state.
      change (i :: indices) with ([i] ++ indices). rewrite count_if_app.
      unfold count_if at 2. simpl.
      destruct (exactFor letter (wordToGuess (fr_state fr)) guess i); simpl; lia.
    + rewrite deductGreen_state. intros c Hc.
      by apply deductGreen_present, Hpresent.
Qed.

(** ** The last pass *)

Lemma markYellowGray_grows guess fr i :
  grows (fr_state fr) (fr_state (markYellowGray guess fr i)).
Proof. unfold markYellowGray. step_cases; simpl; auto. Qed.

Lemma markYellowGray_other guess fr i j :
  i ≠ j → fr_tiles (markYellowGray guess fr i) !! j = fr_tiles fr !! j.
Proof.
  intros Hne. unfold markYellowGray. step_cases; simpl;
    by rewrite ?list_lookup_alter_ne.
Qed.

Lemma markYellowGray_at target guess fr i t :
  wordToGuess (fr_state fr) = target → fr_tiles fr !! i = Some t →
  ∃ t', fr_tiles (markYellowGray guess fr i) !! i = Some t'
        ∧ lastPaint target guess i t t'.
Proof.
  intros <- Hlk. unfold markYellowGray, lastPaint.
  destruct (guess !! i) as [letter|]; [|eauto].
  destruct (bool_decide_reflect (wordToGuess (fr_state fr) !! i = Some letter));
    [eauto|].
  destruct (Z.ltb_spec 0 (countOf (fr_counts fr) letter));
    cbn [fr_tiles with_counts with_state with_tiles];
    rewrite list_lookup_alter_eq, Hlk; simpl; eauto.
Qed.

Lemma markYellowGray_correct guess fr i :
  fr_correct (markYellowGray guess fr i) = fr_correct fr.
Proof. unfold markYellowGray. by step_cases. Qed.

Lemma lastPass_correct guess fr indices :
  fr_correct (foldl (markYellowGray guess) fr indices) = fr_correct fr.
Proof.
  revert fr. induction indices as [|i indices IH]; intros fr; simpl; [done|].
  by rewrite IH, markYellowGray_correct.
Qed.

(** A step of the last pass keeps the sum of the yellow tiles of a letter
    and of the occurrences the letter has left. *)
Lemma markYellowGray_yellow letter guess fr i t :
  fr_tiles fr !! i = Some t → innerText t = guess !! i →
  backgroundColor t ≠ Yellow →
  (0 ≤ countOf (fr_counts fr) letter)%Z →
  (Z.of_nat (tagged Yellow letter (fr_tiles (markYellowGray guess fr i)))
   + countOf (fr_counts (markYellowGray guess fr i)) letter
   = Z.of_nat (tagged Yellow letter (fr_tiles fr)) + countOf (fr_counts fr) letter)%Z
  ∧ (0 ≤ countOf (fr_counts (markYellowGray guess fr i)) letter)%Z.
Proof.
  intros Hlk Htext Hcol Hpos. unfold markYellowGray.
  destruct (guess !! i) as [c|] eqn:Hg; [|done].
  destruct (bool_decide_reflect (wordToGuess (fr_state fr) !! i = Some c)); [done|].
  pose proof (count_if_alter
    (λ t, bool_decide (innerText t = Some letter)
          && bool_decide (backgroundColor t = Yellow))) as Halter.
  assert (Hold : bool_decide (backgroundColor t = Yellow) = false)
    by by apply bool_decide_eq_false_2.
  destruct (Z.ltb_spec 0 (countOf (fr_counts fr) c)) as [Hc|Hc];
    cbn [fr_tiles fr_counts with_counts with_state with_tiles].
  - specialize (Halter (setColor Yellow) _ _ _ Hlk). cbn beta in Halter.
    rewrite Hold, andb_false_r in Halter.
    cbn [setColor innerText backgroundColor] in Halter.
    rewrite (bool_decide_eq_true_2 (Yellow = Yellow)), andb_true_r in Halter by done.
    rewrite Htext in Halter. unfold tagged.
    destruct (decide (c = letter)) as [->|Hne].
    + rewrite bool_decide_eq_true_2 in Halter by done.
      unfold countOf in *. rewrite lookup_alter_eq.
      destruct (fr_counts fr !! letter) as [k|]; simpl in *; lia.
    + rewrite bool_decide_eq_false_2 in Halter by congruence.
      unfold countOf in *. rewrite lookup_alter_ne by done.
      simpl in Halter. lia.
  - specialize (Halter (setColor Gray) _ _ _ Hlk). cbn beta in Halter.
    rewrite Hold, andb_false_r in Halter.
    cbn [setColor innerText backgroundColor] in Halter.
    rewrite (bool_decide_eq_false_2 (Gray = Yellow)), andb_false_r in Halter by done.
    unfold tagged. simpl in Halter. lia.
Qed.

Lemma lastPass_yellow letter guess indices fr :
  NoDup indices →
  (∀ i, i ∈ indices →
     ∃ t, fr_tiles fr !! i = Some t ∧ innerText t = guess !! i
          ∧ backgroundColor t ≠ Yellow) →
  (0 ≤ countOf (fr_counts fr) letter)%Z →
  (Z.of_nat (tagged Yellow letter (fr_tiles (foldl (markYellowGray guess) fr indices)))
   + countOf (fr_counts (foldl (markYellowGray guess) fr indices)) letter
   = Z.of_nat (tagged Yellow letter (fr_tiles fr)) + countOf (fr_counts fr) letter)%Z
  ∧ (0 ≤ countOf (fr_counts (foldl (markYellowGray guess) fr indices)) letter)%Z.
Proof.
  revert fr. induction indices as [|i indices IH]; intros fr Hnd Htiles Hpos; simpl.
  - done.
  - apply NoDup_cons in Hnd as [Hi Hnd].
    destruct (Htiles i) as (t & Hlk & Htext & Hcol); [by left|].
    destruct (markYellowGray_yellow letter guess fr i t Hlk Htext Hcol Hpos)
      as [Hsum Hpos'].
    destruct (IH (markYellowGray guess fr i)) as [Hsum' Hpos'']; try done.
    + intros j Hj. rewrite markYellowGray_other by (intros ->; contradiction).
      apply Htiles. by right.
    + split; [lia|done].
Qed.

(** ** The three passes together *)

Lemma count_index_le {A} (g : A → bool) (l : list A) n :
  count_if (λ i, from_option g false (l !! i)) (seq 0 n) ≤ count_if g l.
Proof.
  rewrite <- (count_if_index g l).
  destruct (le_lt_dec n (length l)) as [Hle|Hlt].
  - replace (length l) with (n + (length l - n)) by lia.
    rewrite seq_app, count_if_app. lia.
  - replace n with (length l + (n - length l)) by lia.
    rewrite seq_app, count_if_app. rewrite (count_if_false _ (seq _ (n - _))); [lia|].
    intros i Hi. apply elem_of_seq in Hi.
    by rewrite lookup_ge_None_2 by lia.
Qed.

Lemma exactFor_le letter target guess n :
  count_if (exactFor letter target guess) (seq 0 n) ≤ occurrences letter target.
Proof.
  unfold occurrences.
  etrans; [|apply (count_index_le (λ c, bool_decide (c = letter)) target n)].
  apply count_if_le. intros i _. unfold exactFor.
  intros [_ Ht%bool_decide_eq_true_1]%andb_true_iff. rewrite Ht. simpl.
  by apply bool_decide_eq_true_2.
Qed.

Lemma runPasses_grows guess fr :
  grows (fr_state fr) (fr_state (runPasses guess fr)).
Proof.
  unfold runPasses.
  eapply grows_trans;
    [apply (loop_grows _ (markGreen_grows guess) fr (seq 0 WORD_LENGTH))|].
  eapply grows_trans; [|apply (loop_grows _ (markYellowGray_grows guess))].
  rewrite deductPass_state. cbn [fr_state with_counts]. apply grows_refl.
Qed.

Lemma runPasses_correct guess fr :
  fr_correct (runPasses guess fr)
  = fr_correct fr
    + count_if (exactAt (wordToGuess (fr_state fr)) guess) (seq 0 WORD_LENGTH).
Proof.
  unfold runPasses.
  rewrite lastPass_correct, deductPass_correct.
  cbn [fr_correct with_counts]. by rewrite firstPass_correct.
Qed.

Lemma runPasses_other guess fr j :
  WORD_LENGTH ≤ j → fr_tiles (runPasses guess fr) !! j = fr_tiles fr !! j.
Proof.
  intros Hj. unfold runPasses.
  assert (j ∉ seq 0 WORD_LENGTH) by (rewrite elem_of_seq; lia).
  rewrite (loop_other _ (markYellowGray_other guess)) by done.
  rewrite deductPass_tiles. cbn [fr_tiles with_counts].
  by rewrite (loop_other _ (markGreen_other guess)).
Qed.

Lemma runPasses_tile target guess fr i t :
  wordToGuess (fr_state fr) = target → i < WORD_LENGTH →
  fr_tiles fr !! i = Some t →
  ∃ t', fr_tiles (runPasses guess fr) !! i = Some t'
        ∧ lastPaint target guess i (firstPaint target guess i t) t'.
Proof.
  intros Ht Hi Hlk. unfold runPasses.
  assert (Hin : i ∈ seq 0 WORD_LENGTH) by (rewrite elem_of_seq; lia).
  pose proof (NoDup_seq 0 WORD_LENGTH) as Hnd.
  destruct (loop_at (markGreen guess) target
              (λ i t t', t' = firstPaint target guess i t)
              (markGreen_grows guess) (markGreen_other guess)
              (markGreen_at target guess)
              fr (seq 0 WORD_LENGTH) i t Ht Hnd Hin Hlk) as (t1 & Hlk1 & ->).
  apply (loop_at (markYellowGray guess) target (lastPaint target guess)
           (markYellowGray_grows guess) (markYellowGray_other guess)
           (markYellowGray_at target guess)); try done.
  - rewrite deductPass_state. cbn [fr_state with_counts].
    by apply (loop_target _ _ (markGreen_grows guess)).
  - by rewrite deductPass_tiles.
Qed.

(** The row after the passes, from a blank row: its tiles and its length. *)
Lemma runPasses_blank target guess gs i :
  wordToGuess gs = target → i < WORD_LENGTH →
  ∃ t', fr_tiles (runPasses guess (enterRow gs (replicate WORD_LENGTH blankTile))) !! i
        = Some t'
        ∧ lastPaint target guess i (firstPaint target guess i blankTile) t'.
Proof.
  intros Ht Hi. apply runPasses_tile; try done.
  by apply lookup_replicate_2.
Qed.

Lemma runPasses_length guess gs :
  length (fr_tiles (runPasses guess (enterRow gs (replicate WORD_LENGTH blankTile))))
  = WORD_LENGTH.
Proof.
  set (fr := runPasses _ _).
  assert (Hin : is_Some (fr_tiles fr !! 4)).
  { destruct (runPasses_blank (wordToGuess gs) guess gs 4)
      as (t' & Hlk & _); [done|unfold WORD_LENGTH; lia|].
    unfold fr. eauto. }
  assert (Hout : fr_tiles fr !! 5 = None).
  { unfold fr. by rewrite runPasses_other. }
  apply lookup_lt_is_Some in Hin. apply lookup_ge_None in Hout.
  unfold WORD_LENGTH. lia.
Qed.

(** The yellow tiles of a letter and the occurrences it has left add up
    to its occurrences in the target less its exact matches. *)
Lemma runPasses_yellow letter target guess gs :
  wordToGuess gs = target →
  ∃ left : Z,
    (0 ≤ left)%Z ∧
    (Z.of_nat (tagged Yellow letter
       (fr_tiles (runPasses guess (enterRow gs (replicate WORD_LENGTH blankTile)))))
     + left
     = Z.of_nat (occurrences letter target)
       - Z.of_nat (count_if (exactFor letter target guess) (seq 0 WORD_LENGTH)))%Z.
Proof.
  intros Ht. unfold runPasses.
  set (fr0 := enterRow gs (replicate WORD_LENGTH blankTile)).
  set (fr1 := foldl (markGreen guess) fr0 (seq 0 WORD_LENGTH)).
  set (fr2 := with_counts _ fr1).
  set (fr3 := foldl (deductGreen guess) fr2 (seq 0 WORD_LENGTH)).
  assert (Ht1 : wordToGuess (fr_state fr1) = target).
  { by apply (loop_target _ _ (markGreen_grows guess)). }
  assert (Htiles1 : ∀ i, i ∈ seq 0 WORD_LENGTH →
            fr_tiles fr1 !! i = Some (firstPaint target guess i blankTile)).
  { intros i Hi.
    destruct (loop_at (markGreen guess) target
                (λ i t t', t' = firstPaint target guess i t)
                (markGreen_grows guess) (markGreen_other guess)
                (markGreen_at target guess)
                fr0 (seq 0 WORD_LENGTH) i blankTile Ht (NoDup_seq _ _) Hi)
      as (t1 & Hlk1 & ->); [|done].
    apply elem_of_seq in Hi. apply lookup_replicate_2. lia. }
  assert (Hc3 : countOf (fr_counts fr3) letter
                = (Z.of_nat (occurrences letter target)
                   - Z.of_nat (count_if (exactFor letter target guess)
                                 (seq 0 WORD_LENGTH)))%Z).
  { unfold fr3. rewrite deductPass_count.
    - cbn [fr_state fr_counts fr2 with_counts].
      rewrite Ht1, countLetter_fold. unfold countOf.
      rewrite lookup_empty. cbn [default]. lia.
    - cbn [fr_state fr_counts fr2 with_counts].
      intros c Hc. apply countLetter_fold_present. by left. }
  destruct (lastPass_yellow letter guess (seq 0 WORD_LENGTH) fr3) as [Hsum Hpos].
  - apply NoDup_seq.
  - intros i Hi. exists (firstPaint target guess i blankTile).
    unfold fr3. rewrite deductPass_tiles. cbn [fr_tiles fr2 with_counts].
    split; [by apply Htiles1|].
    unfold firstPaint. destruct (guess !! i) as [c|]; simpl; [|done].
    split; [done|]. by destruct (bool_decide _).
  - rewrite Hc3. pose proof (exactFor_le letter target guess WORD_LENGTH). lia.
  - eexists. split; [exact Hpos|]. rewrite Hsum, Hc3.
    unfold fr3. rewrite deductPass_tiles. cbn [fr_tiles fr2 with_counts].
    unfold tagged.
    rewrite (count_if_false _ (fr_tiles fr1)); [lia|].
    intros t Hin. apply list_elem_of_lookup in Hin as [i Hlk].
    assert (Hi : i ∈ seq 0 WORD_LENGTH).
    { apply elem_of_seq. split; [lia|].
      destruct (decide (i < 0 + WORD_LENGTH)) as [|Hge]; [done|].
      unfold fr1 in Hlk.
      rewrite (loop_other _ (markGreen_other guess)) in Hlk
        by (rewrite elem_of_seq; lia).
      apply lookup_replicate in Hlk. lia. }
    rewrite (Htiles1 i Hi) in Hlk. injection Hlk as <-.
    unfold firstPaint. destruct (guess !! i) as [c|]; simpl.
    + destruct (bool_decide (target !! i = Some c)); simpl;
        by rewrite andb_false_r.
    + done.
Qed.

(** The green tiles of a letter are its exact matches. *)
Lemma runPasses_green letter target guess gs :
  wordToGuess gs = target →
  tagged Green letter
    (fr_tiles (runPasses guess (enterRow gs (replicate WORD_LENGTH blankTile))))
  = count_if (exactFor letter target guess) (seq 0 WORD_LENGTH).
Proof.
  intros Ht. unfold tagged. rewrite <- count_if_index, runPasses_length.
  apply count_if_ext. intros i Hi. apply elem_of_seq in Hi.
  destruct (runPasses_blank target guess gs i Ht) as (t' & -> & Htext & Hpaint);
    [lia|].
  cbn [from_option]. unfold exactFor, firstPaint in *.
  destruct (guess !! i) as [c|]; cbn [innerText backgroundColor] in *.
  - rewrite Htext.
    destruct (bool_decide_reflect (target !! i = Some c)) as [Hex|Hex].
    + subst t'. cbn [backgroundColor].
      rewrite (bool_decide_eq_true_2 (Green = Green)), andb_true_r by done.
      destruct (bool_decide_reflect (Some c = Some letter)) as [[= ->]|Hne].
      * by rewrite bool_decide_eq_true_2.
      * done.
    + rewrite (bool_decide_eq_false_2 (backgroundColor t' = Green)), andb_false_r
        by (destruct Hpaint as [-> | ->]; done).
      destruct (bool_decide_reflect (Some c = Some letter)) as [[= ->]|Hne].
      * by rewrite bool_decide_eq_false_2.
      * done.
  - subst t'. by rewrite !(bool_decide_eq_false_2 (None = Some letter)).
Qed.

(** The tiles of the row spell the guess. *)
Lemma runPasses_text guess gs :
  length guess = WORD_LENGTH →
  innerText <$> fr_tiles (runPasses guess (enterRow gs (replicate WORD_LENGTH blankTile)))
  = Some <$> guess.
Proof.
  intros Hlen. apply list_eq. intros i. rewrite !list_lookup_fmap.
  destruct (decide (i < WORD_LENGTH)) as [Hi|Hi].
  - destruct (runPasses_blank (wordToGuess gs) guess gs i eq_refl Hi)
      as (t' & -> & Htext & _).
    unfold firstPaint in Htext.
    destruct (lookup_lt_is_Some_2 guess i) as [c Hc]; [lia|].
    rewrite Hc in *. simpl in *. by rewrite Htext.
  - rewrite lookup_ge_None_2 by (rewrite runPasses_length; lia).
    by rewrite lookup_ge_None_2 by lia.
Qed.

Lemma processGuess_found gs guess :
  guessCount gs < MAX_GUESSES →
  processGuess gs guess
  = let fr := runPasses guess (enterRow gs (replicate WORD_LENGTH blankTile)) in
    (fr_state fr, Some (fr_tiles fr), fr_correct fr =? WORD_LENGTH).
Proof.
  intros Hlt. unfold processGuess, boardRow.
  by rewrite (proj2 (Nat.ltb_lt _ _) Hlt).
Qed.

Lemma processGuess_grows gs guess : grows gs (processGuess gs guess).1.1.
Proof.
  unfold processGuess. destruct (boardRow (guessCount gs)); simpl; [|done].
  apply (runPasses_grows guess (enterRow gs l)).
Qed.

(** ** Exact matches of all positions *)

Lemma exactAt_all target guess :
  length target = WORD_LENGTH → length guess = WORD_LENGTH →
  (∀ i, i < WORD_LENGTH → exactAt target guess i = true) ↔ guess = target.
Proof.
  intros Hlt Hlg. split.
  - intros Hall. apply list_eq. intros i.
    destruct (decide (i < WORD_LENGTH)) as [Hi|Hi].
    + specialize (Hall i Hi). unfold exactAt in Hall.
      destruct (guess !! i) as [c|]; [|done].
      by apply bool_decide_eq_true_1 in Hall.
    + by rewrite !lookup_ge_None_2 by lia.
  - intros -> i Hi. unfold exactAt.
    destruct (lookup_lt_is_Some_2 target i) as [c ->]; [lia|].
    by apply bool_decide_eq_true_2.
Qed.

Lemma exactAt_count target guess :
  length target = WORD_LENGTH → length guess = WORD_LENGTH →
  count_if (exactAt target guess) (seq 0 WORD_LENGTH) = WORD_LENGTH ↔ guess = target.
Proof.
  intros Hlt Hlg. rewrite <- exactAt_all by done. split.
  - intros Hcount i Hi. apply (count_if_all _ (seq 0 WORD_LENGTH)).
    + by rewrite length_seq.
    + apply elem_of_seq. lia.
  - intros Hall. rewrite count_if_true; [by rewrite length_seq|].
    intros i Hi. apply elem_of_seq in Hi. apply Hall. lia.
Qed.

Lemma runPasses_all_green guess gs :
  length (wordToGuess gs) = WORD_LENGTH → length guess = WORD_LENGTH →
  Forall (λ t, backgroundColor t = Green)
    (fr_tiles (runPasses guess (enterRow gs (replicate WORD_LENGTH blankTile))))
  ↔ guess = wordToGuess gs.
Proof.
  intros Hlt Hlg. rewrite <- exactAt_all by done. rewrite Forall_lookup. split.
  - intros Hall i Hi.
    destruct (runPasses_blank (wordToGuess gs) guess gs i eq_refl Hi)
      as (t' & Hlk & _ & Hpaint).
    specialize (Hall i t' Hlk). unfold exactAt.
    destruct (guess !! i) as [c|] eqn:Hc.
    + destruct (bool_decide_reflect (wordToGuess gs !! i = Some c)); [done|].
      destruct Hpaint as [Hp|Hp]; rewrite Hp in Hall; done.
    + apply lookup_ge_None in Hc. lia.
  - intros Hall i t Hlk.
    assert (Hi : i < WORD_LENGTH).
    { apply lookup_lt_Some in Hlk. by rewrite runPasses_length in Hlk. }
    destruct (runPasses_blank (wordToGuess gs) guess gs i eq_refl Hi)
      as (t' & Hlk' & _ & Hpaint).
    rewrite Hlk in Hlk'. injection Hlk' as <-.
    specialize (Hall i Hi). unfold exactAt, firstPaint in *.
    destruct (guess !! i) as [c|]; [|done].
    rewrite Hall in Hpaint. by subst t.
Qed.

(** ** The guess evaluator *)

Lemma processGuess_flag gs guess :
  length (wordToGuess gs) = WORD_LENGTH → length guess = WORD_LENGTH →
  guessCount gs < MAX_GUESSES →
  (processGuess gs guess).2 = true ↔ guess = wordToGuess gs.
Proof.
  intros Hlt Hlg Hrow. rewrite processGuess_found by done. cbn [fst snd].
  rewrite runPasses_correct. cbn [fr_correct enterRow fr_state].
  rewrite Nat.eqb_eq. by apply exactAt_count.
Qed.

Lemma processGuess_row gs guess :
  guessCount gs < MAX_GUESSES → ∃ tiles, (processGuess gs guess).1.2 = Some tiles.
Proof. intros Hrow. rewrite processGuess_found by done. simpl. eauto. Qed.

Example crane_ranch :
  colors <$> (processGuess (sampleState "CRANE") (str "RANCH")).1.2
  = Some [Yellow; Yellow; Yellow; Yellow; Gray].
Proof. vm_compute. reflexivity. Qed.

Example level_elbow :
  colors <$> (processGuess (sampleState "LEVEL") (str "ELBOW")).1.2
  = Some [Yellow; Yellow; Gray; Gray; Gray].
Proof. vm_compute. reflexivity. Qed.

Example level_eeeee :
  colors <$> (processGuess (sampleState "LEVEL") (str "EEEEE")).1.2
  = Some [Gray; Green; Gray; Green; Gray].
Proof. vm_compute. reflexivity. Qed.

(** C1. For every target and every guess of five letters, [processGuess]
    paints a row that spells the guess and in which, for every letter,
    the green tiles plus the yellow tiles showing that letter are no more
    than the occurrences of the letter in the target.  (Neither the
    length of the target nor the range A-Z is needed; [guessCount <
    MAX_GUESSES] is what makes the row exist.) *)
Theorem processGuess_multiplicity (gs : GameState) (guess : jsstring) (letter : ascii) :
  length guess = WORD_LENGTH →
  guessCount gs < MAX_GUESSES →
  ∃ tiles,
    (processGuess gs guess).1.2 = Some tiles
    ∧ innerText <$> tiles = Some <$> guess
    ∧ tagged Green letter tiles + tagged Yellow letter tiles
      ≤ occurrences letter (wordToGuess gs).
Proof.
  intros Hlg Hrow. rewrite processGuess_found by done. cbn [fst snd].
  eexists. split; [reflexivity|]. split; [by apply runPasses_text|].
  rewrite (runPasses_green letter (wordToGuess gs)) by done.
  destruct (runPasses_yellow letter (wordToGuess gs) guess gs eq_refl)
    as (left & Hleft & Hsum).
  pose proof (exactFor_le letter (wordToGuess gs) guess WORD_LENGTH). lia.
Qed.

Lemma processGuess_multiplicity_witness :
  length (str "EEEEE") = WORD_LENGTH
  ∧ guessCount (sampleState "LEVEL") < MAX_GUESSES
  ∧ ∃ tiles,
      (processGuess (sampleState "LEVEL") (str "EEEEE")).1.2 = Some tiles
      ∧ innerText <$> tiles = Some <$> str "EEEEE"
      ∧ tagged Green "E" tiles + tagged Yellow "E" tiles
        ≤ occurrences "E" (wordToGuess (sampleState "LEVEL")).
Proof.
  assert (H2 : length (str "EEEEE") = WORD_LENGTH) by reflexivity.
  assert (H3 : guessCount (sampleState "LEVEL") < MAX_GUESSES)
    by (vm_compute; lia).
  exact (conj H2 (conj H3
    (processGuess_multiplicity (sampleState "LEVEL") (str "EEEEE") "E" H2 H3))).
Defined.

(** C2. For a target and a guess of five letters, the row [processGuess]
    paints is all green exactly when the guess is the target, and so is
    the [correct] flag it returns. *)
Theorem processGuess_all_correct (gs : GameState) (guess : jsstring) :
  length (wordToGuess gs) = WORD_LENGTH →
  length guess = WORD_LENGTH →
  guessCount gs < MAX_GUESSES →
  ∃ tiles,
    (processGuess gs guess).1.2 = Some tiles
    ∧ length tiles = WORD_LENGTH
    ∧ (colors tiles = replicate WORD_LENGTH Green ↔ guess = wordToGuess gs)
    ∧ ((processGuess gs guess).2 = true ↔ guess = wordToGuess gs).
Proof.
  intros Hlt Hlg Hrow. pose proof (processGuess_flag gs guess Hlt Hlg Hrow) as Hflag.
  rewrite processGuess_found in * by done. cbn [fst snd] in *.
  eexists. split; [reflexivity|]. split; [apply runPasses_length|].
  split; [|exact Hflag].
  - rewrite <- runPasses_all_green by done.
    set (tiles := fr_tiles _).
    assert (Hlen : length tiles = WORD_LENGTH) by apply runPasses_length.
    clearbody tiles. unfold colors. split.
    + intros Hcol. apply Forall_lookup. intros i t Hlk.
      assert (Hc : (backgroundColor <$> tiles) !! i = Some (backgroundColor t))
        by by rewrite list_lookup_fmap, Hlk.
      change (map backgroundColor tiles) with (backgroundColor <$> tiles) in Hcol.
      rewrite Hcol in Hc. by apply lookup_replicate in Hc as [-> _].
    + intros Hall. apply list_eq. intros i.
      change (map backgroundColor tiles) with (backgroundColor <$> tiles).
      rewrite list_lookup_fmap.
      destruct (tiles !! i) as [t|] eqn:Hlk; cbn [fmap option_fmap option_map].
      * rewrite (Forall_lookup_1 _ _ _ _ Hall Hlk).
        symmetry. apply lookup_replicate_2.
        apply lookup_lt_Some in Hlk. lia.
      * symmetry. apply lookup_replicate_None.
        apply lookup_ge_None in Hlk. lia.
Qed.

Lemma processGuess_all_correct_witness :
  length (wordToGuess (sampleState "APPLE")) = WORD_LENGTH
  ∧ length (str "APPLE") = WORD_LENGTH
  ∧ guessCount (sampleState "APPLE") < MAX_GUESSES
  ∧ ∃ tiles,
      (processGuess (sampleState "APPLE") (str "APPLE")).1.2 = Some tiles
      ∧ length tiles = WORD_LENGTH
      ∧ (colors tiles = replicate WORD_LENGTH Green
         ↔ str "APPLE" = wordToGuess (sampleState "APPLE"))
      ∧ ((processGuess (sampleState "APPLE") (str "APPLE")).2 = true
         ↔ str "APPLE" = wordToGuess (sampleState "APPLE")).
Proof.
  assert (H1 : length (wordToGuess (sampleState "APPLE")) = WORD_LENGTH)
    by reflexivity.
  assert (H2 : length (str "APPLE") = WORD_LENGTH) by reflexivity.
  assert (H3 : guessCount (sampleState "APPLE") < MAX_GUESSES)
    by (vm_compute; lia).
  exact (conj H1 (conj H2 (conj H3
    (processGuess_all_correct (sampleState "APPLE") (str "APPLE") H1 H2 H3)))).
Defined.

(** ** The keyboard classes *)

Lemma createKey_mono gs gs' letter :
  greenLetters gs ⊆ greenLetters gs' →
  yellowLetters gs ⊆ yellowLetters gs' →
  grayLetters gs ⊆ grayLetters gs' →
  rank (createKey gs letter) ≤ rank (createKey gs' letter).
Proof.
  intros Hgreen Hyellow Hgray. unfold createKey.
  repeat case_bool_decide; simpl; try lia; set_solver.
Qed.

Lemma makeGuess_learns gs input :
  greenLetters gs ⊆ greenLetters (makeGuess gs input).1
  ∧ yellowLetters gs ⊆ yellowLetters (makeGuess gs input).1
  ∧ grayLetters gs ⊆ grayLetters (makeGuess gs input).1.
Proof.
  unfold makeGuess.
  destruct (gameOver gs); [done|].
  destruct (MAX_GUESSES <=? guessCount gs); [done|].
  destruct (negb (length (toUpperCase input) =? WORD_LENGTH)); [done|].
  destruct (negb (matchesAZ (toUpperCase input))); [done|].
  destruct (negb (includes (validWords gs) (toUpperCase input))); [done|].
  pose proof (processGuess_grows gs (toUpperCase input)) as Hgrows.
  destruct (processGuess gs (toUpperCase input)) as [[gs1 row] correct].
  destruct Hgrows. cbn [fst snd] in *.
  destruct correct; [done|].
  by destruct (MAX_GUESSES <=? _).
Qed.

Lemma buyHint_letters gs r :
  greenLetters (buyHint gs r).1 = greenLetters gs
  ∧ yellowLetters (buyHint gs r).1 = yellowLetters gs
  ∧ grayLetters (buyHint gs r).1 = grayLetters gs.
Proof.
  unfold buyHint.
  destruct (gameOver gs); [done|].
  destruct (points gs <? 5)%Z; [done|].
  destruct (availableIndices gs); [done|].
  by destruct (boardRow _).
Qed.

Lemma act_learns gs a :
  greenLetters gs ⊆ greenLetters (act gs a).1
  ∧ yellowLetters gs ⊆ yellowLetters (act gs a).1
  ∧ grayLetters gs ⊆ grayLetters (act gs a).1.
Proof.
  destruct a as [input|r]; simpl.
  - pose proof (makeGuess_learns gs input). by destruct (makeGuess gs input).
  - pose proof (buyHint_letters gs r) as (Hg & Hy & Hr).
    destruct (buyHint gs r). simpl in *. by rewrite Hg, Hy, Hr.
Qed.

Lemma play_learns gs actions :
  greenLetters gs ⊆ greenLetters (play gs actions).1
  ∧ yellowLetters gs ⊆ yellowLetters (play gs actions).1
  ∧ grayLetters gs ⊆ grayLetters (play gs actions).1.
Proof.
  revert gs. induction actions as [|a actions IH]; intros gs; simpl; [done|].
  pose proof (act_learns gs a) as (Hg & Hy & Hr).
  destruct (act gs a) as [gs1 e]. specialize (IH gs1).
  destruct (play gs1 actions) as [gs2 events]. simpl in *.
  destruct IH as (Hg' & Hy' & Hr'). repeat split; etrans; eauto.
Qed.

(** C3. Over any sequence of guesses (and hint purchases) of one game,
    the class [createKey] gives a letter never goes down in the order
    plain < gray < yellow < green: a green letter stays green, a yellow
    letter does not become gray. *)
Theorem classification_monotone (gs : GameState) (actions : list Action) (letter : ascii) :
  rank (createKey gs letter) ≤ rank (createKey (play gs actions).1 letter)
  ∧ (createKey gs letter = KeyGreen →
     createKey (play gs actions).1 letter = KeyGreen)
  ∧ (createKey gs letter = KeyYellow →
     createKey (play gs actions).1 letter ≠ KeyGray
     ∧ createKey (play gs actions).1 letter ≠ KeyPlain).
Proof.
  pose proof (play_learns gs actions) as (Hg & Hy & Hr).
  pose proof (createKey_mono gs (play gs actions).1 letter Hg Hy Hr) as Hrank.
  split; [done|]. split.
  - intros Hk. rewrite Hk in Hrank.
    destruct (createKey (play gs actions).1 letter); simpl in *; done || lia.
  - intros Hk. rewrite Hk in Hrank.
    destruct (createKey (play gs actions).1 letter); simpl in *; split; done || lia.
Qed.

(** ** makeGuess *)




Lemma makeGuess_over gs input :
  gameOver gs = true → makeGuess gs input = (gs, Rejected AlertGameOver).
Proof. intros Hover. unfold makeGuess. by rewrite Hover. Qed.

Lemma makeGuess_open gs input :
  gameOver gs = false → guessCount gs < MAX_GUESSES →
  makeGuess gs input
  = let guess := toUpperCase input in
    if negb (length guess =? WORD_LENGTH) then (gs, Rejected AlertLength)
    else if negb (matchesAZ guess) then (gs, Rejected AlertIllegalChars)
    else if negb (includes (validWords gs) guess)
    then (gs, Rejected AlertNotInDictionary)
    else
      let '(gs, row, correct) := processGuess gs guess in
      let gs := set_guessCount (guessCount gs + 1) gs in
      if correct then
        let '(gs, a) := handleWin gs in (gs, Played row (Some a))
      else if MAX_GUESSES <=? guessCount gs then
        let '(gs, a) := handleLoss gs in (gs, Played row (Some a))
      else (gs, Played row None).
Proof.
  intros Hover Hleft. unfold makeGuess. rewrite Hover.
  by rewrite (proj2 (Nat.leb_gt _ _) Hleft).
Qed.


(** A game that is not over has guesses left: this holds of the initial
    state and is kept by every operation. *)
Lemma guessesLeft_initial : guessesLeft initialState.
Proof. intros _. vm_compute. lia. Qed.

Lemma guessesLeft_makeGuess gs input :
  guessesLeft gs → guessesLeft (makeGuess gs input).1.
Proof.
  unfold guessesLeft, makeGuess. intros Hleft.
  destruct (gameOver gs) eqn:Hover; [cbn [fst]; congruence|].
  destruct (MAX_GUESSES <=? guessCount gs); [cbn [fst]; auto|].
  cbn zeta.
  destruct (negb (length (toUpperCase input) =? WORD_LENGTH)); [cbn [fst]; auto|].
  destruct (negb (matchesAZ (toUpperCase input))); [cbn [fst]; auto|].
  destruct (negb (includes (validWords gs) (toUpperCase input))); [cbn [fst]; auto|].
  destruct (processGuess gs (toUpperCase input)) as [[gs1 row] correct].
  destruct correct; [done|].
  destruct (MAX_GUESSES <=? _) eqn:Hmax; [done|].
  intros _. by apply Nat.leb_gt in Hmax.
Qed.

Lemma guessesLeft_buyHint gs r : guessesLeft gs → guessesLeft (buyHint gs r).1.
Proof.
  unfold guessesLeft, buyHint. intros Hleft.
  destruct (gameOver gs) eqn:Hover; [cbn [fst]; congruence|].
  destruct (points gs <? 5)%Z; [cbn [fst]; auto|].
  destruct (availableIndices gs); [cbn [fst]; auto|].
  destruct (boardRow _); simpl; auto.
Qed.

Lemma guessesLeft_newGame gs r : guessesLeft (newGame gs r).
Proof.
  unfold guessesLeft, newGame. intros _.
  destruct (validWords _); cbn; unfold MAX_GUESSES; lia.
Qed.

Lemma guessesLeft_fetchWordList gs response r :
  guessesLeft gs → guessesLeft (fetchWordList gs response r).1.
Proof.
  unfold guessesLeft, fetchWordList. intros Hleft.
  destruct response as [data|]; [|done].
  by destruct (parseWordList data).
Qed.

Lemma guessesLeft_act gs a : guessesLeft gs → guessesLeft (act gs a).1.
Proof.
  intros Hleft. destruct a as [input|r]; simpl.
  - pose proof (guessesLeft_makeGuess gs input Hleft).
    by destruct (makeGuess gs input).
  - pose proof (guessesLeft_buyHint gs r Hleft). by destruct (buyHint gs r).
Qed.

Lemma guessesLeft_play gs actions :
  guessesLeft gs → guessesLeft (play gs actions).1.
Proof.
  revert gs. induction actions as [|a actions IH]; intros gs Hleft; simpl; [done|].
  pose proof (guessesLeft_act gs a Hleft) as Hleft1.
  destruct (act gs a) as [gs1 e]. specialize (IH gs1 Hleft1).
  by destruct (play gs1 actions).
Qed.



(** ** Guesses that are played *)

Lemma validGuess_guards gs input :
  validGuess gs input = true →
  length (toUpperCase input) = WORD_LENGTH
  ∧ negb (length (toUpperCase input) =? WORD_LENGTH) = false
  ∧ negb (matchesAZ (toUpperCase input)) = false
  ∧ negb (includes (validWords gs) (toUpperCase input)) = false.
Proof.
  unfold validGuess. intros [[Hl Hm]%andb_true_iff Hi]%andb_true_iff.
  rewrite Hl, Hm, Hi. by apply Nat.eqb_eq in Hl.
Qed.

Lemma validGuess_ext gs gs' input :
  validWords gs' = validWords gs → validGuess gs' input = validGuess gs input.
Proof. intros Hw. unfold validGuess. by rewrite Hw. Qed.

Lemma missGuess_ext gs gs' input :
  validWords gs' = validWords gs → wordToGuess gs' = wordToGuess gs →
  missGuess gs input → missGuess gs' input.
Proof.
  intros Hw Ht [Hv Hne]. split; [by rewrite (validGuess_ext gs)|by rewrite Ht].
Qed.

(** A valid guess that misses: the letters are learnt and the count goes
    up; the sixth such guess ends the game by [handleLoss]. *)
Lemma makeGuess_miss gs input :
  gameOver gs = false → guessCount gs < MAX_GUESSES →
  length (wordToGuess gs) = WORD_LENGTH → missGuess gs input →
  ∃ gs1 tiles,
    grows gs gs1 ∧
    makeGuess gs input
    = if MAX_GUESSES <=? guessCount gs + 1
      then (resetStreak (set_gameOver true (set_guessCount (guessCount gs + 1) gs1)),
            Played (Some tiles) (Some (AlertLoss (wordToGuess gs))))
      else (set_guessCount (guessCount gs + 1) gs1, Played (Some tiles) None).
Proof.
  intros Hover Hleft Hlen [Hvalid Hne].
  destruct (validGuess_guards gs input Hvalid) as (Hlg & H1 & H2 & H3).
  rewrite makeGuess_open by done. cbn zeta. rewrite H1, H2, H3.
  pose proof (processGuess_grows gs (toUpperCase input)) as Hgrows.
  pose proof (processGuess_flag gs (toUpperCase input) Hlen Hlg Hleft) as Hflag.
  destruct (processGuess_row gs (toUpperCase input) Hleft) as [tiles Hrow].
  destruct (processGuess gs (toUpperCase input)) as [[gs1 row] correct].
  cbn [fst snd] in *. subst row.
  destruct correct; [by destruct Hne; apply Hflag|].
  exists gs1, tiles. split; [done|].
  cbn [guessCount set_guessCount].
  rewrite (grows_count _ _ Hgrows), <- (grows_word _ _ Hgrows).
  by destruct (MAX_GUESSES <=? guessCount gs + 1).
Qed.

(** A valid guess that is the target ends the game by [handleWin]. *)
Lemma makeGuess_win gs input :
  gameOver gs = false → guessCount gs < MAX_GUESSES →
  length (wordToGuess gs) = WORD_LENGTH →
  validGuess gs input = true → toUpperCase input = wordToGuess gs →
  ∃ gs1 tiles,
    grows gs gs1 ∧
    makeGuess gs input
    = let awarded := if guessCount gs + 1 <=? 2 then 6%Z else 3%Z in
      (updateStreak (updatePoints awarded
         (set_gameOver true (set_guessCount (guessCount gs + 1) gs1))),
       Played (Some tiles) (Some (AlertWin (guessCount gs + 1) awarded))).
Proof.
  intros Hover Hleft Hlen Hvalid Heq.
  destruct (validGuess_guards gs input Hvalid) as (Hlg & H1 & H2 & H3).
  rewrite makeGuess_open by done. cbn zeta. rewrite H1, H2, H3.
  pose proof (processGuess_grows gs (toUpperCase input)) as Hgrows.
  pose proof (processGuess_flag gs (toUpperCase input) Hlen Hlg Hleft) as Hflag.
  destruct (processGuess_row gs (toUpperCase input) Hleft) as [tiles Hrow].
  destruct (processGuess gs (toUpperCase input)) as [[gs1 row] correct].
  cbn [fst snd] in *. subst row.
  destruct correct; [|by apply Hflag in Heq].
  exists gs1, tiles. split; [done|].
  unfold handleWin, pointsAwarded. cbn [guessCount set_guessCount set_gameOver
    updatePoints updateStreak set_points set_streak].
  by rewrite (grows_count _ _ Hgrows).
Qed.

Lemma play_app gs actions1 actions2 :
  play gs (actions1 ++ actions2)
  = ((play (play gs actions1).1 actions2).1,
     (play gs actions1).2 ++ (play (play gs actions1).1 actions2).2).
Proof.
  revert gs. induction actions1 as [|a actions1 IH]; intros gs; simpl.
  - by destruct (play gs actions2).
  - destruct (act gs a) as [gs1 e]. rewrite IH.
    destruct (play gs1 actions1) as [gs2 events]. simpl.
    by destruct (play gs2 actions2).
Qed.

(** Misses that leave a guess: the game goes on, nothing but the letter
    sets and the count has changed. *)
Lemma play_misses inputs gs :
  gameOver gs = false → guessCount gs + length inputs < MAX_GUESSES →
  length (wordToGuess gs) = WORD_LENGTH → Forall (missGuess gs) inputs →
  gameOver (play gs (Guess <$> inputs)).1 = false
  ∧ guessCount (play gs (Guess <$> inputs)).1 = guessCount gs + length inputs
  ∧ wordToGuess (play gs (Guess <$> inputs)).1 = wordToGuess gs
  ∧ validWords (play gs (Guess <$> inputs)).1 = validWords gs
  ∧ points (play gs (Guess <$> inputs)).1 = points gs
  ∧ streak (play gs (Guess <$> inputs)).1 = streak gs
  ∧ Forall (λ e, ∃ tiles, e = GuessEvent (Played (Some tiles) None))
      (play gs (Guess <$> inputs)).2.
Proof.
  revert gs. induction inputs as [|input inputs IH]; intros gs Hover Hleft Hlen Hall.
  - simpl. repeat split; first [done|lia].
  - apply Forall_cons in Hall as [Hmiss Hall]. cbn [length] in Hleft.
    destruct (makeGuess_miss gs input) as (gs1 & tiles & Hgrows & Hmake);
      [done|lia|done|done|].
    rewrite (proj2 (Nat.leb_gt _ _)) in Hmake by lia.
    cbn [fmap list_fmap play act]. rewrite Hmake.
    set (gs2 := set_guessCount (guessCount gs + 1) gs1) in *.
    destruct Hgrows.
    destruct (IH gs2) as (H1 & H2 & H3 & H4 & H5 & H6 & H7).
    + cbn [gs2 gameOver set_guessCount]. by rewrite grows_over0.
    + cbn [gs2 guessCount set_guessCount]. lia.
    + cbn [gs2 wordToGuess set_guessCount]. by rewrite grows_word0.
    + eapply Forall_impl; [exact Hall|]. intros x. by apply missGuess_ext.
    + change (list_fmap _ _ Guess inputs) with (Guess <$> inputs).
      destruct (play gs2 (Guess <$> inputs)) as [gs3 events].
      cbn [fst snd gs2 guessCount set_guessCount wordToGuess validWords points
           streak] in *.
      repeat split; try congruence; [cbn [length]; lia|].
      constructor; [eauto|done].
Qed.

(** ** How a game ends *)

Lemma play_guess_last gs misses input :
  play gs (Guess <$> (misses ++ [input]))
  = ((makeGuess (play gs (Guess <$> misses)).1 input).1,
     (play gs (Guess <$> misses)).2
     ++ [GuessEvent (makeGuess (play gs (Guess <$> misses)).1 input).2]).
Proof.
  rewrite fmap_app, play_app. cbn [fmap list_fmap play act].
  by destruct (makeGuess _ input).
Qed.

(** C5. From the start of a game on a five-letter target: six valid
    guesses that miss end it by [handleLoss] (game over, "Game over! The
    word was ...", streak 0); a valid guess that is the target, after
    fewer than six misses, ends it by [handleWin] (game over,
    "Congratulations! ..." with the number of tries); and once
    [gameOver] is set every guess is rejected with the state unchanged. *)
Theorem game_ends (gs : GameState) :
  gameOver gs = false → guessCount gs = 0 →
  length (wordToGuess gs) = WORD_LENGTH →
  (∀ inputs,
     length inputs = MAX_GUESSES → Forall (missGuess gs) inputs →
     gameOver (play gs (Guess <$> inputs)).1 = true
     ∧ guessCount (play gs (Guess <$> inputs)).1 = MAX_GUESSES
     ∧ streak (play gs (Guess <$> inputs)).1 = 0%Z
     ∧ points (play gs (Guess <$> inputs)).1 = points gs
     ∧ ∃ tiles,
         last (play gs (Guess <$> inputs)).2
         = Some (GuessEvent (Played (Some tiles)
                   (Some (AlertLoss (wordToGuess gs))))))
  ∧ (∀ misses input,
       length misses < MAX_GUESSES → Forall (missGuess gs) misses →
       validGuess gs input = true → toUpperCase input = wordToGuess gs →
       let tries := length misses + 1 in
       let awarded := if tries <=? 2 then 6%Z else 3%Z in
       gameOver (play gs (Guess <$> (misses ++ [input]))).1 = true
       ∧ guessCount (play gs (Guess <$> (misses ++ [input]))).1 = tries
       ∧ streak (play gs (Guess <$> (misses ++ [input]))).1 = (streak gs + 1)%Z
       ∧ points (play gs (Guess <$> (misses ++ [input]))).1
         = (points gs + awarded)%Z
       ∧ ∃ tiles,
           last (play gs (Guess <$> (misses ++ [input]))).2
           = Some (GuessEvent (Played (Some tiles)
                     (Some (AlertWin tries awarded)))))
  ∧ (∀ actions input,
       gameOver (play gs actions).1 = true →
       makeGuess (play gs actions).1 input
       = ((play gs actions).1, Rejected AlertGameOver)).
Proof.
  intros Hover Hzero Hlen. split; [|split].
  - intros inputs Hsix Hall.
    destruct inputs as [|final misses _] using rev_ind; [done|].
    rewrite length_app in Hsix. cbn [length] in Hsix.
    apply Forall_app in Hall as [Hall Hfinal]. rewrite Forall_singleton in Hfinal.
    destruct (play_misses misses gs) as (H1 & H2 & H3 & H4 & H5 & H6 & _);
      [done|unfold MAX_GUESSES in *; lia|done|done|].
    rewrite play_guess_last. cbn [fst snd].
    set (gs5 := (play gs (Guess <$> misses)).1) in *.
    destruct (makeGuess_miss gs5 final) as (gs1 & tiles & Hgrows & Hmake).
    + done.
    + unfold MAX_GUESSES in *. lia.
    + by rewrite H3.
    + by apply (missGuess_ext gs).
    + rewrite (proj2 (Nat.leb_le _ _)) in Hmake by (unfold MAX_GUESSES in *; lia).
      rewrite Hmake. destruct Hgrows. cbn.
      repeat split; [unfold MAX_GUESSES in *; lia|congruence|].
      exists tiles. by rewrite last_snoc, H3.
  - intros misses input Hfew Hall Hvalid Hwin tries awarded.
    destruct (play_misses misses gs) as (H1 & H2 & H3 & H4 & H5 & H6 & _);
      [done|lia|done|done|].
    rewrite play_guess_last. cbn [fst snd].
    set (gs5 := (play gs (Guess <$> misses)).1) in *.
    destruct (makeGuess_win gs5 input) as (gs1 & tiles & Hgrows & Hmake).
    + done.
    + lia.
    + by rewrite H3.
    + by rewrite (validGuess_ext gs).
    + by rewrite H3.
    + rewrite Hmake. destruct Hgrows. cbn zeta.
      rewrite H2, Hzero. cbn [Nat.add].
      change (length misses + 1) with tries. fold awarded.
      cbn [fst snd gameOver guessCount streak points updateStreak updatePoints
           set_streak set_points set_gameOver set_guessCount].
      repeat split; [congruence|congruence|].
      exists tiles. by rewrite last_snoc.
  - intros actions input Hdone. by apply makeGuess_over.
Qed.

Lemma game_ends_witness :
  gameOver dictState = false
  ∧ guessCount dictState = 0
  ∧ length (wordToGuess dictState) = WORD_LENGTH
  ∧ gameOver (play dictState (Guess <$> replicate 6 (str "crane"))).1 = true
  ∧ streak (play dictState (Guess <$> replicate 6 (str "crane"))).1 = 0%Z
  ∧ gameOver (play dictState (Guess <$> [str "crane"; str "apple"])).1 = true
  ∧ points (play dictState (Guess <$> [str "crane"; str "apple"])).1 = 6%Z.
Proof.
  assert (H1 : gameOver dictState = false) by reflexivity.
  assert (H2 : guessCount dictState = 0) by reflexivity.
  assert (H3 : length (wordToGuess dictState) = WORD_LENGTH) by reflexivity.
  destruct (game_ends dictState H1 H2 H3) as (Hlost & Hwon & _).
  assert (Hmiss : missGuess dictState (str "crane")).
  { split; [reflexivity|]. vm_compute. discriminate. }
  destruct (Hlost (replicate 6 (str "crane"))) as (L1 & _ & L2 & _).
  { reflexivity. }
  { by apply Forall_replicate. }
  destruct (Hwon [str "crane"] (str "apple")) as (W1 & _ & _ & W2 & _).
  { vm_compute. lia. }
  { by apply Forall_singleton. }
  { reflexivity. }
  { reflexivity. }
  repeat split; assumption.
Defined.

(** ** Points on a win *)

Example apple_first_try :
  (makeGuess dictState (str "apple")).2
  = Played
      (Some (map (λ c, {| innerText := Some c; backgroundColor := Green |})
               (str "APPLE")))
      (Some (AlertWin 1 6)).
Proof. vm_compute. reflexivity. Qed.



(** ** buyHint *)

Lemma nth_default_in {A} (l : list A) (d : A) k : d ∈ l → nth k l d ∈ l.
Proof.
  intros Hd. destruct (decide (k < length l)) as [Hk|Hk].
  - apply list_elem_of_In, nth_In. lia.
  - by rewrite nth_overflow by lia.
Qed.

Lemma elem_of_availableIndices gs i :
  i ∈ availableIndices gs ↔ i < WORD_LENGTH ∧ i ∉ revealedHintIndices gs.
Proof.
  unfold availableIndices. rewrite list_elem_of_filter, elem_of_seq.
  split; intros []; split; done || lia.
Qed.

(** The two ways a call of [buyHint] goes: refused with the state as it
    was, or an available index revealed and 5 points deducted. *)
Lemma buyHint_cases gs r :
  (∃ a, buyHint gs r = (gs, HintRefused a))
  ∨ (∃ index,
       gameOver gs = false ∧ (5 ≤ points gs)%Z
       ∧ index ∈ availableIndices gs
       ∧ (buyHint gs r).1
         = updatePoints (-5)
             (set_revealedHintIndices (revealedHintIndices gs ++ [index]) gs)
       ∧ (buyHint gs r).2
         = if guessCount gs <? MAX_GUESSES
           then HintShown index (wordToGuess gs !! index) else HintTypeError).
Proof.
  unfold buyHint.
  destruct (gameOver gs); [eauto|].
  destruct (Z.ltb_spec (points gs) 5); [eauto|].
  destruct (availableIndices gs) as [|first rest] eqn:Hav; [eauto|].
  right. eexists. split; [done|]. split; [done|]. split.
  { apply nth_default_in. by left. }
  unfold boardRow. cbn [guessCount updatePoints set_points set_revealedHintIndices].
  by destruct (guessCount gs <? MAX_GUESSES).
Qed.

Example three_points :
  buyHint (set_points 3 dictState) oneThird
  = (set_points 3 dictState, HintRefused AlertNotEnoughPoints).
Proof. vm_compute. reflexivity. Qed.




(** ** Hints never repeat *)

Lemma makeGuess_hints gs input :
  revealedHintIndices (makeGuess gs input).1 = revealedHintIndices gs.
Proof.
  unfold makeGuess.
  destruct (gameOver gs); [done|].
  destruct (MAX_GUESSES <=? guessCount gs); [done|].
  destruct (negb (length (toUpperCase input) =? WORD_LENGTH)); [done|].
  destruct (negb (matchesAZ (toUpperCase input))); [done|].
  destruct (negb (includes (validWords gs) (toUpperCase input))); [done|].
  pose proof (processGuess_grows gs (toUpperCase input)) as Hgrows.
  destruct (processGuess gs (toUpperCase input)) as [[gs1 row] correct].
  destruct Hgrows. cbn [fst snd] in *.
  destruct correct; [done|].
  by destruct (MAX_GUESSES <=? _).
Qed.

(** The revealed indices are distinct positions of the word. *)
Lemma revealed_buyHint gs r :
  NoDup (revealedHintIndices gs) →
  (∀ i, i ∈ revealedHintIndices gs → i < WORD_LENGTH) →
  NoDup (revealedHintIndices (buyHint gs r).1)
  ∧ (∀ i, i ∈ revealedHintIndices (buyHint gs r).1 → i < WORD_LENGTH).
Proof.
  intros Hnd Hlt.
  destruct (buyHint_cases gs r) as [[a ->]|(index & _ & _ & Hin & -> & _)]; [done|].
  apply elem_of_availableIndices in Hin as [Hi Hfresh].
  cbn [revealedHintIndices updatePoints set_points set_revealedHintIndices].
  split.
  - apply NoDup_app. split; [done|]. split; [|apply NoDup_singleton].
    intros i Hi1 ->%list_elem_of_singleton. done.
  - intros i [Hi1| ->%list_elem_of_singleton]%elem_of_app; auto.
Qed.






(** ** The word list *)

Example parse_sampleText :
  parseWordList sampleText
  = [str "APPLE"; str "CRANE"; str "12345"; str "AB-CD"].
Proof. vm_compute. reflexivity. Qed.



Lemma fetchWordList_validWords gs response r :
  validWords (fetchWordList gs response r).1
  = match response with
    | Some data =>
        match parseWordList data with
        | [] => validWords gs
        | _ => parseWordList data
        end
    | None => validWords gs
    end.
Proof.
  unfold fetchWordList. destruct response as [data|]; [|done].
  by destruct (parseWordList data).
Qed.



(** ** newGame *)

(** C10. [newGame] leaves [points], [streak] and [validWords] as they
    are; what it changes is the guess count, the three letter sets, the
    revealed hints, the game-over flag and (when the word list is not
    empty) the target, which it draws from the word list. *)
Theorem newGame_frame (gs : GameState) (r : Random) :
  points (newGame gs r) = points gs
  ∧ streak (newGame gs r) = streak gs
  ∧ validWords (newGame gs r) = validWords gs
  ∧ guessCount (newGame gs r) = 0
  ∧ greenLetters (newGame gs r) = ∅
  ∧ yellowLetters (newGame gs r) = ∅
  ∧ grayLetters (newGame gs r) = ∅
  ∧ revealedHintIndices (newGame gs r) = []
  ∧ gameOver (newGame gs r) = false
  ∧ (validWords gs = [] → wordToGuess (newGame gs r) = wordToGuess gs)
  ∧ (validWords gs ≠ [] → wordToGuess (newGame gs r) ∈ validWords gs).
Proof.
  unfold newGame.
  cbn [validWords set_guessCount set_greenLetters set_yellowLetters
       set_grayLetters set_revealedHintIndices set_gameOver].
  destruct (validWords gs) as [|first rest] eqn:Hw.
  - repeat split; done.
  - repeat split; try done. intros _.
    cbn [wordToGuess set_wordToGuess]. apply nth_default_in. by left.
Qed.

(** ** The target is a word of the list *)

Lemma wellFormed_initial : wellFormed initialState.
Proof. split; [|by left]. intros word Hin. by apply elem_of_nil in Hin. Qed.

Lemma wellFormed_fetchWordList gs response r :
  validWords gs = [] → wellFormed (fetchWordList gs response r).1.
Proof.
  intros Hnone. unfold fetchWordList.
  destruct response as [data|].
  2:{ split; simpl; rewrite Hnone; [|by left].
      intros word Hin. by apply elem_of_nil in Hin. }
  destruct (parseWordList data) as [|first rest] eqn:Hparse.
  { split; simpl; rewrite Hnone; [|by left].
    intros word Hin. by apply elem_of_nil in Hin. }
  split; cbn [fst validWords wordToGuess set_wordToGuess set_validWords].
  - intros word Hin. rewrite <- Hparse in Hin. unfold parseWordList in Hin.
    by apply list_elem_of_filter in Hin as [Hlen _].
  - right. apply nth_default_in. by left.
Qed.

Lemma wellFormed_newGame gs r : wellFormed gs → wellFormed (newGame gs r).
Proof.
  intros [Hlen Hword]. unfold newGame.
  cbn [validWords set_guessCount set_greenLetters set_yellowLetters
       set_grayLetters set_revealedHintIndices set_gameOver].
  destruct (validWords gs) as [|first rest] eqn:Hw.
  - split; cbn; rewrite Hw; [done|by left].
  - split; cbn [validWords wordToGuess set_wordToGuess set_guessCount
                set_greenLetters set_yellowLetters set_grayLetters
                set_revealedHintIndices set_gameOver]; rewrite Hw; [done|].
    right. apply nth_default_in. by left.
Qed.

Lemma makeGuess_words gs input :
  validWords (makeGuess gs input).1 = validWords gs
  ∧ wordToGuess (makeGuess gs input).1 = wordToGuess gs.
Proof.
  unfold makeGuess.
  destruct (gameOver gs); [done|].
  destruct (MAX_GUESSES <=? guessCount gs); [done|].
  destruct (negb (length (toUpperCase input) =? WORD_LENGTH)); [done|].
  destruct (negb (matchesAZ (toUpperCase input))); [done|].
  destruct (negb (includes (validWords gs) (toUpperCase input))); [done|].
  pose proof (processGuess_grows gs (toUpperCase input)) as Hgrows.
  destruct (processGuess gs (toUpperCase input)) as [[gs1 row] correct].
  destruct Hgrows. cbn [fst snd] in *.
  destruct correct; [done|].
  by destruct (MAX_GUESSES <=? _).
Qed.

Lemma wellFormed_makeGuess gs input :
  wellFormed gs → wellFormed (makeGuess gs input).1.
Proof.
  destruct (makeGuess_words gs input) as [Hw Ht]. unfold wellFormed.
  by rewrite Hw, Ht.
Qed.

Lemma wellFormed_buyHint gs r : wellFormed gs → wellFormed (buyHint gs r).1.
Proof.
  intros Hwf.
  by destruct (buyHint_cases gs r) as [[a ->]|(index & _ & _ & _ & -> & _)].
Qed.

Lemma wellFormed_target gs :
  wellFormed gs → validWords gs ≠ [] → length (wordToGuess gs) = WORD_LENGTH.
Proof. intros [Hlen [Hnone|Hin]] Hsome; [done|by apply Hlen]. Qed.

(** ** The shorter script *)

Lemma simple_classify_learns word guess gs i :
  Simple.greenLetters gs ⊆ Simple.greenLetters (Simple.classify word guess gs i)
  ∧ Simple.yellowLetters gs ⊆ Simple.yellowLetters (Simple.classify word guess gs i)
  ∧ Simple.grayLetters gs ⊆ Simple.grayLetters (Simple.classify word guess gs i).
Proof.
  unfold Simple.classify. destruct (guess !! i) as [letter|]; [|done].
  repeat case_bool_decide; simpl; set_solver.
Qed.

Lemma simple_fold_learns word guess indices gs :
  Simple.greenLetters gs
  ⊆ Simple.greenLetters (foldl (Simple.classify word guess) gs indices)
  ∧ Simple.yellowLetters gs
    ⊆ Simple.yellowLetters (foldl (Simple.classify word guess) gs indices)
  ∧ Simple.grayLetters gs
    ⊆ Simple.grayLetters (foldl (Simple.classify word guess) gs indices).
Proof.
  revert gs. induction indices as [|i indices IH]; intros gs; simpl; [done|].
  destruct (simple_classify_learns word guess gs i) as (Hg & Hy & Hr).
  destruct (IH (Simple.classify word guess gs i)) as (Hg' & Hy' & Hr').
  repeat split; etrans; eauto.
Qed.

Lemma simple_updateGameboard_learns gs guess gs' :
  Simple.updateGameboard gs guess = Some gs' →
  Simple.greenLetters gs ⊆ Simple.greenLetters gs'
  ∧ Simple.yellowLetters gs ⊆ Simple.yellowLetters gs'
  ∧ Simple.grayLetters gs ⊆ Simple.grayLetters gs'.
Proof.
  unfold Simple.updateGameboard.
  destruct (Simple.wordToGuess gs) as [word|]; [|done]. intros Heq.
  assert (gs' = foldl (Simple.classify word guess) gs (seq 0 5)) as ->
    by congruence.
  apply simple_fold_learns.
Qed.

(** The key classes of the shorter script never go down either while a
    game lasts. *)
Lemma simple_keys_monotone gs guess gs' letter :
  Simple.updateGameboard gs guess = Some gs' →
  rank (Simple.keyClass gs letter) ≤ rank (Simple.keyClass gs' letter).
Proof.
  intros (Hg & Hy & Hr)%simple_updateGameboard_learns. unfold Simple.keyClass.
  repeat case_bool_decide; simpl; try lia; set_solver.
Qed.

(** A win of the shorter script awards a flat 10 points. *)
Lemma simple_win_awards_ten gs guess r :
  Simple.wordToGuess gs = Some guess →
  Simple.points (Simple.checkWinCondition gs guess r).1 = (Simple.points gs + 10)%Z
  ∧ Simple.streak (Simple.checkWinCondition gs guess r).1 = (Simple.streak gs + 1)%Z
  ∧ Simple.guessCount (Simple.checkWinCondition gs guess r).1 = 0.
Proof.
  intros Hword. unfold Simple.checkWinCondition.
  by rewrite bool_decide_eq_true_2.
Qed.

(** The shorter script has no game-over flag: with fewer than 5 points
    its [buyHint] always alerts that points are missing. *)
Lemma simple_buyHint_refuses gs r :
  (Simple.points gs < 5)%Z →
  Simple.buyHint gs r = (gs, Some Simple.AlertNotEnoughPoints).
Proof.
  intros Hfew. unfold Simple.buyHint. by rewrite (proj2 (Z.ltb_lt _ _) Hfew).
Qed.

Lemma simple_buyHint_deducts gs r :
  (5 ≤ Simple.points gs)%Z → Simple.availableIndices gs ≠ [] →
  Simple.points (Simple.buyHint gs r).1 = (Simple.points gs - 5)%Z
  ∧ ∃ index,
      index ∈ Simple.availableIndices gs
      ∧ Simple.revealedHintIndices (Simple.buyHint gs r).1
        = {[index]} ∪ Simple.revealedHintIndices gs.
Proof.
  intros Henough Hav. unfold Simple.buyHint.
  rewrite (proj2 (Z.ltb_ge _ _) Henough).
  destruct (Simple.availableIndices gs) as [|first rest]; [done|].
  split; [done|]. eexists. split; [|done]. apply nth_default_in. by left.
Qed.

Lemma simple_resetGame_frame gs r :
  Simple.points (Simple.resetGame gs r) = Simple.points gs
  ∧ Simple.streak (Simple.resetGame gs r) = Simple.streak gs
  ∧ Simple.validWords (Simple.resetGame gs r) = Simple.validWords gs.
Proof. done. Qed.

(** The shorter script builds its word list with the same expression. *)
Lemma simple_fetchWords_validWords gs data r :
  Simple.validWords (Simple.fetchWords gs (Some data) r).1 = parseWordList data.
Proof.
  unfold Simple.fetchWords. cbn [Simple.validWords Simple.set_validWords].
  by destruct (parseWordList data).
Qed.

(** * Further properties *)

(** ** A loop over tile indices, with an invariant of the frame *)

Section LoopInv.
Variable step : Frame → nat → Frame.
Variable Inv : Frame → Prop.
Variable R : nat → Tile → Tile → Prop.

Hypothesis step_inv : ∀ fr i, Inv fr → Inv (step fr i).
Hypothesis step_other :
  ∀ fr i j, i ≠ j → fr_tiles (step fr i) !! j = fr_tiles fr !! j.
Hypothesis step_at :
  ∀ fr i t, Inv fr → fr_tiles fr !! i = Some t →
    ∃ t', fr_tiles (step fr i) !! i = Some t' ∧ R i t t'.

Lemma loop_inv fr indices : Inv fr → Inv (foldl step fr indices).
Proof.
  revert fr. induction indices as [|i indices IH]; intros fr Hinv; simpl; auto.
Qed.

Lemma loop_inv_at fr indices j t :
  Inv fr → NoDup indices → j ∈ indices → fr_tiles fr !! j = Some t →
  ∃ t', fr_tiles (foldl step fr indices) !! j = Some t' ∧ R j t t'.
Proof.
  revert fr. induction indices as [|i indices IH]; intros fr Hinv Hnd Hj Hlk; simpl.
  - by apply elem_of_nil in Hj.
  - apply NoDup_cons in Hnd as [Hi Hnd].
    apply elem_of_cons in Hj as [->|Hj].
    + destruct (step_at fr i t Hinv Hlk) as (t' & Hlk' & HR).
      exists t'. split; [|done].
      by rewrite (loop_other step step_other).
    + assert (i ≠ j) by (intros ->; contradiction).
      apply IH; auto. by rewrite step_other.
Qed.
End LoopInv.

(** ** Two runs of a loop on frames with the same core *)

Section LoopPair.
Variable step : Frame → nat → Frame.
Variable Core : Frame → Frame → Prop.
Variable Before After : nat → Tile → Tile → Prop.

Hypothesis step_core :
  ∀ fr fr' i, Core fr fr' → Core (step fr i) (step fr' i).
Hypothesis step_other :
  ∀ fr i j, i ≠ j → fr_tiles (step fr i) !! j = fr_tiles fr !! j.
Hypothesis step_pair :
  ∀ fr fr' i t t',
    Core fr fr' → fr_tiles fr !! i = Some t → fr_tiles fr' !! i = Some t' →
    Before i t t' →
    ∃ u u', fr_tiles (step fr i) !! i = Some u
            ∧ fr_tiles (step fr' i) !! i = Some u' ∧ After i u u'.

Lemma pair_core fr fr' indices :
  Core fr fr' → Core (foldl step fr indices) (foldl step fr' indices).
Proof.
  revert fr fr'. induction indices as [|i indices IH]; intros fr fr' Hc; simpl; auto.
Qed.

Lemma pair_at fr fr' indices j t t' :
  Core fr fr' → NoDup indices → j ∈ indices →
  fr_tiles fr !! j = Some t → fr_tiles fr' !! j = Some t' → Before j t t' →
  ∃ u u', fr_tiles (foldl step fr indices) !! j = Some u
          ∧ fr_tiles (foldl step fr' indices) !! j = Some u' ∧ After j u u'.
Proof.
  revert fr fr'.
  induction indices as [|i indices IH]; intros fr fr' Hc Hnd Hj Hlk Hlk' Hb; simpl.
  - by apply elem_of_nil in Hj.
  - apply NoDup_cons in Hnd as [Hi Hnd].
    apply elem_of_cons in Hj as [->|Hj].
    + destruct (step_pair fr fr' i t t' Hc Hlk Hlk' Hb) as (u & u' & Hu & Hu' & Ha).
      exists u, u'. by rewrite !(loop_other step step_other).
    + assert (i ≠ j) by (intros ->; contradiction).
      apply IH; auto; by rewrite step_other.
Qed.
End LoopPair.

(** ** The keys of letterCounts are letters of the target *)

Lemma countLetter_fold_dom c word m :
  is_Some (foldl countLetter m word !! c) → c ∈ word ∨ is_Some (m !! c).
Proof.
  revert m. induction word as [|a word IH]; intros m; simpl; [by right|].
  intros [Hin|Hm]%IH; [left; by right|].
  unfold countLetter in Hm. destruct (decide (a = c)) as [->|Hne].
  - left. by left.
  - rewrite lookup_insert_ne in Hm by done. by right.
Qed.

Lemma deductGreen_dom guess fr i c :
  is_Some (fr_counts (deductGreen guess fr i) !! c) → is_Some (fr_counts fr !! c).
Proof.
  unfold deductGreen. destruct (guess !! i) as [letter|]; [|done].
  destruct (bool_decide _); [|done].
  cbn [fr_counts with_counts]. by rewrite lookup_alter_is_Some.
Qed.

Lemma deductPass_dom guess fr indices c :
  is_Some (fr_counts (foldl (deductGreen guess) fr indices) !! c) →
  is_Some (fr_counts fr !! c).
Proof.
  revert fr. induction indices as [|i indices IH]; intros fr; simpl; [done|].
  intros H%IH. by apply deductGreen_dom in H.
Qed.

Lemma markYellowGray_dom guess fr i c :
  is_Some (fr_counts (markYellowGray guess fr i) !! c) → is_Some (fr_counts fr !! c).
Proof.
  unfold markYellowGray. destruct (guess !! i) as [letter|]; [|done].
  destruct (bool_decide _); [done|].
  destruct (0 <? _)%Z; [|done].
  cbn [fr_counts with_counts with_state with_tiles].
  by rewrite lookup_alter_is_Some.
Qed.

Lemma countOf_pos_present (m : gmap ascii Z) c :
  (0 < countOf m c)%Z → is_Some (m !! c).
Proof. unfold countOf. destruct (m !! c); [eauto|simpl; lia]. Qed.

(** The frame the last pass starts from. *)
Lemma lastPass_start target guess fr :
  wordToGuess (fr_state fr) = target →
  let fr3 := foldl (deductGreen guess)
               (with_counts (λ _, foldl countLetter ∅ (wordToGuess (fr_state
                  (foldl (markGreen guess) fr (seq 0 WORD_LENGTH)))))
                  (foldl (markGreen guess) fr (seq 0 WORD_LENGTH)))
               (seq 0 WORD_LENGTH) in
  wordToGuess (fr_state fr3) = target
  ∧ (∀ c, is_Some (fr_counts fr3 !! c) → c ∈ target).
Proof.
  intros Ht fr3. unfold fr3.
  assert (Ht1 : wordToGuess (fr_state (foldl (markGreen guess) fr (seq 0 WORD_LENGTH)))
                = target)
    by by apply (loop_target _ _ (markGreen_grows guess)).
  split.
  - by rewrite deductPass_state.
  - intros c Hc%deductPass_dom. cbn [fr_counts with_counts] in Hc.
    rewrite Ht1 in Hc. apply countLetter_fold_dom in Hc as [Hin|Hc]; [done|].
    rewrite lookup_empty in Hc. by destruct Hc.
Qed.

Lemma markYellowGray_at_in target guess fr i t :
  wordToGuess (fr_state fr) = target
  ∧ (∀ c, is_Some (fr_counts fr !! c) → c ∈ target) →
  fr_tiles fr !! i = Some t →
  ∃ t', fr_tiles (markYellowGray guess fr i) !! i = Some t'
        ∧ lastPaintIn target guess i t t'.
Proof.
  intros [<- Hdom] Hlk. unfold markYellowGray, lastPaintIn.
  destruct (guess !! i) as [letter|]; [|eauto].
  destruct (bool_decide_reflect (wordToGuess (fr_state fr) !! i = Some letter));
    [eauto|].
  destruct (Z.ltb_spec 0 (countOf (fr_counts fr) letter)) as [Hpos|Hpos];
    cbn [fr_tiles with_counts with_state with_tiles];
    rewrite list_lookup_alter_eq, Hlk; simpl; eexists; (split; [done|]);
    (split; [done|]).
  - left. split; [done|]. by apply Hdom, countOf_pos_present.
  - by right.
Qed.

Lemma markYellowGray_inv target guess fr i :
  wordToGuess (fr_state fr) = target
  ∧ (∀ c, is_Some (fr_counts fr !! c) → c ∈ target) →
  wordToGuess (fr_state (markYellowGray guess fr i)) = target
  ∧ (∀ c, is_Some (fr_counts (markYellowGray guess fr i) !! c) → c ∈ target).
Proof.
  intros [Ht Hdom]. split.
  - by rewrite (grows_word _ _ (markYellowGray_grows guess fr i)).
  - intros c Hc%markYellowGray_dom. by apply Hdom.
Qed.

Lemma runPasses_tile_in target guess fr i t :
  wordToGuess (fr_state fr) = target → i < WORD_LENGTH →
  fr_tiles fr !! i = Some t →
  ∃ t', fr_tiles (runPasses guess fr) !! i = Some t'
        ∧ lastPaintIn target guess i (firstPaint target guess i t) t'.
Proof.
  intros Ht Hi Hlk. unfold runPasses.
  assert (Hin : i ∈ seq 0 WORD_LENGTH) by (rewrite elem_of_seq; lia).
  pose proof (NoDup_seq 0 WORD_LENGTH) as Hnd.
  destruct (loop_at (markGreen guess) target
              (λ i t t', t' = firstPaint target guess i t)
              (markGreen_grows guess) (markGreen_other guess)
              (markGreen_at target guess)
              fr (seq 0 WORD_LENGTH) i t Ht Hnd Hin Hlk) as (t1 & Hlk1 & ->).
  apply (loop_inv_at (markYellowGray guess)
           (λ fr, wordToGuess (fr_state fr) = target
                  ∧ (∀ c, is_Some (fr_counts fr !! c) → c ∈ target))
           (lastPaintIn target guess)
           (markYellowGray_inv target guess) (markYellowGray_other guess)
           (markYellowGray_at_in target guess)); try done.
  - by apply lastPass_start.
  - by rewrite deductPass_tiles.
Qed.

(** ** Yellow and gray tiles of a letter *)

Lemma count_if_cons {A} (f : A → bool) (a : A) (l : list A) :
  count_if f (a :: l) = Nat.b2n (f a) + count_if f l.
Proof. unfold count_if. simpl. by destruct (f a). Qed.

Lemma count_if_split {A} (f g : A → bool) (l : list A) :
  count_if (λ x, f x && g x) l + count_if (λ x, f x && negb (g x)) l
  = count_if f l.
Proof.
  induction l as [|a l IH]; [done|]. rewrite !count_if_cons.
  destruct (f a), (g a); simpl; lia.
Qed.

Lemma exact_nonExact_count letter target guess :
  length guess = WORD_LENGTH →
  count_if (exactFor letter target guess) (seq 0 WORD_LENGTH)
  + count_if (nonExactFor letter target guess) (seq 0 WORD_LENGTH)
  = occurrences letter guess.
Proof.
  intros Hlen. unfold occurrences.
  rewrite <- (count_if_index _ guess), Hlen.
  rewrite <- (count_if_split
    (λ i, from_option (λ c, bool_decide (c = letter)) false (guess !! i))
    (λ i, bool_decide (target !! i = Some letter))).
  f_equal; apply count_if_ext; intros i _; unfold exactFor, nonExactFor;
    (destruct (guess !! i) as [c|]; cbn [from_option];
     [destruct (decide (c = letter)) as [->|Hne];
      [by rewrite (bool_decide_eq_true_2 (Some letter = Some letter)),
            (bool_decide_eq_true_2 (letter = letter))
      |by rewrite (bool_decide_eq_false_2 (Some c = Some letter)),
            (bool_decide_eq_false_2 (c = letter)) by congruence]
     |by rewrite (bool_decide_eq_false_2 (None = Some letter))]).
Qed.

(** A step of the last pass paints one more tile of a letter yellow or
    gray when the position holds the letter without an exact match, and
    never paints the letter gray while occurrences are left. *)
Lemma markYellowGray_account letter guess fr i t :
  fr_tiles fr !! i = Some t → innerText t = guess !! i →
  backgroundColor t ≠ Yellow → backgroundColor t ≠ Gray →
  (0 ≤ countOf (fr_counts fr) letter)%Z →
  tagged Yellow letter (fr_tiles (markYellowGray guess fr i))
  + tagged Gray letter (fr_tiles (markYellowGray guess fr i))
  = tagged Yellow letter (fr_tiles fr) + tagged Gray letter (fr_tiles fr)
    + Nat.b2n (nonExactFor letter (wordToGuess (fr_state fr)) guess i)
  ∧ (tagged Gray letter (fr_tiles fr) = 0 ∨ countOf (fr_counts fr) letter = 0%Z →
     tagged Gray letter (fr_tiles (markYellowGray guess fr i)) = 0
     ∨ countOf (fr_counts (markYellowGray guess fr i)) letter = 0%Z).
Proof.
  intros Hlk Htext Hny Hng Hpos. unfold markYellowGray, nonExactFor.
  destruct (guess !! i) as [c|] eqn:Hg.
  2:{ rewrite (bool_decide_eq_false_2 (None = Some letter)) by done.
      simpl. split; [lia|done]. }
  destruct (bool_decide_reflect (wordToGuess (fr_state fr) !! i = Some c)) as [Hex|Hex].
  { split; [|done].
    destruct (decide (c = letter)) as [->|Hne].
    - rewrite (bool_decide_eq_true_2 (wordToGuess (fr_state fr) !! i = Some letter))
        by done.
      rewrite andb_false_r. simpl. lia.
    - rewrite (bool_decide_eq_false_2 (Some c = Some letter)) by congruence.
      simpl. lia. }
  pose proof (count_if_alter
    (λ t, bool_decide (innerText t = Some letter)
          && bool_decide (backgroundColor t = Yellow))) as HY.
  pose proof (count_if_alter
    (λ t, bool_decide (innerText t = Some letter)
          && bool_decide (backgroundColor t = Gray))) as HG.
  assert (HoldY : bool_decide (backgroundColor t = Yellow) = false)
    by by apply bool_decide_eq_false_2.
  assert (HoldG : bool_decide (backgroundColor t = Gray) = false)
    by by apply bool_decide_eq_false_2.
  assert (Hshare : Nat.b2n (bool_decide (Some c = Some letter)
                     && negb (bool_decide (wordToGuess (fr_state fr) !! i = Some letter)))
                   = Nat.b2n (bool_decide (Some c = Some letter))).
  { destruct (decide (c = letter)) as [->|Hne].
    - by rewrite (bool_decide_eq_false_2
                    (wordToGuess (fr_state fr) !! i = Some letter)), andb_true_r.
    - by rewrite (bool_decide_eq_false_2 (Some c = Some letter)) by congruence. }
  rewrite Hshare. unfold tagged.
  destruct (Z.ltb_spec 0 (countOf (fr_counts fr) c)) as [Hc|Hc];
    cbn [fr_tiles fr_counts with_counts with_state with_tiles].
  - specialize (HY (setColor Yellow) _ _ _ Hlk).
    specialize (HG (setColor Yellow) _ _ _ Hlk). cbn beta in HY, HG.
    rewrite HoldY, andb_false_r in HY. rewrite HoldG, andb_false_r in HG.
    cbn [setColor innerText backgroundColor] in HY, HG.
    rewrite (bool_decide_eq_true_2 (Yellow = Yellow)), andb_true_r in HY by done.
    rewrite (bool_decide_eq_false_2 (Yellow = Gray)), andb_false_r in HG by done.
    rewrite Htext in HY. cbn [Nat.b2n] in HY, HG. split; [lia|].
    intros Hzero. destruct (decide (c = letter)) as [->|Hne].
    + left. destruct Hzero as [Hz|Hz]; [|lia]. unfold tagged in Hz. lia.
    + unfold countOf in *. rewrite lookup_alter_ne by done.
      destruct Hzero as [Hz|Hz]; [left|by right]. unfold tagged in Hz. lia.
  - specialize (HY (setColor Gray) _ _ _ Hlk).
    specialize (HG (setColor Gray) _ _ _ Hlk). cbn beta in HY, HG.
    rewrite HoldY, andb_false_r in HY. rewrite HoldG, andb_false_r in HG.
    cbn [setColor innerText backgroundColor] in HY, HG.
    rewrite (bool_decide_eq_false_2 (Gray = Yellow)), andb_false_r in HY by done.
    rewrite (bool_decide_eq_true_2 (Gray = Gray)), andb_true_r in HG by done.
    rewrite Htext in HG. cbn [Nat.b2n] in HY, HG. split; [lia|].
    intros Hzero. destruct (decide (c = letter)) as [->|Hne].
    + right. lia.
    + rewrite (bool_decide_eq_false_2 (Some c = Some letter)) in HG by congruence.
      cbn [Nat.b2n] in HG. destruct Hzero as [Hz|Hz]; [left|by right].
      unfold tagged in Hz. lia.
Qed.

Lemma lastPass_account letter guess indices fr :
  NoDup indices →
  (∀ i, i ∈ indices →
     ∃ t, fr_tiles fr !! i = Some t ∧ innerText t = guess !! i
          ∧ backgroundColor t ≠ Yellow ∧ backgroundColor t ≠ Gray) →
  (0 ≤ countOf (fr_counts fr) letter)%Z →
  tagged Yellow letter (fr_tiles (foldl (markYellowGray guess) fr indices))
  + tagged Gray letter (fr_tiles (foldl (markYellowGray guess) fr indices))
  = tagged Yellow letter (fr_tiles fr) + tagged Gray letter (fr_tiles fr)
    + count_if (nonExactFor letter (wordToGuess (fr_state fr)) guess) indices
  ∧ (tagged Gray letter (fr_tiles fr) = 0 ∨ countOf (fr_counts fr) letter = 0%Z →
     tagged Gray letter (fr_tiles (foldl (markYellowGray guess) fr indices)) = 0
     ∨ countOf (fr_counts (foldl (markYellowGray guess) fr indices)) letter = 0%Z).
Proof.
  revert fr. induction indices as [|i indices IH]; intros fr Hnd Htiles Hpos.
  - simpl. unfold count_if. simpl. split; [lia|done].
  - apply NoDup_cons in Hnd as [Hi Hnd].
    destruct (Htiles i) as (t & Hlk & Htext & Hny & Hng); [by left|].
    destruct (markYellowGray_account letter guess fr i t Hlk Htext Hny Hng Hpos)
      as [Hsum Hzero].
    destruct (markYellowGray_yellow letter guess fr i t Hlk Htext Hny Hpos)
      as [_ Hpos'].
    destruct (IH (markYellowGray guess fr i)) as [Hsum' Hzero']; try done.
    { intros j Hj. rewrite markYellowGray_other by (intros ->; contradiction).
      apply Htiles. by right. }
    cbn [foldl]. rewrite count_if_cons.
    rewrite (grows_word _ _ (markYellowGray_grows guess fr i)) in Hsum'.
    split; [lia|]. intros H. by apply Hzero', Hzero.
Qed.

(** The ledger of a letter after the three passes on a blank row: its
    yellow tiles and the occurrences left add up to the occurrences in
    the target less the exact matches; its yellow and gray tiles are the
    positions that hold it without an exact match; and it has a gray tile
    only if no occurrence is left. *)
Lemma runPasses_ledger letter target guess gs :
  wordToGuess gs = target →
  ∃ left : Z,
    (0 ≤ left)%Z
    ∧ (Z.of_nat (tagged Yellow letter
         (fr_tiles (runPasses guess (enterRow gs (replicate WORD_LENGTH blankTile)))))
       + left
       = Z.of_nat (occurrences letter target)
         - Z.of_nat (count_if (exactFor letter target guess) (seq 0 WORD_LENGTH)))%Z
    ∧ tagged Yellow letter
        (fr_tiles (runPasses guess (enterRow gs (replicate WORD_LENGTH blankTile))))
      + tagged Gray letter
          (fr_tiles (runPasses guess (enterRow gs (replicate WORD_LENGTH blankTile))))
      = count_if (nonExactFor letter target guess) (seq 0 WORD_LENGTH)
    ∧ (tagged Gray letter
         (fr_tiles (runPasses guess (enterRow gs (replicate WORD_LENGTH blankTile))))
       = 0 ∨ left = 0%Z).
Proof.
  intros Ht. unfold runPasses.
  set (fr0 := enterRow gs (replicate WORD_LENGTH blankTile)).
  set (fr1 := foldl (markGreen guess) fr0 (seq 0 WORD_LENGTH)).
  set (fr2 := with_counts _ fr1).
  set (fr3 := foldl (deductGreen guess) fr2 (seq 0 WORD_LENGTH)).
  assert (Ht1 : wordToGuess (fr_state fr1) = target).
  { by apply (loop_target _ _ (markGreen_grows guess)). }
  assert (Ht3 : wordToGuess (fr_state fr3) = target).
  { unfold fr3. by rewrite deductPass_state. }
  assert (Htiles1 : ∀ i, i ∈ seq 0 WORD_LENGTH →
            fr_tiles fr1 !! i = Some (firstPaint target guess i blankTile)).
  { intros i Hi.
    destruct (loop_at (markGreen guess) target
                (λ i t t', t' = firstPaint target guess i t)
                (markGreen_grows guess) (markGreen_other guess)
                (markGreen_at target guess)
                fr0 (seq 0 WORD_LENGTH) i blankTile Ht (NoDup_seq _ _) Hi)
      as (t1 & Hlk1 & ->); [|done].
    apply elem_of_seq in Hi. apply lookup_replicate_2. lia. }
  assert (Hc3 : countOf (fr_counts fr3) letter
                = (Z.of_nat (occurrences letter target)
                   - Z.of_nat (count_if (exactFor letter target guess)
                                 (seq 0 WORD_LENGTH)))%Z).
  { unfold fr3. rewrite deductPass_count.
    - cbn [fr_state fr_counts fr2 with_counts].
      rewrite Ht1, countLetter_fold. unfold countOf.
      rewrite lookup_empty. cbn [default]. lia.
    - cbn [fr_state fr_counts fr2 with_counts].
      intros c Hc. apply countLetter_fold_present. by left. }
  assert (Hstart : ∀ i, i ∈ seq 0 WORD_LENGTH →
            ∃ t, fr_tiles fr3 !! i = Some t ∧ innerText t = guess !! i
                 ∧ backgroundColor t ≠ Yellow ∧ backgroundColor t ≠ Gray).
  { intros i Hi. exists (firstPaint target guess i blankTile).
    unfold fr3. rewrite deductPass_tiles. cbn [fr_tiles fr2 with_counts].
    split; [by apply Htiles1|].
    unfold firstPaint. destruct (guess !! i) as [c|]; simpl; [|done].
    split; [done|]. by destruct (bool_decide _). }
  assert (Hnone : ∀ c, c = Yellow ∨ c = Gray → tagged c letter (fr_tiles fr3) = 0).
  { intros c Hc.
    apply count_if_false. intros t Hin.
    apply list_elem_of_lookup in Hin as [i Hlk].
    unfold fr3 in Hlk. rewrite deductPass_tiles in Hlk.
    cbn [fr_tiles fr2 with_counts] in Hlk.
    assert (Hi : i ∈ seq 0 WORD_LENGTH).
    { apply elem_of_seq. split; [lia|].
      destruct (decide (i < 0 + WORD_LENGTH)) as [|Hge]; [done|].
      unfold fr1 in Hlk.
      rewrite (loop_other _ (markGreen_other guess)) in Hlk
        by (rewrite elem_of_seq; lia).
      apply lookup_replicate in Hlk. lia. }
    rewrite (Htiles1 i Hi) in Hlk. injection Hlk as <-.
    unfold firstPaint. destruct (guess !! i) as [a|]; simpl.
    + destruct (bool_decide (target !! i = Some a)); simpl;
        rewrite (bool_decide_eq_false_2 (_ = c))
          by (destruct Hc as [-> | ->]; done);
        by rewrite andb_false_r.
    + done. }
  assert (Hpos3 : (0 ≤ countOf (fr_counts fr3) letter)%Z).
  { rewrite Hc3. pose proof (exactFor_le letter target guess WORD_LENGTH). lia. }
  destruct (lastPass_yellow letter guess (seq 0 WORD_LENGTH) fr3) as [Hsum Hpos];
    [apply NoDup_seq| |done|].
  { intros i Hi. destruct (Hstart i Hi) as (t & ? & ? & ? & ?). eauto. }
  destruct (lastPass_account letter guess (seq 0 WORD_LENGTH) fr3)
    as [Hacc Hzero]; [apply NoDup_seq|done|done|].
  pose proof (Hnone Yellow (or_introl eq_refl)) as HY.
  pose proof (Hnone Gray (or_intror eq_refl)) as HG.
  rewrite Ht3 in Hacc.
  exists (countOf (fr_counts (foldl (markYellowGray guess) fr3 (seq 0 WORD_LENGTH)))
            letter).
  split; [done|]. split; [lia|]. split; [lia|]. apply Hzero. by left.
Qed.

(** ** The row of a guess *)

(** X1. For a guess of five letters, the row [processGuess] paints
    marks every letter green or yellow exactly as often as the letter
    occurs in both words (the smaller of its occurrences in the guess and
    in the target), and colours each of its other positions gray. *)
Theorem processGuess_exact_multiplicity (gs : GameState) (guess : jsstring)
    (letter : ascii) :
  length guess = WORD_LENGTH → guessCount gs < MAX_GUESSES →
  ∃ tiles,
    (processGuess gs guess).1.2 = Some tiles
    ∧ tagged Green letter tiles + tagged Yellow letter tiles
      = occurrences letter guess `min` occurrences letter (wordToGuess gs)
    ∧ tagged Green letter tiles + tagged Yellow letter tiles
      + tagged Gray letter tiles
      = occurrences letter guess.
Proof.
  intros Hlen Hrow. rewrite processGuess_found by done. cbn [fst snd].
  eexists. split; [reflexivity|].
  rewrite (runPasses_green letter (wordToGuess gs)) by done.
  destruct (runPasses_ledger letter (wordToGuess gs) guess gs eq_refl)
    as (left & Hleft & Hsum & Hacc & Hzero).
  pose proof (exact_nonExact_count letter (wordToGuess gs) guess Hlen).
  pose proof (exactFor_le letter (wordToGuess gs) guess WORD_LENGTH).
  split; lia.
Qed.

Lemma processGuess_exact_multiplicity_witness :
  length (str "EEEEL") = WORD_LENGTH
  ∧ guessCount (sampleState "LEVEL") < MAX_GUESSES
  ∧ ∃ tiles,
      (processGuess (sampleState "LEVEL") (str "EEEEL")).1.2 = Some tiles
      ∧ tagged Green "E" tiles + tagged Yellow "E" tiles
        = occurrences "E" (str "EEEEL")
          `min` occurrences "E" (wordToGuess (sampleState "LEVEL"))
      ∧ tagged Green "E" tiles + tagged Yellow "E" tiles + tagged Gray "E" tiles
        = occurrences "E" (str "EEEEL").
Proof.
  assert (H1 : length (str "EEEEL") = WORD_LENGTH) by reflexivity.
  assert (H2 : guessCount (sampleState "LEVEL") < MAX_GUESSES)
    by (vm_compute; lia).
  exact (conj H1 (conj H2
    (processGuess_exact_multiplicity (sampleState "LEVEL") (str "EEEEL") "E" H1 H2))).
Defined.

Lemma runPasses_tile_at gs guess i letter :
  guess !! i = Some letter → i < WORD_LENGTH →
  ∃ t, fr_tiles (runPasses guess (enterRow gs (replicate WORD_LENGTH blankTile))) !! i
       = Some t
       ∧ innerText t = Some letter
       ∧ (backgroundColor t = Green ↔ wordToGuess gs !! i = Some letter)
       ∧ (backgroundColor t = Yellow → letter ∈ wordToGuess gs)
       ∧ (letter ∉ wordToGuess gs → backgroundColor t = Gray)
       ∧ (backgroundColor t = Green ∨ backgroundColor t = Yellow
          ∨ backgroundColor t = Gray).
Proof.
  intros Hg Hi.
  destruct (runPasses_tile_in (wordToGuess gs) guess
              (enterRow gs (replicate WORD_LENGTH blankTile)) i blankTile)
    as (t & Hlk & Htext & Hpaint); [done|done|by apply lookup_replicate_2|].
  exists t. split; [done|].
  unfold firstPaint in *. rewrite Hg in *. cbn [innerText backgroundColor] in *.
  split; [done|].
  destruct (bool_decide_reflect (wordToGuess gs !! i = Some letter)) as [Hex|Hex].
  - subst t. cbn [backgroundColor]. repeat split; try done; auto.
    intros Hout. destruct Hout. apply list_elem_of_lookup. eauto.
  - destruct Hpaint as [[Hy Hin]|Hgray].
    + rewrite Hy. repeat split; try done; auto.
    + rewrite Hgray. repeat split; try done; auto.
Qed.

(** X2. For a guess of five letters, tile [i] of the row [processGuess]
    paints shows letter [i] of the guess; it is green exactly when the
    target has that letter at position [i], yellow only if the target has
    the letter somewhere, and gray whenever the target does not have the
    letter at all; no tile is left without one of the three colours. *)
Theorem processGuess_positions (gs : GameState) (guess : jsstring) :
  length guess = WORD_LENGTH → guessCount gs < MAX_GUESSES →
  ∃ tiles,
    (processGuess gs guess).1.2 = Some tiles
    ∧ ∀ i letter, guess !! i = Some letter →
        ∃ t, tiles !! i = Some t
             ∧ innerText t = Some letter
             ∧ (backgroundColor t = Green ↔ wordToGuess gs !! i = Some letter)
             ∧ (backgroundColor t = Yellow → letter ∈ wordToGuess gs)
             ∧ (letter ∉ wordToGuess gs → backgroundColor t = Gray)
             ∧ (backgroundColor t = Green ∨ backgroundColor t = Yellow
                ∨ backgroundColor t = Gray).
Proof.
  intros Hlen Hrow. rewrite processGuess_found by done. cbn [fst snd].
  eexists. split; [reflexivity|]. intros i letter Hg.
  apply runPasses_tile_at; [done|]. apply lookup_lt_Some in Hg. lia.
Qed.

Lemma processGuess_positions_witness :
  length (str "RANCH") = WORD_LENGTH
  ∧ guessCount (sampleState "CRANE") < MAX_GUESSES
  ∧ ∃ tiles,
      (processGuess (sampleState "CRANE") (str "RANCH")).1.2 = Some tiles
      ∧ ∀ i letter, str "RANCH" !! i = Some letter →
          ∃ t, tiles !! i = Some t
               ∧ innerText t = Some letter
               ∧ (backgroundColor t = Green
                  ↔ wordToGuess (sampleState "CRANE") !! i = Some letter)
               ∧ (backgroundColor t = Yellow
                  → letter ∈ wordToGuess (sampleState "CRANE"))
               ∧ (letter ∉ wordToGuess (sampleState "CRANE")
                  → backgroundColor t = Gray)
               ∧ (backgroundColor t = Green ∨ backgroundColor t = Yellow
                  ∨ backgroundColor t = Gray).
Proof.
  assert (H1 : length (str "RANCH") = WORD_LENGTH) by reflexivity.
  assert (H2 : guessCount (sampleState "CRANE") < MAX_GUESSES)
    by (vm_compute; lia).
  exact (conj H1 (conj H2
    (processGuess_positions (sampleState "CRANE") (str "RANCH") H1 H2))).
Defined.

(** ** The letter sets and the row *)

Lemma count_if_pos {A} (f : A → bool) (l : list A) :
  0 < count_if f l ↔ ∃ x, x ∈ l ∧ f x = true.
Proof.
  induction l as [|a l IH].
  - split; [unfold count_if; simpl; lia|]. intros (x & Hx & _).
    by apply elem_of_nil in Hx.
  - rewrite count_if_cons. split.
    + intros Hpos. destruct (f a) eqn:Hfa.
      * exists a. split; [by left|done].
      * simpl in Hpos. apply IH in Hpos as (x & Hx & Hfx).
        exists x. split; [by right|done].
    + intros (x & [->|Hx]%elem_of_cons & Hfx).
      * rewrite Hfx. simpl. lia.
      * assert (0 < count_if f l) by (apply IH; eauto). lia.
Qed.

Lemma shows_tagged c letter tiles :
  shows c letter tiles ↔ 0 < tagged c letter tiles.
Proof.
  unfold shows, tagged. rewrite count_if_pos. split.
  - intros (t & Hin & Htext & Hcol). exists t. split; [done|].
    by rewrite !bool_decide_eq_true_2.
  - intros (t & Hin & [Htext Hcol]%andb_true_iff). exists t.
    apply bool_decide_eq_true_1 in Htext, Hcol. done.
Qed.

Lemma markGreen_sets letter guess fr i :
  (letter ∈ greenLetters (fr_state (markGreen guess fr i))
   ↔ letter ∈ greenLetters (fr_state fr)
     ∨ exactFor letter (wordToGuess (fr_state fr)) guess i = true)
  ∧ yellowLetters (fr_state (markGreen guess fr i)) = yellowLetters (fr_state fr)
  ∧ grayLetters (fr_state (markGreen guess fr i)) = grayLetters (fr_state fr).
Proof.
  unfold markGreen, exactFor. destruct (guess !! i) as [c|] eqn:Hg.
  2:{ rewrite (bool_decide_eq_false_2 (None = Some letter)) by done.
      split; [|done]. cbn [andb]. naive_solver. }
  cbn [fr_state with_tiles].
  destruct (bool_decide_reflect (wordToGuess (fr_state fr) !! i = Some c)) as [Hex|Hex];
    cbn [fr_state with_tiles with_state with_correct addGreen greenLetters
         yellowLetters grayLetters set_greenLetters].
  - split; [|done]. rewrite elem_of_union, elem_of_singleton.
    destruct (decide (c = letter)) as [->|Hne].
    + rewrite !bool_decide_eq_true_2 by done. naive_solver.
    + rewrite (bool_decide_eq_false_2 (Some c = Some letter)) by congruence.
      cbn [andb]. naive_solver.
  - split; [|done].
    destruct (decide (c = letter)) as [->|Hne].
    + rewrite (bool_decide_eq_false_2 (wordToGuess (fr_state fr) !! i = Some letter))
        by done.
      rewrite andb_false_r. naive_solver.
    + rewrite (bool_decide_eq_false_2 (Some c = Some letter)) by congruence.
      cbn [andb]. naive_solver.
Qed.

Lemma firstPass_sets letter guess indices fr :
  (letter ∈ greenLetters (fr_state (foldl (markGreen guess) fr indices))
   ↔ letter ∈ greenLetters (fr_state fr)
     ∨ 0 < count_if (exactFor letter (wordToGuess (fr_state fr)) guess) indices)
  ∧ yellowLetters (fr_state (foldl (markGreen guess) fr indices))
    = yellowLetters (fr_state fr)
  ∧ grayLetters (fr_state (foldl (markGreen guess) fr indices))
    = grayLetters (fr_state fr).
Proof.
  revert fr. induction indices as [|i indices IH]; intros fr.
  - simpl. split; [|done]. unfold count_if. simpl. split; [auto|].
    intros [?|?]; [done|lia].
  - cbn [foldl]. destruct (IH (markGreen guess fr i)) as (Hg & Hy & Hr).
    destruct (markGreen_sets letter guess fr i) as (Hg1 & Hy1 & Hr1).
    rewrite (grows_word _ _ (markGreen_grows guess fr i)) in Hg.
    rewrite Hy, Hr, Hg, Hg1, count_if_cons. split; [|done].
    destruct (exactFor letter (wordToGuess (fr_state fr)) guess i); simpl.
    + split; [intros _|intros _; left]; right; lia.
    + split; intros [H|H]; auto. destruct H as [H|H]; [by left|done].
Qed.

(** A step of the last pass adds a letter to the yellow (gray) set
    exactly when it paints a tile of that letter yellow (gray). *)
Lemma markYellowGray_sets letter guess fr i t :
  fr_tiles fr !! i = Some t → innerText t = guess !! i →
  backgroundColor t ≠ Yellow → backgroundColor t ≠ Gray →
  ∃ dy dg : bool,
    tagged Yellow letter (fr_tiles (markYellowGray guess fr i))
    = tagged Yellow letter (fr_tiles fr) + Nat.b2n dy
    ∧ tagged Gray letter (fr_tiles (markYellowGray guess fr i))
      = tagged Gray letter (fr_tiles fr) + Nat.b2n dg
    ∧ (letter ∈ yellowLetters (fr_state (markYellowGray guess fr i))
       ↔ letter ∈ yellowLetters (fr_state fr) ∨ dy = true)
    ∧ (letter ∈ grayLetters (fr_state (markYellowGray guess fr i))
       ↔ letter ∈ grayLetters (fr_state fr) ∨ dg = true)
    ∧ greenLetters (fr_state (markYellowGray guess fr i))
      = greenLetters (fr_state fr).
Proof.
  intros Hlk Htext Hny Hng. unfold markYellowGray.
  destruct (guess !! i) as [c|] eqn:Hg.
  2:{ exists false, false. simpl. repeat split; try lia; naive_solver. }
  destruct (bool_decide_reflect (wordToGuess (fr_state fr) !! i = Some c)) as [Hex|Hex].
  { exists false, false. simpl. repeat split; try lia; naive_solver. }
  pose proof (count_if_alter
    (λ t, bool_decide (innerText t = Some letter)
          && bool_decide (backgroundColor t = Yellow))) as HY.
  pose proof (count_if_alter
    (λ t, bool_decide (innerText t = Some letter)
          && bool_decide (backgroundColor t = Gray))) as HG.
  assert (HoldY : bool_decide (backgroundColor t = Yellow) = false)
    by by apply bool_decide_eq_false_2.
  assert (HoldG : bool_decide (backgroundColor t = Gray) = false)
    by by apply bool_decide_eq_false_2.
  unfold tagged.
  destruct (Z.ltb_spec 0 (countOf (fr_counts fr) c)) as [Hc|Hc];
    cbn [fr_tiles fr_state with_counts with_state with_tiles addYellow addGray
         greenLetters yellowLetters grayLetters set_yellowLetters set_grayLetters].
  - specialize (HY (setColor Yellow) _ _ _ Hlk).
    specialize (HG (setColor Yellow) _ _ _ Hlk). cbn beta in HY, HG.
    rewrite HoldY, andb_false_r in HY. rewrite HoldG, andb_false_r in HG.
    cbn [setColor innerText backgroundColor] in HY, HG.
    rewrite (bool_decide_eq_true_2 (Yellow = Yellow)), andb_true_r in HY by done.
    rewrite (bool_decide_eq_false_2 (Yellow = Gray)), andb_false_r in HG by done.
    rewrite Htext in HY. cbn [Nat.b2n] in HY, HG.
    exists (bool_decide (Some c = Some letter)), false.
    split; [lia|]. split; [simpl; lia|]. split; [|split; [naive_solver|done]].
    rewrite elem_of_union, elem_of_singleton.
    destruct (bool_decide_reflect (Some c = Some letter)) as [[= ->]|Hne];
      naive_solver.
  - specialize (HY (setColor Gray) _ _ _ Hlk).
    specialize (HG (setColor Gray) _ _ _ Hlk). cbn beta in HY, HG.
    rewrite HoldY, andb_false_r in HY. rewrite HoldG, andb_false_r in HG.
    cbn [setColor innerText backgroundColor] in HY, HG.
    rewrite (bool_decide_eq_false_2 (Gray = Yellow)), andb_false_r in HY by done.
    rewrite (bool_decide_eq_true_2 (Gray = Gray)), andb_true_r in HG by done.
    rewrite Htext in HG. cbn [Nat.b2n] in HY, HG.
    exists false, (bool_decide (Some c = Some letter)).
    split; [simpl; lia|]. split; [lia|]. split; [naive_solver|]. split; [|done].
    rewrite elem_of_union, elem_of_singleton.
    destruct (bool_decide_reflect (Some c = Some letter)) as [[= ->]|Hne];
      naive_solver.
Qed.

Lemma lastPass_sets letter guess indices fr :
  NoDup indices →
  (∀ i, i ∈ indices →
     ∃ t, fr_tiles fr !! i = Some t ∧ innerText t = guess !! i
          ∧ backgroundColor t ≠ Yellow ∧ backgroundColor t ≠ Gray) →
  tagged Yellow letter (fr_tiles fr)
  ≤ tagged Yellow letter (fr_tiles (foldl (markYellowGray guess) fr indices))
  ∧ tagged Gray letter (fr_tiles fr)
    ≤ tagged Gray letter (fr_tiles (foldl (markYellowGray guess) fr indices))
  ∧ (letter ∈ yellowLetters (fr_state (foldl (markYellowGray guess) fr indices))
     ↔ letter ∈ yellowLetters (fr_state fr)
       ∨ tagged Yellow letter (fr_tiles fr)
         < tagged Yellow letter (fr_tiles (foldl (markYellowGray guess) fr indices)))
  ∧ (letter ∈ grayLetters (fr_state (foldl (markYellowGray guess) fr indices))
     ↔ letter ∈ grayLetters (fr_state fr)
       ∨ tagged Gray letter (fr_tiles fr)
         < tagged Gray letter (fr_tiles (foldl (markYellowGray guess) fr indices)))
  ∧ greenLetters (fr_state (foldl (markYellowGray guess) fr indices))
    = greenLetters (fr_state fr).
Proof.
  revert fr. induction indices as [|i indices IH]; intros fr Hnd Htiles.
  - simpl. repeat split; try lia; try naive_solver.
    all: intros [?|?]; [done|lia].
  - apply NoDup_cons in Hnd as [Hi Hnd].
    destruct (Htiles i) as (t & Hlk & Htext & Hny & Hng); [by left|].
    destruct (markYellowGray_sets letter guess fr i t Hlk Htext Hny Hng)
      as (dy & dg & HY & HG & Hys & Hgs & Hgreen).
    destruct (IH (markYellowGray guess fr i)) as (H1 & H2 & H3 & H4 & H5); [done| |].
    { intros j Hj. rewrite markYellowGray_other by (intros ->; contradiction).
      apply Htiles. by right. }
    cbn [foldl]. rewrite H3, H4, H5, Hys, Hgs, Hgreen.
    split; [lia|]. split; [lia|]. split; [|split; [|done]].
    + destruct dy; simpl in *.
      * split; [intros _; right; lia|intros _; left; by right].
      * split; [intros [[H|H]|H]; [by left|done|right; lia]
               |intros [H|H]; [left; by left|right; lia]].
    + destruct dg; simpl in *.
      * split; [intros _; right; lia|intros _; left; by right].
      * split; [intros [[H|H]|H]; [by left|done|right; lia]
               |intros [H|H]; [left; by left|right; lia]].
Qed.

Lemma runPasses_split guess fr :
  runPasses guess fr
  = foldl (markYellowGray guess) (beforeLastPass guess fr) (seq 0 WORD_LENGTH).
Proof. reflexivity. Qed.

(** What the last pass finds when the row was blank. *)
Lemma beforeLastPass_blank target guess gs letter :
  wordToGuess gs = target →
  let fr3 := beforeLastPass guess (enterRow gs (replicate WORD_LENGTH blankTile)) in
  wordToGuess (fr_state fr3) = target
  ∧ (∀ i, i ∈ seq 0 WORD_LENGTH →
       ∃ t, fr_tiles fr3 !! i = Some t ∧ innerText t = guess !! i
            ∧ backgroundColor t ≠ Yellow ∧ backgroundColor t ≠ Gray)
  ∧ tagged Yellow letter (fr_tiles fr3) = 0
  ∧ tagged Gray letter (fr_tiles fr3) = 0
  ∧ (letter ∈ greenLetters (fr_state fr3)
     ↔ letter ∈ greenLetters gs
       ∨ 0 < count_if (exactFor letter target guess) (seq 0 WORD_LENGTH))
  ∧ yellowLetters (fr_state fr3) = yellowLetters gs
  ∧ grayLetters (fr_state fr3) = grayLetters gs.
Proof.
  intros Ht fr3. unfold fr3, beforeLastPass.
  set (fr0 := enterRow gs (replicate WORD_LENGTH blankTile)).
  set (fr1 := foldl (markGreen guess) fr0 (seq 0 WORD_LENGTH)).
  assert (Ht1 : wordToGuess (fr_state fr1) = target).
  { by apply (loop_target _ _ (markGreen_grows guess)). }
  assert (Htiles1 : ∀ i, i ∈ seq 0 WORD_LENGTH →
            fr_tiles fr1 !! i = Some (firstPaint target guess i blankTile)).
  { intros i Hi.
    destruct (loop_at (markGreen guess) target
                (λ i t t', t' = firstPaint target guess i t)
                (markGreen_grows guess) (markGreen_other guess)
                (markGreen_at target guess)
                fr0 (seq 0 WORD_LENGTH) i blankTile Ht (NoDup_seq _ _) Hi)
      as (t1 & Hlk1 & ->); [|done].
    apply elem_of_seq in Hi. apply lookup_replicate_2. lia. }
  assert (Hnone : ∀ c, c = Yellow ∨ c = Gray → tagged c letter (fr_tiles fr1) = 0).
  { intros c Hc. apply count_if_false. intros t Hin.
    apply list_elem_of_lookup in Hin as [i Hlk].
    assert (Hi : i ∈ seq 0 WORD_LENGTH).
    { apply elem_of_seq. split; [lia|].
      destruct (decide (i < 0 + WORD_LENGTH)) as [|Hge]; [done|].
      unfold fr1 in Hlk.
      rewrite (loop_other _ (markGreen_other guess)) in Hlk
        by (rewrite elem_of_seq; lia).
      apply lookup_replicate in Hlk. lia. }
    rewrite (Htiles1 i Hi) in Hlk. injection Hlk as <-.
    unfold firstPaint. destruct (guess !! i) as [a|]; simpl; [|done].
    destruct (bool_decide (target !! i = Some a)); simpl;
      rewrite (bool_decide_eq_false_2 (_ = c))
        by (destruct Hc as [-> | ->]; done);
      by rewrite andb_false_r. }
  rewrite deductPass_state, deductPass_tiles.
  cbn [fr_state fr_tiles with_counts].
  destruct (firstPass_sets letter guess (seq 0 WORD_LENGTH) fr0) as (Hg & Hy & Hr).
  fold fr1 in Hg, Hy, Hr. cbn [fr0 enterRow fr_state] in Hg, Hy, Hr.
  rewrite Ht in Hg.
  split; [done|]. split.
  { intros i Hi. exists (firstPaint target guess i blankTile).
    split; [by apply Htiles1|].
    unfold firstPaint. destruct (guess !! i) as [c|]; simpl; [|done].
    split; [done|]. by destruct (bool_decide _). }
  split; [apply Hnone; by left|]. split; [apply Hnone; by right|]. done.
Qed.

(** The three sets learn what the row shows and nothing else. *)
Lemma processGuess_sets gs guess letter :
  guessCount gs < MAX_GUESSES →
  ∃ tiles,
    (processGuess gs guess).1.2 = Some tiles
    ∧ (letter ∈ greenLetters (processGuess gs guess).1.1
       ↔ letter ∈ greenLetters gs ∨ shows Green letter tiles)
    ∧ (letter ∈ yellowLetters (processGuess gs guess).1.1
       ↔ letter ∈ yellowLetters gs ∨ shows Yellow letter tiles)
    ∧ (letter ∈ grayLetters (processGuess gs guess).1.1
       ↔ letter ∈ grayLetters gs ∨ shows Gray letter tiles).
Proof.
  intros Hrow. rewrite processGuess_found by done. cbn [fst snd].
  eexists. split; [reflexivity|]. rewrite !shows_tagged.
  rewrite (runPasses_green letter (wordToGuess gs)) by done.
  rewrite runPasses_split.
  destruct (beforeLastPass_blank (wordToGuess gs) guess gs letter eq_refl)
    as (Ht & Hstart & HY & HG & Hgreen & Hyellow & Hgray).
  destruct (lastPass_sets letter guess (seq 0 WORD_LENGTH)
              (beforeLastPass guess (enterRow gs (replicate WORD_LENGTH blankTile))))
    as (_ & _ & Hy & Hr & Hg); [apply NoDup_seq|done|].
  rewrite Hg, Hy, Hr, Hgreen, Hyellow, Hgray, HY, HG. done.
Qed.

(** X3. After [processGuess] has painted the row of a guess, a letter is
    in [greenLetters] exactly if it was there before or the row shows it
    on green, and likewise for [yellowLetters] and [grayLetters]: the
    three sets learn what the row shows and nothing else. *)
Theorem processGuess_letters (gs : GameState) (guess : jsstring) (letter : ascii) :
  guessCount gs < MAX_GUESSES →
  ∃ tiles,
    (processGuess gs guess).1.2 = Some tiles
    ∧ (letter ∈ greenLetters (processGuess gs guess).1.1
       ↔ letter ∈ greenLetters gs ∨ shows Green letter tiles)
    ∧ (letter ∈ yellowLetters (processGuess gs guess).1.1
       ↔ letter ∈ yellowLetters gs ∨ shows Yellow letter tiles)
    ∧ (letter ∈ grayLetters (processGuess gs guess).1.1
       ↔ letter ∈ grayLetters gs ∨ shows Gray letter tiles).
Proof. apply processGuess_sets. Qed.

Lemma processGuess_letters_witness :
  guessCount (sampleState "LEVEL") < MAX_GUESSES
  ∧ ∃ tiles,
      (processGuess (sampleState "LEVEL") (str "ELBOW")).1.2 = Some tiles
      ∧ ("E"%char ∈ greenLetters (processGuess (sampleState "LEVEL") (str "ELBOW")).1.1
         ↔ "E"%char ∈ greenLetters (sampleState "LEVEL") ∨ shows Green "E" tiles)
      ∧ ("E"%char ∈ yellowLetters (processGuess (sampleState "LEVEL") (str "ELBOW")).1.1
         ↔ "E"%char ∈ yellowLetters (sampleState "LEVEL") ∨ shows Yellow "E" tiles)
      ∧ ("E"%char ∈ grayLetters (processGuess (sampleState "LEVEL") (str "ELBOW")).1.1
         ↔ "E"%char ∈ grayLetters (sampleState "LEVEL") ∨ shows Gray "E" tiles).
Proof.
  assert (H1 : guessCount (sampleState "LEVEL") < MAX_GUESSES)
    by (vm_compute; lia).
  exact (conj H1
    (processGuess_letters (sampleState "LEVEL") (str "ELBOW") "E" H1)).
Defined.

(** ** The keyboard and the target *)

Lemma occurrences_pos letter word : 0 < occurrences letter word ↔ letter ∈ word.
Proof.
  unfold occurrences. rewrite count_if_pos. split.
  - intros (c & Hin & ->%bool_decide_eq_true_1). done.
  - intros Hin. exists letter. split; [done|]. by apply bool_decide_eq_true_2.
Qed.

(** What a blank row shows after the passes, against the target. *)
Lemma runPasses_shows letter target guess gs :
  wordToGuess gs = target →
  let tiles := fr_tiles (runPasses guess
                 (enterRow gs (replicate WORD_LENGTH blankTile))) in
  (shows Green letter tiles → letter ∈ target)
  ∧ (shows Yellow letter tiles → letter ∈ target)
  ∧ (shows Gray letter tiles → letter ∈ target →
     shows Green letter tiles ∨ shows Yellow letter tiles).
Proof.
  intros Ht tiles. split; [|split].
  - rewrite shows_tagged. unfold tiles.
    rewrite (runPasses_green letter target) by done.
    intros (i & _ & [_ Hex%bool_decide_eq_true_1]%andb_true_iff)%count_if_pos.
    apply list_elem_of_lookup. eauto.
  - intros (t & Hin & Htext & Hcol).
    apply list_elem_of_lookup in Hin as [i Hlk].
    assert (Hi : i < WORD_LENGTH).
    { apply lookup_lt_Some in Hlk. unfold tiles in Hlk.
      by rewrite runPasses_length in Hlk. }
    destruct (runPasses_tile_in target guess
                (enterRow gs (replicate WORD_LENGTH blankTile)) i blankTile)
      as (t' & Hlk' & Htext' & Hpaint); [done|done|by apply lookup_replicate_2|].
    unfold tiles in Hlk. rewrite Hlk in Hlk'. injection Hlk' as <-.
    unfold firstPaint in *. destruct (guess !! i) as [c|].
    + cbn [innerText backgroundColor] in *.
      assert (c = letter) as -> by congruence.
      destruct (bool_decide (target !! i = Some letter)).
      * subst t. done.
      * destruct Hpaint as [[_ Hin]|Hgray]; [done|congruence].
    + subst t. done.
  - rewrite !shows_tagged. intros Hgray Hin%occurrences_pos.
    destruct (runPasses_ledger letter target guess gs Ht)
      as (left & Hleft & Hsum & Hacc & Hzero).
    fold tiles in Hsum, Hacc, Hzero.
    unfold tiles at 1. rewrite (runPasses_green letter target) by done.
    destruct Hzero as [Hz|Hz]; lia.
Qed.

Lemma processGuess_sound gs guess :
  keyboardSound gs → keyboardSound (processGuess gs guess).1.1.
Proof.
  intros (Hg & Hy & Hr).
  destruct (decide (guessCount gs < MAX_GUESSES)) as [Hrow|Hrow].
  2:{ unfold processGuess, boardRow.
      by rewrite (proj2 (Nat.ltb_ge _ _)) by lia. }
  pose proof (processGuess_grows gs guess) as Hgrows.
  unfold keyboardSound. rewrite (grows_word _ _ Hgrows).
  split; [|split]; intros letter;
    destruct (processGuess_sets gs guess letter Hrow)
      as (tiles & Htiles & Hgreen & Hyellow & Hgray);
    destruct (runPasses_shows letter (wordToGuess gs) guess gs eq_refl)
      as (Sg & Sy & Sr);
    rewrite processGuess_found in Htiles by done; cbn [fst snd] in Htiles;
    injection Htiles as <-;
    rewrite ?Hgreen, ?Hyellow, ?Hgray.
  - intros [H|H]; auto.
  - intros [H|H]; auto.
  - intros [H|H] Hin.
    + destruct (Hr letter H Hin); auto.
    + destruct (Sr H Hin); auto.
Qed.

(** ** The two ways a call of makeGuess goes *)

Lemma makeGuess_cases gs input :
  (∃ a, makeGuess gs input = (gs, Rejected a)
        ∧ (a = AlertMaxGuesses →
           gameOver gs = false ∧ MAX_GUESSES ≤ guessCount gs))
  ∨ (gameOver gs = false ∧ guessCount gs < MAX_GUESSES
     ∧ validGuess gs input = true
     ∧ ∃ gs1 tiles correct,
         grows gs gs1
         ∧ processGuess gs (toUpperCase input) = (gs1, Some tiles, correct)
         ∧ makeGuess gs input
           = let gs2 := set_guessCount (guessCount gs + 1) gs1 in
             if correct
             then ((handleWin gs2).1, Played (Some tiles) (Some (handleWin gs2).2))
             else if MAX_GUESSES <=? guessCount gs + 1
             then ((handleLoss gs2).1, Played (Some tiles) (Some (handleLoss gs2).2))
             else (gs2, Played (Some tiles) None)).
Proof.
  unfold makeGuess, validGuess.
  destruct (gameOver gs) eqn:Hover; [left; eexists; split; [done|done]|].
  destruct (Nat.leb_spec MAX_GUESSES (guessCount gs)) as [Hmax|Hmax];
    [left; eexists; split; [done|done]|].
  cbn zeta.
  destruct (length (toUpperCase input) =? WORD_LENGTH) eqn:Hlen; cbn [negb andb];
    [|left; eexists; split; [done|done]].
  destruct (matchesAZ (toUpperCase input)) eqn:Hm; cbn [negb andb];
    [|left; eexists; split; [done|done]].
  destruct (includes (validWords gs) (toUpperCase input)) eqn:Hin; cbn [negb];
    [|left; eexists; split; [done|done]].
  right. split; [done|]. split; [done|]. split; [done|].
  pose proof (processGuess_grows gs (toUpperCase input)) as Hgrows.
  destruct (processGuess_row gs (toUpperCase input) Hmax) as [tiles Hrow].
  destruct (processGuess gs (toUpperCase input)) as [[gs1 row] correct].
  cbn [fst snd] in *. subst row.
  exists gs1, tiles, correct. split; [done|]. split; [done|].
  cbn [guessCount set_guessCount]. rewrite (grows_count _ _ Hgrows).
  destruct correct; [done|]. by destruct (MAX_GUESSES <=? guessCount gs + 1).
Qed.

(** ** The bounds every operation keeps *)

Lemma steady_loaded p s : steady (loadedState p s).
Proof.
  repeat split; simpl; try (unfold MAX_GUESSES; lia).
  - intros _. simpl. unfold MAX_GUESSES. lia.
  - apply NoDup_nil_2.
  - intros i Hi. by apply elem_of_nil in Hi.
Qed.

Lemma steady_makeGuess gs input : steady gs → steady (makeGuess gs input).1.
Proof.
  intros (Hleft & Hcount & Hnd & Hlt).
  split; [by apply guessesLeft_makeGuess|].
  rewrite makeGuess_hints. split; [|done].
  destruct (makeGuess_cases gs input)
    as [(a & -> & _)|(_ & Hmax & _ & gs1 & tiles & correct & Hgrows & _ & ->)];
    [done|].
  cbn zeta. destruct correct; [cbn; lia|].
  destruct (MAX_GUESSES <=? guessCount gs + 1); cbn; lia.
Qed.

Lemma steady_buyHint gs r : steady gs → steady (buyHint gs r).1.
Proof.
  intros (Hleft & Hcount & Hnd & Hlt).
  split; [by apply guessesLeft_buyHint|].
  destruct (revealed_buyHint gs r Hnd Hlt) as [Hnd' Hlt'].
  split; [|done].
  by destruct (buyHint_cases gs r) as [[a ->]|(index & _ & _ & _ & -> & _)].
Qed.

Lemma steady_newGame gs r : steady (newGame gs r).
Proof.
  split; [apply guessesLeft_newGame|].
  unfold newGame. destruct (validWords _); cbn;
    (split; [lia|]); (split; [apply NoDup_nil_2|]);
    intros i Hi; by apply elem_of_nil in Hi.
Qed.

Lemma steady_fetchWordList gs response r :
  steady gs → steady (fetchWordList gs response r).1.
Proof.
  intros (Hleft & Hcount & Hnd & Hlt).
  split; [by apply guessesLeft_fetchWordList|].
  unfold fetchWordList. destruct response as [data|]; [|done].
  by destruct (parseWordList data).
Qed.

Lemma steady_exec gs c : steady gs → steady (exec gs c).1.
Proof.
  intros Hs. destruct c as [[input|r]|r]; cbn [exec act].
  - pose proof (steady_makeGuess gs input Hs). by destruct (makeGuess gs input).
  - pose proof (steady_buyHint gs r Hs). by destruct (buyHint gs r).
  - apply steady_newGame.
Qed.

Lemma steady_run gs commands : steady gs → steady (run gs commands).1.
Proof.
  revert gs. induction commands as [|c commands IH]; intros gs Hs; [done|].
  cbn [run]. pose proof (steady_exec gs c Hs) as Hs1.
  destruct (exec gs c) as [gs1 s]. specialize (IH gs1 Hs1).
  by destruct (run gs1 commands).
Qed.

Lemma steady_session p s before response r after :
  steady (session p s before response r after).
Proof.
  unfold session. apply steady_run, steady_fetchWordList, steady_run, steady_loaded.
Qed.

Lemma distinct_positions (l : list nat) :
  NoDup l → (∀ i, i ∈ l → i < WORD_LENGTH) → length l ≤ WORD_LENGTH.
Proof.
  intros Hnd Hlt.
  assert (Hsub : l ⊆+ seq 0 WORD_LENGTH).
  { apply NoDup_submseteq; [done|]. intros j Hj. apply elem_of_seq.
    specialize (Hlt j Hj). lia. }
  apply submseteq_length in Hsub. by rewrite length_seq in Hsub.
Qed.

(** X4. In every state of a session (saved numbers loaded, any commands
    before and after the word list comes back): the guess count is at
    most [MAX_GUESSES], the revealed indices are at most [WORD_LENGTH]
    distinct positions, [makeGuess] never shows "You've reached the
    maximum number of guesses." and always finds the row it paints, and
    [buyHint] never fails on a missing row. *)
Theorem session_never (p s : Z) (before : list Command)
    (response : option jsstring) (r : Random) (after : list Command) :
  guessCount (session p s before response r after) ≤ MAX_GUESSES
  ∧ NoDup (revealedHintIndices (session p s before response r after))
  ∧ length (revealedHintIndices (session p s before response r after))
    ≤ WORD_LENGTH
  ∧ (∀ input,
       (makeGuess (session p s before response r after) input).2
       ≠ Rejected AlertMaxGuesses
       ∧ ∀ ending,
           (makeGuess (session p s before response r after) input).2
           ≠ Played None ending)
  ∧ (∀ r',
       (buyHint (session p s before response r after) r').2 ≠ HintTypeError).
Proof.
  destruct (steady_session p s before response r after)
    as (Hleft & Hcount & Hnd & Hlt).
  set (gs := session p s before response r after) in *.
  split; [done|]. split; [done|]. split; [by apply distinct_positions|]. split.
  - intros input.
    destruct (makeGuess_cases gs input)
      as [(a & -> & Hmax)|(_ & _ & _ & gs1 & tiles & correct & _ & _ & ->)].
    + split; [|done]. intros [= ->]. destruct Hmax as [Hover Hmax]; [done|].
      specialize (Hleft Hover). lia.
    + cbn zeta. destruct correct; [done|].
      by destruct (MAX_GUESSES <=? guessCount gs + 1).
  - intros r'.
    destruct (buyHint_cases gs r')
      as [[a ->]|(index & Hover & _ & _ & _ & ->)]; [done|].
    by rewrite (proj2 (Nat.ltb_lt _ _) (Hleft Hover)).
Qed.

(** ** Points and streak over a session *)

Lemma makeGuess_nonneg gs input :
  ((0 ≤ points gs)%Z → (0 ≤ points (makeGuess gs input).1)%Z)
  ∧ ((0 ≤ streak gs)%Z → (0 ≤ streak (makeGuess gs input).1)%Z).
Proof.
  destruct (makeGuess_cases gs input)
    as [(a & -> & _)|(_ & _ & _ & gs1 & tiles & correct & [] & _ & ->)]; [done|].
  cbn zeta. unfold handleWin, handleLoss, pointsAwarded.
  destruct correct.
  - cbn. destruct (guessCount gs + 1 <=? 2); split; lia.
  - destruct (MAX_GUESSES <=? guessCount gs + 1); cbn; split; lia.
Qed.

Lemma buyHint_nonneg gs r :
  ((0 ≤ points gs)%Z → (0 ≤ points (buyHint gs r).1)%Z)
  ∧ streak (buyHint gs r).1 = streak gs.
Proof.
  destruct (buyHint_cases gs r) as [[a ->]|(index & _ & Hp & _ & -> & _)]; [done|].
  cbn. split; [lia|done].
Qed.

Lemma newGame_numbers gs r :
  points (newGame gs r) = points gs ∧ streak (newGame gs r) = streak gs.
Proof. unfold newGame. by destruct (validWords _). Qed.

Lemma fetchWordList_numbers gs response r :
  points (fetchWordList gs response r).1 = points gs
  ∧ streak (fetchWordList gs response r).1 = streak gs.
Proof.
  unfold fetchWordList. destruct response as [data|]; [|done].
  by destruct (parseWordList data).
Qed.

Lemma run_nonneg gs commands :
  (0 ≤ points gs)%Z → (0 ≤ streak gs)%Z →
  (0 ≤ points (run gs commands).1)%Z ∧ (0 ≤ streak (run gs commands).1)%Z.
Proof.
  revert gs. induction commands as [|c commands IH]; intros gs Hp Hs; [done|].
  cbn [run].
  assert (H1 : (0 ≤ points (exec gs c).1)%Z ∧ (0 ≤ streak (exec gs c).1)%Z).
  { destruct c as [[input|r]|r]; cbn [exec act].
    - destruct (makeGuess_nonneg gs input) as [H1 H2].
      destruct (makeGuess gs input). simpl in *. auto.
    - destruct (buyHint_nonneg gs r) as [H1 H2].
      destruct (buyHint gs r). simpl in *. rewrite H2. auto.
    - cbn [fst]. destruct (newGame_numbers gs r) as [-> ->]. done. }
  destruct (exec gs c) as [gs1 s]. destruct H1 as [H1 H2].
  specialize (IH gs1 H1 H2). by destruct (run gs1 commands).
Qed.

(** X5. In a session that starts from saved points and a saved streak
    that are not negative, neither the points nor the streak is ever
    negative: a hint is only sold for points the player has. *)
Theorem session_nonneg (p s : Z) (before : list Command)
    (response : option jsstring) (r : Random) (after : list Command) :
  (0 ≤ p)%Z → (0 ≤ s)%Z →
  (0 ≤ points (session p s before response r after))%Z
  ∧ (0 ≤ streak (session p s before response r after))%Z.
Proof.
  intros Hp Hs. unfold session.
  destruct (run_nonneg (loadedState p s) before Hp Hs) as [H1 H2].
  destruct (fetchWordList_numbers (run (loadedState p s) before).1 response r)
    as [E1 E2].
  apply run_nonneg; by rewrite ?E1, ?E2.
Qed.

Lemma session_nonneg_witness :
  (0 ≤ 7)%Z ∧ (0 ≤ 0)%Z
  ∧ (0 ≤ points (session 7 0 [Act (Hint oneThird)] (Some sampleText) oneThird
                   [Act (Hint oneThird); Act (Guess (str "crane"))]))%Z
  ∧ (0 ≤ streak (session 7 0 [Act (Hint oneThird)] (Some sampleText) oneThird
                   [Act (Hint oneThird); Act (Guess (str "crane"))]))%Z.
Proof.
  assert (H1 : (0 ≤ 7)%Z) by lia. assert (H2 : (0 ≤ 0)%Z) by lia.
  exact (conj H1 (conj H2
    (session_nonneg 7 0 [Act (Hint oneThird)] (Some sampleText) oneThird
       [Act (Hint oneThird); Act (Guess (str "crane"))] H1 H2))).
Defined.

(** ** The points of a run *)







(** ** The keyboard over a session *)

Lemma keyboardSound_empty gs :
  greenLetters gs = ∅ → yellowLetters gs = ∅ → grayLetters gs = ∅ →
  keyboardSound gs.
Proof. intros Hg Hy Hr. unfold keyboardSound. rewrite Hg, Hy, Hr. set_solver. Qed.

Lemma keyboardSound_makeGuess gs input :
  keyboardSound gs → keyboardSound (makeGuess gs input).1.
Proof.
  intros Hk.
  destruct (makeGuess_cases gs input)
    as [(a & -> & _)|(_ & _ & _ & gs1 & tiles & correct & _ & Hproc & ->)]; [done|].
  pose proof (processGuess_sound gs (toUpperCase input) Hk) as Hk1.
  rewrite Hproc in Hk1. cbn [fst] in Hk1.
  cbn zeta. destruct correct; [done|].
  by destruct (MAX_GUESSES <=? guessCount gs + 1).
Qed.

Lemma keyboardSound_buyHint gs r :
  keyboardSound gs → keyboardSound (buyHint gs r).1.
Proof.
  intros Hk.
  by destruct (buyHint_cases gs r) as [[a ->]|(index & _ & _ & _ & -> & _)].
Qed.

Lemma keyboardSound_newGame gs r : keyboardSound (newGame gs r).
Proof.
  apply keyboardSound_empty; unfold newGame; by destruct (validWords _).
Qed.

Lemma keyboardSound_run gs commands :
  keyboardSound gs → keyboardSound (run gs commands).1.
Proof.
  revert gs. induction commands as [|c commands IH]; intros gs Hk; [done|].
  cbn [run].
  assert (Hk1 : keyboardSound (exec gs c).1).
  { destruct c as [[input|r]|r]; cbn [exec act].
    - pose proof (keyboardSound_makeGuess gs input Hk).
      by destruct (makeGuess gs input).
    - pose proof (keyboardSound_buyHint gs r Hk). by destruct (buyHint gs r).
    - apply keyboardSound_newGame. }
  destruct (exec gs c) as [gs1 s]. specialize (IH gs1 Hk1).
  by destruct (run gs1 commands).
Qed.

(** Before the word list is there no guess is accepted: the list stays
    empty, and so do the letter sets. *)
Lemma makeGuess_unloaded gs input :
  validWords gs = [] → ∃ a, makeGuess gs input = (gs, Rejected a).
Proof.
  intros Hnone.
  destruct (makeGuess_cases gs input)
    as [(a & -> & _)|(_ & _ & Hvalid & _)]; [eauto|].
  unfold validGuess, includes in Hvalid. rewrite Hnone in Hvalid.
  apply andb_true_iff in Hvalid as [_ Hin%bool_decide_eq_true_1].
  by apply elem_of_nil in Hin.
Qed.

Lemma run_unloaded gs commands :
  validWords gs = [] →
  greenLetters gs = ∅ → yellowLetters gs = ∅ → grayLetters gs = ∅ →
  gameOver gs = false → guessCount gs = 0 →
  validWords (run gs commands).1 = []
  ∧ wordToGuess (run gs commands).1 = wordToGuess gs
  ∧ greenLetters (run gs commands).1 = ∅
  ∧ yellowLetters (run gs commands).1 = ∅
  ∧ grayLetters (run gs commands).1 = ∅
  ∧ gameOver (run gs commands).1 = false
  ∧ guessCount (run gs commands).1 = 0.
Proof.
  revert gs. induction commands as [|c commands IH];
    intros gs Hnone Hg Hy Hr Hover Hcount; [done|].
  cbn [run].
  assert (H1 : validWords (exec gs c).1 = []
               ∧ wordToGuess (exec gs c).1 = wordToGuess gs
               ∧ greenLetters (exec gs c).1 = ∅
               ∧ yellowLetters (exec gs c).1 = ∅
               ∧ grayLetters (exec gs c).1 = ∅
               ∧ gameOver (exec gs c).1 = false
               ∧ guessCount (exec gs c).1 = 0).
  { destruct c as [[input|r]|r]; cbn [exec act].
    - destruct (makeGuess_unloaded gs input Hnone) as [a ->]. done.
    - destruct (buyHint_cases gs r) as [[a ->]|(index & _ & _ & _ & Hst & _)];
        [done|].
      destruct (buyHint gs r) as [gs1 o]. cbn [fst] in *. by subst gs1.
    - cbn [fst]. unfold newGame.
      cbn [validWords set_guessCount set_greenLetters set_yellowLetters
           set_grayLetters set_revealedHintIndices set_gameOver].
      by rewrite Hnone. }
  destruct (exec gs c) as [gs1 s]. cbn [fst] in H1.
  destruct H1 as (E1 & E2 & E3 & E4 & E5 & E6 & E7).
  destruct (IH gs1 E1 E3 E4 E5 E6 E7) as (F1 & F2 & F3 & F4 & F5 & F6 & F7).
  destruct (run gs1 commands). cbn [fst] in *.
  by rewrite F2, E2.
Qed.

(** The state right after the word list has come back. *)
Lemma session_start p s before response r :
  let gs := (fetchWordList (run (loadedState p s) before).1 response r).1 in
  wellFormed gs ∧ keyboardSound gs
  ∧ length (wordToGuess gs) = WORD_LENGTH
  ∧ (validWords gs = [] →
     wordToGuess gs = str "APPLE" ∧ gameOver gs = false ∧ guessCount gs = 0
     ∧ greenLetters gs = ∅ ∧ yellowLetters gs = ∅ ∧ grayLetters gs = ∅).
Proof.
  destruct (run_unloaded (loadedState p s) before)
    as (E1 & E2 & E3 & E4 & E5 & E6 & E7); try done.
  set (gs0 := (run (loadedState p s) before).1) in *.
  intros gs.
  assert (Hwf : wellFormed gs) by by apply wellFormed_fetchWordList.
  assert (Hsets : greenLetters gs = ∅ ∧ yellowLetters gs = ∅ ∧ grayLetters gs = ∅
                  ∧ gameOver gs = false ∧ guessCount gs = 0).
  { unfold gs, fetchWordList. destruct response as [data|]; [|done].
    by destruct (parseWordList data). }
  destruct Hsets as (G1 & G2 & G3 & G4 & G5).
  split; [done|]. split; [by apply keyboardSound_empty|]. split.
  - unfold gs, fetchWordList in *. destruct response as [data|]; [|done].
    destruct (parseWordList data) as [|first rest] eqn:Hparse; [done|].
    apply wellFormed_target in Hwf; [done|]. cbn. done.
  - intros Hnone. split; [|done].
    unfold gs, fetchWordList in *. destruct response as [data|]; [|done].
    by destruct (parseWordList data).
Qed.

(** X7. In every state of a session the keyboard tells the truth about
    the target: a key [createKey] makes green or yellow is a letter of
    the target, and a key it makes gray is not. *)
Theorem session_keyboard (p s : Z) (before : list Command)
    (response : option jsstring) (r : Random) (after : list Command)
    (letter : ascii) :
  ((createKey (session p s before response r after) letter = KeyGreen
    ∨ createKey (session p s before response r after) letter = KeyYellow) →
   letter ∈ wordToGuess (session p s before response r after))
  ∧ (createKey (session p s before response r after) letter = KeyGray →
     letter ∉ wordToGuess (session p s before response r after)).
Proof.
  destruct (session_start p s before response r) as (_ & Hk & _).
  pose proof (keyboardSound_run _ after Hk) as (Hg & Hy & Hr).
  fold (session p s before response r after) in Hg, Hy, Hr.
  unfold createKey.
  repeat case_bool_decide; (split; [intros [?|?]|intros ?]); try done; auto.
  intros Hin. destruct (Hr letter) as [?|?]; done.
Qed.

(** ** The target over a session *)

Lemma wellFormed_run gs commands : wellFormed gs → wellFormed (run gs commands).1.
Proof.
  revert gs. induction commands as [|c commands IH]; intros gs Hwf; [done|].
  cbn [run].
  assert (Hwf1 : wellFormed (exec gs c).1).
  { destruct c as [[input|r]|r]; cbn [exec act].
    - pose proof (wellFormed_makeGuess gs input Hwf).
      by destruct (makeGuess gs input).
    - pose proof (wellFormed_buyHint gs r Hwf). by destruct (buyHint gs r).
    - by apply wellFormed_newGame. }
  destruct (exec gs c) as [gs1 s]. specialize (IH gs1 Hwf1).
  by destruct (run gs1 commands).
Qed.

Lemma run_validWords gs commands :
  validWords (run gs commands).1 = validWords gs.
Proof.
  revert gs. induction commands as [|c commands IH]; intros gs; [done|].
  cbn [run].
  assert (H1 : validWords (exec gs c).1 = validWords gs).
  { destruct c as [[input|r]|r]; cbn [exec act].
    - destruct (makeGuess_words gs input) as [H _].
      by destruct (makeGuess gs input).
    - by destruct (buyHint_cases gs r) as [[a ->]|(index & _ & _ & _ & Hst & _)];
        [|destruct (buyHint gs r) as [gs1 o]; cbn [fst] in *; subst gs1].
    - cbn [fst]. unfold newGame.
      cbn [validWords set_guessCount set_greenLetters set_yellowLetters
           set_grayLetters set_revealedHintIndices set_gameOver].
      destruct (validWords gs) eqn:Hw; [done|]. by cbn. }
  destruct (exec gs c) as [gs1 s]. specialize (IH gs1).
  destruct (run gs1 commands). cbn [fst] in *. congruence.
Qed.

(** X8. In every state of a session after the fetch of the word list
    has come back, the target has five characters: it is a word of the
    list, or it is "APPLE" and the list is empty; and every word of the
    list has five characters. *)
Theorem session_target (p s : Z) (before : list Command)
    (response : option jsstring) (r : Random) (after : list Command) :
  length (wordToGuess (session p s before response r after)) = WORD_LENGTH
  ∧ (∀ word, word ∈ validWords (session p s before response r after) →
       length word = WORD_LENGTH)
  ∧ (wordToGuess (session p s before response r after)
       ∈ validWords (session p s before response r after)
     ∨ (validWords (session p s before response r after) = []
        ∧ wordToGuess (session p s before response r after) = str "APPLE")).
Proof.
  destruct (session_start p s before response r) as (Hwf & _ & Hlen & Hnone).
  unfold session.
  set (gs := (fetchWordList (run (loadedState p s) before).1 response r).1) in *.
  pose proof (wellFormed_run gs after Hwf) as [Hall Hword].
  pose proof (run_validWords gs after) as Hsame.
  destruct (validWords gs) as [|first rest] eqn:Hw.
  - destruct Hnone as (Ht & Hover & Hcount & Hg & Hy & Hr); [done|].
    destruct (run_unloaded gs after) as (_ & Ht' & _); try done.
    rewrite Ht', Ht. split; [done|]. split; [done|]. right. by rewrite Hsame.
  - split; [|split; [done|]].
    + apply wellFormed_target; [done|]. by rewrite Hsame.
    + left. destruct Hword as [Hword|Hword]; [|done]. by rewrite Hsame in Hword.
Qed.

(** X9. When the fetch of the word list fails, or the list it brings
    holds no word of five characters, the target is "APPLE" but no guess
    is ever accepted: in every later state [makeGuess] rejects every
    input and leaves the state as it is, so the game is never won or
    lost. *)
Theorem session_unloaded (p s : Z) (before : list Command)
    (response : option jsstring) (r : Random) (after : list Command) :
  (∀ data, response = Some data → parseWordList data = []) →
  wordToGuess (session p s before response r after) = str "APPLE"
  ∧ validWords (session p s before response r after) = []
  ∧ gameOver (session p s before response r after) = false
  ∧ guessCount (session p s before response r after) = 0
  ∧ ∀ input,
      ∃ a, makeGuess (session p s before response r after) input
           = (session p s before response r after, Rejected a).
Proof.
  intros Hfail.
  destruct (session_start p s before response r) as (_ & _ & _ & Hnone).
  destruct (run_unloaded (loadedState p s) before) as (E1 & _); try done.
  unfold session.
  set (gs := (fetchWordList (run (loadedState p s) before).1 response r).1) in *.
  assert (Hw : validWords gs = []).
  { unfold gs. rewrite fetchWordList_validWords.
    destruct response as [data|]; [|done]. by rewrite (Hfail data eq_refl). }
  destruct (Hnone Hw) as (Ht & Hover & Hcount & Hg & Hy & Hr).
  destruct (run_unloaded gs after) as (F1 & F2 & _ & _ & _ & F6 & F7); try done.
  rewrite F2, Ht. repeat split; try done.
  intros input. by apply makeGuess_unloaded.
Qed.

Lemma session_unloaded_witness :
  (∀ data, (None : option jsstring) = Some data → parseWordList data = [])
  ∧ wordToGuess (session 0 0 [] None oneThird [Act (Guess (str "apple"))])
    = str "APPLE"
  ∧ ∃ a, makeGuess (session 0 0 [] None oneThird [Act (Guess (str "apple"))])
           (str "apple")
         = (session 0 0 [] None oneThird [Act (Guess (str "apple"))], Rejected a).
Proof.
  assert (H : ∀ data, (None : option jsstring) = Some data → parseWordList data = [])
    by (intros data Hd; discriminate Hd).
  destruct (session_unloaded 0 0 [] None oneThird [Act (Guess (str "apple"))] H)
    as (H1 & _ & _ & _ & H5).
  split; [exact H|]. split; [exact H1|exact (H5 (str "apple"))].
Defined.

(** ** Targets that cannot be guessed *)

Lemma toUpperChar_upper c : isUpperAZ c = true → toUpperChar c = c.
Proof. destruct c as [[] [] [] [] [] [] [] []]; intros H; try done. Qed.

Lemma toUpperCase_upper s : forallb isUpperAZ s = true → toUpperCase s = s.
Proof.
  induction s as [|c s IH]; [done|]. simpl.
  intros [Hc Hs]%andb_true_iff. by rewrite toUpperChar_upper, IH.
Qed.

Lemma matchesAZ_forall s : matchesAZ s = true → forallb isUpperAZ s = true.
Proof. by destruct s. Qed.

(** X10. In a game that is going on, with a five-character target that
    is a word of the list, some input makes [makeGuess] end the game by a
    win if and only if the target consists of letters A-Z: a target with
    another character (the list does not exclude them) can never be
    guessed, since such a guess is rejected for its characters. *)
Theorem winnable_iff_letters (gs : GameState) :
  gameOver gs = false → guessCount gs < MAX_GUESSES →
  length (wordToGuess gs) = WORD_LENGTH → wordToGuess gs ∈ validWords gs →
  (∃ input tiles tries pts,
     (makeGuess gs input).2 = Played (Some tiles) (Some (AlertWin tries pts)))
  ↔ matchesAZ (wordToGuess gs) = true.
Proof.
  intros Hover Hleft Hlen Hin. split.
  - intros (input & tiles & tries & pts & Hwin).
    destruct (makeGuess_cases gs input)
      as [(a & Hrej & _)|(_ & _ & Hvalid & gs1 & tiles' & correct & _ & Hproc & Hmake)].
    { rewrite Hrej in Hwin. done. }
    rewrite Hmake in Hwin. cbn zeta in Hwin.
    destruct (validGuess_guards gs input Hvalid) as (Hlg & _ & Hm & _).
    apply negb_false_iff in Hm.
    destruct correct.
    + assert (Hflag : (processGuess gs (toUpperCase input)).2 = true)
        by by rewrite Hproc.
      apply processGuess_flag in Hflag; [|done..]. by rewrite <- Hflag.
    + destruct (MAX_GUESSES <=? guessCount gs + 1); done.
  - intros Hm.
    assert (Hup : toUpperCase (wordToGuess gs) = wordToGuess gs)
      by by apply toUpperCase_upper, matchesAZ_forall.
    destruct (makeGuess_win gs (wordToGuess gs)) as (gs1 & tiles & _ & Hmake);
      try done.
    { unfold validGuess, includes. rewrite Hup, Hlen, Nat.eqb_refl, Hm.
      by rewrite bool_decide_eq_true_2. }
    exists (wordToGuess gs), tiles. eexists _, _. by rewrite Hmake.
Qed.

Lemma winnable_iff_letters_witness :
  gameOver dictState = false ∧ guessCount dictState < MAX_GUESSES
  ∧ length (wordToGuess dictState) = WORD_LENGTH
  ∧ wordToGuess dictState ∈ validWords dictState
  ∧ ((∃ input tiles tries pts,
        (makeGuess dictState input).2
        = Played (Some tiles) (Some (AlertWin tries pts)))
     ↔ matchesAZ (wordToGuess dictState) = true).
Proof.
  assert (H1 : gameOver dictState = false) by reflexivity.
  assert (H2 : guessCount dictState < MAX_GUESSES) by (vm_compute; lia).
  assert (H3 : length (wordToGuess dictState) = WORD_LENGTH) by reflexivity.
  assert (H4 : wordToGuess dictState ∈ validWords dictState).
  { apply list_elem_of_In. vm_compute. tauto. }
  exact (conj H1 (conj H2 (conj H3 (conj H4
    (winnable_iff_letters dictState H1 H2 H3 H4))))).
Defined.

(** ** The shorter script over a session *)

Lemma randomIndex_lt r len : 0 < len → randomIndex r len < len.
Proof.
  intros Hlen. unfold randomIndex.
  apply Nat.Div0.div_lt_upper_bound. nia.
Qed.

Lemma simple_getRandomWord gs r :
  Simple.validWords gs ≠ [] →
  ∃ word, Simple.getRandomWord gs r = Some word ∧ word ∈ Simple.validWords gs.
Proof.
  intros Hsome. unfold Simple.getRandomWord.
  destruct (lookup_lt_is_Some_2 (Simple.validWords gs)
              (randomIndex r (length (Simple.validWords gs)))) as [word Hword].
  { apply randomIndex_lt. destruct (Simple.validWords gs); [done|simpl; lia]. }
  exists word. split; [done|]. by eapply list_elem_of_lookup_2.
Qed.

(** The loop of [updateGameboard] over [indices]: what each set holds
    afterwards. *)
Lemma simple_fold_sets word guess indices gs letter :
  let gs' := foldl (Simple.classify word guess) gs indices in
  (letter ∈ Simple.greenLetters gs'
   ↔ letter ∈ Simple.greenLetters gs
     ∨ ∃ i, i ∈ indices ∧ guess !! i = Some letter ∧ word !! i = Some letter)
  ∧ (letter ∈ Simple.yellowLetters gs'
     ↔ letter ∈ Simple.yellowLetters gs
       ∨ ∃ i, i ∈ indices ∧ guess !! i = Some letter
              ∧ word !! i ≠ Some letter ∧ letter ∈ word)
  ∧ (letter ∈ Simple.grayLetters gs'
     ↔ letter ∈ Simple.grayLetters gs
       ∨ ∃ i, i ∈ indices ∧ guess !! i = Some letter
              ∧ word !! i ≠ Some letter ∧ letter ∉ word)
  ∧ Simple.wordToGuess gs' = Simple.wordToGuess gs
  ∧ Simple.guessCount gs' = Simple.guessCount gs
  ∧ Simple.points gs' = Simple.points gs
  ∧ Simple.streak gs' = Simple.streak gs
  ∧ Simple.revealedHintIndices gs' = Simple.revealedHintIndices gs
  ∧ Simple.validWords gs' = Simple.validWords gs.
Proof.
  revert gs. induction indices as [|i indices IH]; intros gs; cbn [foldl].
  { cbn zeta. repeat split; try done; try (intros H; by left);
      (intros [H|(i & Hi & _)]; [done|by apply elem_of_nil in Hi]). }
  specialize (IH (Simple.classify word guess gs i)). cbn zeta in *.
  destruct IH as (Hg & Hy & Hr & -> & -> & -> & -> & -> & ->).
  rewrite Hg, Hy, Hr. clear Hg Hy Hr.
  unfold Simple.classify.
  destruct (guess !! i) as [c|] eqn:Hc.
  - destruct (bool_decide_reflect (word !! i = Some c)) as [Hex|Hex];
      [|destruct (bool_decide_reflect (c ∈ word)) as [Hin|Hin]];
      cbn [Simple.greenLetters Simple.yellowLetters Simple.grayLetters
           Simple.set_letters Simple.wordToGuess Simple.guessCount
           Simple.points Simple.streak Simple.revealedHintIndices
           Simple.validWords];
      (repeat split; try done);
      rewrite ?elem_of_union, ?elem_of_singleton;
      try (intros [[->|H]|(j & Hj & Hrest)];
           [right; exists i; split; [by left|done]
           |by left
           |right; exists j; split; [by right|done]]);
      try (intros [H|(j & Hj & Hrest)];
           [by left|right; exists j; split; [by right|done]]);
      try (intros [H|(j & [->|Hj]%elem_of_cons & Hgj & Hrest)];
           [left; by right
           |left; left; congruence
           |right; by exists j]);
      try (intros [H|(j & [->|Hj]%elem_of_cons & Hgj & Hrest)];
           [by left
           |exfalso; destruct Hrest; congruence
           |right; by exists j]).
  - repeat split; try done;
      try (intros [H|(j & Hj & Hrest)];
           [by left|right; exists j; split; [by right|done]]);
      (intros [H|(j & [->|Hj]%elem_of_cons & Hgj & Hrest)];
       [by left|congruence|right; by exists j]).
Qed.

Lemma simple_validateGuess gs guess :
  Simple.validateGuess gs guess = true
  ↔ length guess = 5 ∧ guess ∈ Simple.validWords gs.
Proof.
  unfold Simple.validateGuess, includes.
  destruct (Nat.eqb_spec (length guess) 5) as [Hl|Hl];
    destruct (bool_decide_reflect (guess ∈ Simple.validWords gs)) as [Hin|Hin];
    cbn; naive_solver.
Qed.

Lemma simple_makeGuess_cases gs input r word :
  Simple.wordToGuess gs = Some word →
  let guess := trim (toUpperCase input) in
  (Simple.validateGuess gs guess = false
   ∧ Simple.makeGuess gs input r = Some (gs, Some Simple.AlertInvalidWord))
  ∨ (Simple.validateGuess gs guess = true ∧ guess = word
     ∧ Simple.makeGuess gs input r
       = Some (Simple.resetGame
                 (Simple.set_streak (Simple.streak gs + 1)
                    (Simple.set_points (Simple.points gs + 10)
                       (foldl (Simple.classify word guess) gs (seq 0 5)))) r,
               Some Simple.AlertGuessed))
  ∨ (Simple.validateGuess gs guess = true ∧ guess ≠ word
     ∧ Simple.makeGuess gs input r
       = Some (Simple.set_guessCount (Simple.guessCount gs + 1)
                 (foldl (Simple.classify word guess) gs (seq 0 5)), None)).
Proof.
  intros Hword guess. unfold Simple.makeGuess. fold guess.
  destruct (Simple.validateGuess gs guess) eqn:Hv; cbn [negb]; [|by left].
  right. unfold Simple.updateGameboard. rewrite Hword.
  unfold Simple.checkWinCondition.
  destruct (simple_fold_sets word guess (seq 0 5) gs "a"%char)
    as (_ & _ & _ & Hw & Hc & Hp & Hs & _).
  cbn zeta in *. rewrite Hw, Hword.
  case_bool_decide as Heq.
  - left. split; [done|]. split; [congruence|].
    cbn [Simple.streak Simple.set_points]. by rewrite Hp, Hs.
  - right. split; [done|]. split; [congruence|]. by rewrite Hc.
Qed.

Lemma simpleSteady_makeGuess gs input r word :
  simpleSteady gs word →
  ∃ gs' a word',
    Simple.makeGuess gs input r = Some (gs', a) ∧ simpleSteady gs' word'.
Proof.
  intros (Hword & Hlen & Hall & Hin & Hg & Hy & Hr & Hp & Hs & Hh).
  destruct (simple_makeGuess_cases gs input r word Hword)
    as [(_ & ->)|[(Hv & Heq & ->)|(Hv & Hne & ->)]].
  - exists gs, (Some Simple.AlertInvalidWord), word. split; [done|].
    by repeat split.
  - set (guess := trim (toUpperCase input)) in *.
    apply simple_validateGuess in Hv as [_ Hv].
    destruct (simple_fold_sets word guess (seq 0 5) gs "a"%char)
      as (_ & _ & _ & Hw & _ & Hp' & Hs' & _ & Hl). cbn zeta in *.
    set (gs1 := foldl (Simple.classify word guess) gs (seq 0 5)) in *.
    destruct (simple_getRandomWord
                (Simple.set_streak (Simple.streak gs + 1)
                   (Simple.set_points (Simple.points gs + 10) gs1)) r)
      as (word' & Hget & Hin').
    { cbn [Simple.validWords Simple.set_streak Simple.set_points].
      rewrite Hl. intros Hnone. rewrite Hnone in Hv.
      by apply elem_of_nil in Hv. }
    eexists _, _, word'. split; [done|].
    unfold Simple.resetGame.
    cbn [Simple.validWords Simple.set_streak Simple.set_points] in Hin'.
    rewrite Hl in Hin'.
    repeat split;
      cbn [Simple.wordToGuess Simple.validWords Simple.greenLetters
           Simple.yellowLetters Simple.grayLetters Simple.points
           Simple.streak Simple.revealedHintIndices Simple.set_wordToGuess
           Simple.set_guessCount Simple.set_letters Simple.set_streak
           Simple.set_points Simple.set_revealedHintIndices];
      rewrite ?Hl, ?Hp', ?Hs'; try done; try lia.
    + by apply Hall.
    + by left.
  - set (guess := trim (toUpperCase input)) in *.
    eexists _, _, word. split; [done|].
    assert (Hsets : ∀ letter,
      (letter ∈ Simple.greenLetters (foldl (Simple.classify word guess) gs (seq 0 5))
       → letter ∈ word)
      ∧ (letter ∈ Simple.yellowLetters (foldl (Simple.classify word guess) gs (seq 0 5))
         → letter ∈ word)
      ∧ (letter ∈ Simple.grayLetters (foldl (Simple.classify word guess) gs (seq 0 5))
         → letter ∉ word)).
    { intros letter.
      destruct (simple_fold_sets word guess (seq 0 5) gs letter)
        as (Hg' & Hy' & Hr' & _). cbn zeta in *.
      rewrite Hg', Hy', Hr'. repeat split.
      - intros [H|(i & _ & _ & Hi)]; [by apply Hg|].
        apply list_elem_of_lookup. eauto.
      - intros [H|(i & _ & _ & _ & Hi)]; [by apply Hy|done].
      - intros [H|(i & _ & _ & _ & Hi)]; [by apply Hr|done]. }
    destruct (simple_fold_sets word guess (seq 0 5) gs "a"%char)
      as (_ & _ & _ & Hw & _ & Hp' & Hs' & Hh' & Hl). cbn zeta in *.
    set (gs1 := foldl (Simple.classify word guess) gs (seq 0 5)) in *.
    repeat split; cbn [Simple.wordToGuess Simple.validWords Simple.greenLetters
                       Simple.yellowLetters Simple.grayLetters Simple.points
                       Simple.streak Simple.revealedHintIndices
                       Simple.set_guessCount];
      rewrite ?Hw, ?Hl, ?Hp', ?Hs', ?Hh'; try done.
    + intros letter. apply Hsets.
    + intros letter. apply Hsets.
    + intros letter. apply Hsets.
Qed.

Lemma simple_elem_of_availableIndices gs i :
  i ∈ Simple.availableIndices gs ↔ i < 5 ∧ i ∉ Simple.revealedHintIndices gs.
Proof.
  unfold Simple.availableIndices. rewrite list_elem_of_filter, elem_of_seq.
  naive_solver lia.
Qed.

Lemma simple_buyHint_cases gs r :
  (∃ a, Simple.buyHint gs r = (gs, Some a))
  ∨ (∃ index,
       (5 ≤ Simple.points gs)%Z ∧ index < 5
       ∧ (index ∉ Simple.revealedHintIndices gs)
       ∧ Simple.buyHint gs r
         = (Simple.set_points (Simple.points gs - 5)
              (Simple.set_revealedHintIndices
                 ({[index]} ∪ Simple.revealedHintIndices gs) gs), None)).
Proof.
  unfold Simple.buyHint.
  destruct (Z.ltb_spec (Simple.points gs) 5) as [Hp|Hp]; [left; eauto|].
  destruct (Simple.availableIndices gs) as [|first rest] eqn:Hav; [left; eauto|].
  right. eexists. split; [done|].
  assert (Hin : nth (randomIndex r (length (first :: rest))) (first :: rest) first
                ∈ Simple.availableIndices gs).
  { rewrite Hav. apply nth_default_in. by left. }
  apply simple_elem_of_availableIndices in Hin as [Hlt Hout].
  split; [exact Hlt|]. split; [exact Hout|]. done.
Qed.

Lemma simpleSteady_buyHint gs r word :
  simpleSteady gs word → simpleSteady (Simple.buyHint gs r).1 word.
Proof.
  intros Hst.
  destruct (simple_buyHint_cases gs r)
    as [(a & ->)|(index & Hp & Hlt & Hout & ->)]; [done|].
  destruct Hst as (Hword & Hlen & Hall & Hin & Hg & Hy & Hr & _ & Hs & Hh).
  repeat split; cbn; try done; try lia.
  intros i Hi. apply elem_of_union in Hi as [Hi|Hi]; [|by apply Hh].
  apply elem_of_singleton in Hi. by subst i.
Qed.

Lemma simpleSteady_run gs commands word :
  simpleSteady gs word →
  ∃ gs' word', simpleRun gs commands = Some gs' ∧ simpleSteady gs' word'.
Proof.
  revert gs word. induction commands as [|[input r|r] commands IH];
    intros gs word Hst; cbn [simpleRun].
  - eauto.
  - destruct (simpleSteady_makeGuess gs input r word Hst)
      as (gs1 & a & word1 & -> & Hst1). eauto.
  - eapply IH. by apply simpleSteady_buyHint.
Qed.

(** Before the list has come back every guess is refused and no hint
    can be paid. *)
Lemma simpleRun_unloaded gs commands :
  Simple.validWords gs = [] → (Simple.points gs < 5)%Z →
  simpleRun gs commands = Some gs.
Proof.
  intros Hnone Hp. induction commands as [|[input r|r] commands IH];
    cbn [simpleRun]; [done| |].
  - unfold Simple.makeGuess, Simple.validateGuess, includes.
    rewrite Hnone, bool_decide_eq_false_2 by apply not_elem_of_nil.
    by rewrite orb_true_r.
  - by rewrite simple_buyHint_refuses.
Qed.

Lemma simpleSteady_fetchWords response r :
  ∃ word, simpleSteady (Simple.fetchWords Simple.initialState response r).1 word.
Proof.
  unfold Simple.fetchWords. destruct response as [data|].
  - cbn [Simple.validWords Simple.set_validWords].
    assert (Hall : ∀ w, w ∈ parseWordList data → length w = 5).
    { intros w Hw. unfold parseWordList in Hw.
      by apply list_elem_of_filter in Hw as [Hw _]. }
    destruct (decide (parseWordList data = [])) as [Hnone|Hsome].
    + rewrite Hnone. exists (str "APPLE"). repeat split; cbn; try done.
      * intros w Hw. by apply elem_of_nil in Hw.
      * by right.
    + destruct (simple_getRandomWord
                  (Simple.set_validWords (parseWordList data) Simple.initialState) r)
        as (word & Hget & Hin); [done|].
      cbn [Simple.validWords Simple.set_validWords] in Hin.
      destruct (parseWordList data) as [|first rest] eqn:Hparse; [done|].
      exists word. cbn [fst]. repeat split; cbn; try done; auto.
  - exists (str "APPLE"). repeat split; cbn; try done.
    + intros w Hw. by apply elem_of_nil in Hw.
    + by right.
Qed.

Lemma simpleSession_steady before response r after :
  ∃ gs word, simpleSession before response r after = Some gs
             ∧ simpleSteady gs word.
Proof.
  unfold simpleSession. rewrite simpleRun_unloaded by done.
  destruct (simpleSteady_fetchWords response r) as (word & Hst).
  by eapply simpleSteady_run.
Qed.

(** X11. The shorter script never reads a letter of an undefined
    target: in every session the calls made before and after the word
    list has come back all return, and the state they reach has a target
    of five characters, which is a word of the list or "APPLE" with an
    empty list; points and streak are not negative, and every revealed
    hint index is below 5. *)
Theorem simple_session_never (before : list SimpleCommand)
    (response : option jsstring) (r : Random) (after : list SimpleCommand) :
  ∃ gs word,
    simpleSession before response r after = Some gs
    ∧ Simple.wordToGuess gs = Some word
    ∧ length word = 5
    ∧ (word ∈ Simple.validWords gs
       ∨ (Simple.validWords gs = [] ∧ word = str "APPLE"))
    ∧ (0 ≤ Simple.points gs)%Z ∧ (0 ≤ Simple.streak gs)%Z
    ∧ (∀ i, i ∈ Simple.revealedHintIndices gs → i < 5).
Proof.
  destruct (simpleSession_steady before response r after)
    as (gs & word & Hrun & Hword & Hlen & _ & Hin & _ & _ & _ & Hp & Hs & Hh).
  by exists gs, word.
Qed.

(** X12. In every state a session of the shorter script reaches, the
    key of a letter is green or yellow only if the target has the
    letter, and gray only if the target does not have it. *)
Theorem simple_session_keyboard (before : list SimpleCommand)
    (response : option jsstring) (r : Random) (after : list SimpleCommand)
    (letter : ascii) :
  ∃ gs word,
    simpleSession before response r after = Some gs
    ∧ Simple.wordToGuess gs = Some word
    ∧ (Simple.keyClass gs letter = KeyGreen ∨ Simple.keyClass gs letter = KeyYellow
       → letter ∈ word)
    ∧ (Simple.keyClass gs letter = KeyGray → letter ∉ word).
Proof.
  destruct (simpleSession_steady before response r after)
    as (gs & word & Hrun & Hword & _ & _ & _ & Hg & Hy & Hr & _).
  exists gs, word. split; [done|]. split; [done|].
  unfold Simple.keyClass.
  repeat case_bool_decide; (split; [intros [?|?]|intros ?]); try done; auto.
Qed.

(** X13. A call of [makeGuess] of the shorter script, on a target that
    is defined.  The guess is the input in capitals without the white
    space around it.  A guess that has not five characters or is not in
    the list is refused with the state unchanged.  A listed guess that
    is not the target only adds 1 to [guessCount], whatever the count,
    and lets the letter sets grow.  The target as guess adds 10 points
    and 1 to the streak and starts the next game at once: count 0, the
    letter sets and the hints empty, and a word of the list as the new
    target. *)
Theorem simple_makeGuess_outcome (gs : Simple.GameState) (input : jsstring)
    (r : Random) (word : jsstring) :
  Simple.wordToGuess gs = Some word →
  (length (trim (toUpperCase input)) ≠ 5
   ∨ trim (toUpperCase input) ∉ Simple.validWords gs →
   Simple.makeGuess gs input r = Some (gs, Some Simple.AlertInvalidWord))
  ∧ (length (trim (toUpperCase input)) = 5 →
     trim (toUpperCase input) ∈ Simple.validWords gs →
     trim (toUpperCase input) ≠ word →
     ∃ gs', Simple.makeGuess gs input r = Some (gs', None)
       ∧ Simple.guessCount gs' = Simple.guessCount gs + 1
       ∧ Simple.wordToGuess gs' = Some word
       ∧ Simple.points gs' = Simple.points gs
       ∧ Simple.streak gs' = Simple.streak gs
       ∧ Simple.revealedHintIndices gs' = Simple.revealedHintIndices gs
       ∧ Simple.validWords gs' = Simple.validWords gs
       ∧ Simple.greenLetters gs ⊆ Simple.greenLetters gs'
       ∧ Simple.yellowLetters gs ⊆ Simple.yellowLetters gs'
       ∧ Simple.grayLetters gs ⊆ Simple.grayLetters gs')
  ∧ (length word = 5 → word ∈ Simple.validWords gs →
     trim (toUpperCase input) = word →
     ∃ gs' word',
       Simple.makeGuess gs input r = Some (gs', Some Simple.AlertGuessed)
       ∧ Simple.points gs' = (Simple.points gs + 10)%Z
       ∧ Simple.streak gs' = (Simple.streak gs + 1)%Z
       ∧ Simple.guessCount gs' = 0
       ∧ Simple.greenLetters gs' = ∅ ∧ Simple.yellowLetters gs' = ∅
       ∧ Simple.grayLetters gs' = ∅ ∧ Simple.revealedHintIndices gs' = ∅
       ∧ Simple.validWords gs' = Simple.validWords gs
       ∧ Simple.wordToGuess gs' = Some word'
       ∧ word' ∈ Simple.validWords gs).
Proof.
  intros Hword.
  pose proof (simple_makeGuess_cases gs input r word Hword) as Hcases.
  cbn zeta in Hcases.
  pose proof (simple_validateGuess gs (trim (toUpperCase input))) as Hvalid.
  set (guess := trim (toUpperCase input)) in *.
  pose proof (simple_fold_learns word guess (seq 0 5) gs) as (Lg & Ly & Lr).
  destruct (simple_fold_sets word guess (seq 0 5) gs "a"%char)
    as (_ & _ & _ & Hw & Hc & Hp & Hs & Hh & Hl). cbn zeta in *.
  set (gs1 := foldl (Simple.classify word guess) gs (seq 0 5)) in *.
  split; [|split].
  - intros Hbad.
    destruct Hcases as [(_ & ->)|[(Hv & _)|(Hv & _)]]; [done| |];
      apply Hvalid in Hv as [? ?]; by destruct Hbad.
  - intros Hlen Hin Hne.
    destruct Hcases as [(Hv & _)|[(_ & Heq & _)|(_ & _ & ->)]]; [|done|].
    { assert (Simple.validateGuess gs guess = true) by by apply Hvalid.
      congruence. }
    eexists. split; [done|].
    cbn [Simple.wordToGuess Simple.validWords Simple.greenLetters
         Simple.yellowLetters Simple.grayLetters Simple.points Simple.guessCount
         Simple.streak Simple.revealedHintIndices Simple.set_guessCount].
    by rewrite Hw, Hp, Hs, Hh, Hl.
  - intros Hlen Hin Heq.
    destruct Hcases as [(Hv & _)|[(_ & _ & ->)|(_ & Hne & _)]]; [| |done].
    { assert (Simple.validateGuess gs guess = true)
        by (apply Hvalid; by rewrite Heq).
      congruence. }
    destruct (simple_getRandomWord
                (Simple.set_streak (Simple.streak gs + 1)
                   (Simple.set_points (Simple.points gs + 10) gs1)) r)
      as (word' & Hget & Hin').
    { cbn [Simple.validWords Simple.set_streak Simple.set_points].
      rewrite Hl. intros Hnone. rewrite Hnone in Hin.
      by apply elem_of_nil in Hin. }
    cbn [Simple.validWords Simple.set_streak Simple.set_points] in Hin'.
    rewrite Hl in Hin'.
    eexists _, word'. split; [done|]. unfold Simple.resetGame.
    cbn [Simple.wordToGuess Simple.validWords Simple.greenLetters
         Simple.yellowLetters Simple.grayLetters Simple.points Simple.guessCount
         Simple.streak Simple.revealedHintIndices Simple.set_wordToGuess
         Simple.set_guessCount Simple.set_letters Simple.set_streak
         Simple.set_points Simple.set_revealedHintIndices].
    by rewrite Hl.
Qed.

Lemma simple_makeGuess_outcome_witness :
  Simple.wordToGuess simpleDict = Some (str "APPLE")
  ∧ (∃ gs', Simple.makeGuess simpleDict (str " crane ") oneThird = Some (gs', None)
       ∧ Simple.guessCount gs' = Simple.guessCount simpleDict + 1)
  ∧ (∃ gs' word',
       Simple.makeGuess simpleDict (str "apple") oneThird
       = Some (gs', Some Simple.AlertGuessed)
       ∧ Simple.points gs' = (Simple.points simpleDict + 10)%Z
       ∧ Simple.wordToGuess gs' = Some word').
Proof.
  assert (H : Simple.wordToGuess simpleDict = Some (str "APPLE")) by reflexivity.
  split; [exact H|]. split.
  - destruct (simple_makeGuess_outcome simpleDict (str " crane ") oneThird
                (str "APPLE") H) as (_ & Hmiss & _).
    destruct Hmiss as (gs' & Hm & Hc & _).
    + reflexivity.
    + apply list_elem_of_In. vm_compute. tauto.
    + vm_compute. discriminate.
    + exists gs'. split; [exact Hm|exact Hc].
  - destruct (simple_makeGuess_outcome simpleDict (str "apple") oneThird
                (str "APPLE") H) as (_ & _ & Hwin).
    destruct Hwin as (gs' & word' & Hm & Hp & _ & _ & _ & _ & _ & _ & _ & Hw & _).
    + reflexivity.
    + apply list_elem_of_In. vm_compute. tauto.
    + reflexivity.
    + exists gs', word'. split; [exact Hm|]. split; [exact Hp|exact Hw].
Defined.

(** ** The two scripts on the same guess *)

Lemma processGuess_sets_at gs guess letter :
  length guess = WORD_LENGTH → guessCount gs < MAX_GUESSES →
  (letter ∈ greenLetters (processGuess gs guess).1.1
   ↔ letter ∈ greenLetters gs
     ∨ ∃ i, guess !! i = Some letter ∧ wordToGuess gs !! i = Some letter)
  ∧ (letter ∈ yellowLetters (processGuess gs guess).1.1 →
     letter ∈ yellowLetters gs
     ∨ ∃ i, guess !! i = Some letter ∧ wordToGuess gs !! i ≠ Some letter
            ∧ letter ∈ wordToGuess gs)
  ∧ (letter ∈ grayLetters gs
     ∨ (∃ i, guess !! i = Some letter ∧ wordToGuess gs !! i ≠ Some letter
             ∧ letter ∉ wordToGuess gs) →
     letter ∈ grayLetters (processGuess gs guess).1.1)
  ∧ (letter ∈ yellowLetters (processGuess gs guess).1.1
     ∨ letter ∈ grayLetters (processGuess gs guess).1.1
     ↔ letter ∈ yellowLetters gs ∨ letter ∈ grayLetters gs
       ∨ ∃ i, guess !! i = Some letter ∧ wordToGuess gs !! i ≠ Some letter).
Proof.
  intros Hlen Hrow.
  destruct (processGuess_sets gs guess letter Hrow) as (tiles & Ht & Hg & Hy & Hr).
  rewrite Hg, Hy, Hr. clear Hg Hy Hr.
  rewrite processGuess_found in Ht by done. cbn [fst snd] in Ht.
  assert (Htiles : tiles = fr_tiles (runPasses guess
                     (enterRow gs (replicate WORD_LENGTH blankTile))))
    by congruence.
  clear Ht.
  assert (Hat : ∀ i, guess !! i = Some letter →
    ∃ t, tiles !! i = Some t ∧ t ∈ tiles
         ∧ innerText t = Some letter
         ∧ (backgroundColor t = Green ↔ wordToGuess gs !! i = Some letter)
         ∧ (backgroundColor t = Yellow → letter ∈ wordToGuess gs)
         ∧ (letter ∉ wordToGuess gs → backgroundColor t = Gray)
         ∧ (backgroundColor t = Green ∨ backgroundColor t = Yellow
            ∨ backgroundColor t = Gray)).
  { intros i Hi.
    destruct (runPasses_tile_at gs guess i letter Hi) as (t & Hlk & Hrest).
    { apply lookup_lt_Some in Hi. lia. }
    exists t. rewrite Htiles. split; [done|]. split; [|done].
    by eapply list_elem_of_lookup_2. }
  assert (Hshown : ∀ c, shows c letter tiles →
    ∃ i t, guess !! i = Some letter ∧ tiles !! i = Some t
           ∧ backgroundColor t = c).
  { intros c (t & Hin & Htext & Hcol).
    apply list_elem_of_lookup_1 in Hin as (i & Hlk).
    assert (Hi : i < length guess).
    { apply lookup_lt_Some in Hlk.
      rewrite Htiles, runPasses_length in Hlk. lia. }
    apply lookup_lt_is_Some_2 in Hi as (c' & Hc').
    destruct (runPasses_tile_at gs guess i c' Hc') as (t' & Hlk' & Htext' & _).
    { apply lookup_lt_Some in Hc'. lia. }
    rewrite <- Htiles in Hlk'.
    assert (t' = t) by congruence. subst t'.
    assert (c' = letter) by congruence. subst c'.
    by exists i, t. }
  split; [|split; [|split]].
  - split.
    + intros [H|Hs]; [by left|]. right.
      destruct (Hshown Green Hs) as (i & t & Hi & Hlk & Hcol).
      destruct (Hat i Hi) as (t' & Hlk' & _ & _ & Hgreen & _).
      assert (t' = t) by congruence. subst t'.
      exists i. split; [done|]. by apply Hgreen.
    + intros [H|(i & Hi & Hex)]; [by left|]. right.
      destruct (Hat i Hi) as (t & _ & Hin & Htext & Hgreen & _).
      exists t. split; [done|]. split; [done|]. by apply Hgreen.
  - intros [H|Hs]; [by left|]. right.
    destruct (Hshown Yellow Hs) as (i & t & Hi & Hlk & Hcol).
    destruct (Hat i Hi) as (t' & Hlk' & _ & _ & Hgreen & Hyellow & _).
    assert (t' = t) by congruence. subst t'.
    exists i. split; [done|]. split; [|by apply Hyellow].
    intros Hex. apply Hgreen in Hex. congruence.
  - intros [H|(i & Hi & Hex & Hout)]; [by left|]. right.
    destruct (Hat i Hi) as (t & _ & Hin & Htext & _ & _ & Hgray & _).
    exists t. split; [done|]. split; [done|]. by apply Hgray.
  - split.
    + intros [[H|Hs]|[H|Hs]]; [by left| |right; by left|].
      * right. right.
        destruct (Hshown Yellow Hs) as (i & t & Hi & Hlk & Hcol).
        destruct (Hat i Hi) as (t' & Hlk' & _ & _ & Hgreen & _).
        assert (t' = t) by congruence. subst t'.
        exists i. split; [done|]. intros Hex. apply Hgreen in Hex. congruence.
      * right. right.
        destruct (Hshown Gray Hs) as (i & t & Hi & Hlk & Hcol).
        destruct (Hat i Hi) as (t' & Hlk' & _ & _ & Hgreen & _).
        assert (t' = t) by congruence. subst t'.
        exists i. split; [done|]. intros Hex. apply Hgreen in Hex. congruence.
    + intros [H|[H|(i & Hi & Hex)]]; [left; by left|right; by left|].
      destruct (Hat i Hi) as (t & _ & Hin & Htext & Hgreen & _ & _ & Hcol).
      destruct Hcol as [Hcol|[Hcol|Hcol]].
      * by apply Hgreen in Hcol.
      * left. right. by exists t.
      * right. right. by exists t.
Qed.

Lemma simple_updateGameboard_sets sgs guess word letter :
  Simple.wordToGuess sgs = Some word → length guess = 5 →
  ∃ sgs',
    Simple.updateGameboard sgs guess = Some sgs'
    ∧ (letter ∈ Simple.greenLetters sgs'
       ↔ letter ∈ Simple.greenLetters sgs
         ∨ ∃ i, guess !! i = Some letter ∧ word !! i = Some letter)
    ∧ (letter ∈ Simple.yellowLetters sgs'
       ↔ letter ∈ Simple.yellowLetters sgs
         ∨ ∃ i, guess !! i = Some letter ∧ word !! i ≠ Some letter
                ∧ letter ∈ word)
    ∧ (letter ∈ Simple.grayLetters sgs'
       ↔ letter ∈ Simple.grayLetters sgs
         ∨ ∃ i, guess !! i = Some letter ∧ word !! i ≠ Some letter
                ∧ letter ∉ word).
Proof.
  intros Hword Hlen. unfold Simple.updateGameboard. rewrite Hword.
  eexists. split; [done|].
  destruct (simple_fold_sets word guess (seq 0 5) sgs letter)
    as (Hg & Hy & Hr & _). cbn zeta in *. rewrite Hg, Hy, Hr.
  assert (Hseq : ∀ i c, guess !! i = Some c → i ∈ seq 0 5).
  { intros i c Hi. apply lookup_lt_Some in Hi. apply elem_of_seq. lia. }
  repeat split; (intros [H|(i & Hrest)]; [by left|right; exists i]);
    naive_solver.
Qed.

Lemma keys_agree_sets gs sgs guess letter :
  length guess = WORD_LENGTH → guessCount gs < MAX_GUESSES →
  Simple.wordToGuess sgs = Some (wordToGuess gs) →
  Simple.greenLetters sgs = greenLetters gs →
  Simple.yellowLetters sgs = yellowLetters gs →
  Simple.grayLetters sgs = grayLetters gs →
  ∃ sgs',
    Simple.updateGameboard sgs guess = Some sgs'
    ∧ (letter ∈ greenLetters (processGuess gs guess).1.1
       ↔ letter ∈ Simple.greenLetters sgs')
    ∧ (letter ∈ yellowLetters (processGuess gs guess).1.1
       → letter ∈ Simple.yellowLetters sgs')
    ∧ (letter ∈ Simple.grayLetters sgs'
       → letter ∈ grayLetters (processGuess gs guess).1.1)
    ∧ (letter ∈ yellowLetters (processGuess gs guess).1.1
       ∨ letter ∈ grayLetters (processGuess gs guess).1.1
       ↔ letter ∈ Simple.yellowLetters sgs' ∨ letter ∈ Simple.grayLetters sgs').
Proof.
  intros Hlen Hrow Hword Eg Ey Er.
  destruct (simple_updateGameboard_sets sgs guess (wordToGuess gs) letter Hword Hlen)
    as (sgs' & Hup & Sg & Sy & Sr).
  destruct (processGuess_sets_at gs guess letter Hlen Hrow) as (Mg & My & Mr & Mu).
  exists sgs'. split; [done|].
  rewrite Sg, Sy, Sr, Eg, Ey, Er, Mg, Mu. repeat split; try done.
  - intros [H|[H|(i & Hi & Hex)]]; [left; by left|right; by left|].
    destruct (decide (letter ∈ wordToGuess gs)).
    + left. right. by exists i.
    + right. right. by exists i.
  - intros [[H|(i & Hi & Hex & _)]|[H|(i & Hi & Hex & _)]];
      [by left|right; right; by exists i|right; by left|right; right; by exists i].
Qed.

(** X14. The two scripts on the same guess.  From states with the same
    target and the same three letter sets, [processGuess] of the full
    script and [updateGameboard] of the shorter one leave the same green
    letters; every letter the full script makes yellow is yellow in the
    shorter script, every letter the shorter script makes gray is gray
    in the full one, and the same letters are yellow or gray in both.
    So no key ranks higher in the full script than in the shorter one,
    and the same keys are left plain. *)
Theorem keys_agree (gs : GameState) (sgs : Simple.GameState) (guess : jsstring)
    (letter : ascii) :
  length guess = WORD_LENGTH → guessCount gs < MAX_GUESSES →
  Simple.wordToGuess sgs = Some (wordToGuess gs) →
  Simple.greenLetters sgs = greenLetters gs →
  Simple.yellowLetters sgs = yellowLetters gs →
  Simple.grayLetters sgs = grayLetters gs →
  ∃ sgs',
    Simple.updateGameboard sgs guess = Some sgs'
    ∧ (letter ∈ greenLetters (processGuess gs guess).1.1
       ↔ letter ∈ Simple.greenLetters sgs')
    ∧ (letter ∈ yellowLetters (processGuess gs guess).1.1
       → letter ∈ Simple.yellowLetters sgs')
    ∧ (letter ∈ Simple.grayLetters sgs'
       → letter ∈ grayLetters (processGuess gs guess).1.1)
    ∧ rank (createKey (processGuess gs guess).1.1 letter)
      ≤ rank (Simple.keyClass sgs' letter)
    ∧ (createKey (processGuess gs guess).1.1 letter = KeyPlain
       ↔ Simple.keyClass sgs' letter = KeyPlain).
Proof.
  intros Hlen Hrow Hword Eg Ey Er.
  destruct (keys_agree_sets gs sgs guess letter Hlen Hrow Hword Eg Ey Er)
    as (sgs' & Hup & Hg & Hy & Hr & Hu).
  exists sgs'. split; [done|]. split; [done|]. split; [done|]. split; [done|].
  unfold createKey, Simple.keyClass.
  repeat case_bool_decide; cbn [rank]; (split; [try lia|split; try done]);
    naive_solver.
Qed.

Lemma keys_agree_witness :
  length (str "EERIE") = WORD_LENGTH
  ∧ guessCount (sampleState "LEVEL") < MAX_GUESSES
  ∧ ∃ sgs',
      Simple.updateGameboard
        (Simple.set_wordToGuess (Some (str "LEVEL")) Simple.initialState)
        (str "EERIE") = Some sgs'
      ∧ ("E"%char ∈ greenLetters (processGuess (sampleState "LEVEL") (str "EERIE")).1.1
         ↔ "E"%char ∈ Simple.greenLetters sgs')
      ∧ ("E"%char ∈ yellowLetters (processGuess (sampleState "LEVEL") (str "EERIE")).1.1
         → "E"%char ∈ Simple.yellowLetters sgs')
      ∧ ("E"%char ∈ Simple.grayLetters sgs'
         → "E"%char ∈ grayLetters (processGuess (sampleState "LEVEL") (str "EERIE")).1.1)
      ∧ rank (createKey (processGuess (sampleState "LEVEL") (str "EERIE")).1.1 "E")
        ≤ rank (Simple.keyClass sgs' "E")
      ∧ (createKey (processGuess (sampleState "LEVEL") (str "EERIE")).1.1 "E" = KeyPlain
         ↔ Simple.keyClass sgs' "E" = KeyPlain).
Proof.
  assert (H1 : length (str "EERIE") = WORD_LENGTH) by reflexivity.
  assert (H2 : guessCount (sampleState "LEVEL") < MAX_GUESSES) by (vm_compute; lia).
  exact (conj H1 (conj H2
    (keys_agree (sampleState "LEVEL")
       (Simple.set_wordToGuess (Some (str "LEVEL")) Simple.initialState)
       (str "EERIE") "E" H1 H2 eq_refl eq_refl eq_refl eq_refl))).
Defined.

(** ** The row does not depend on what its tiles held *)

Lemma markGreen_alike target guess fr fr' i :
  alike target fr fr' → alike target (markGreen guess fr i) (markGreen guess fr' i).
Proof.
  intros [(Hs & Hc & Hn) Ht]. split.
  - unfold markGreen. destruct (guess !! i) as [letter|]; [|done].
    cbn [fr_state with_tiles]. rewrite <- Hs.
    destruct (bool_decide _); unfold sameCore;
      cbn [fr_state fr_correct fr_counts with_tiles with_state with_correct];
      by rewrite <- ?Hs, <- ?Hc, <- ?Hn.
  - by rewrite (grows_word _ _ (markGreen_grows guess fr i)).
Qed.

Lemma markGreen_pair target guess fr fr' i t t' :
  alike target fr fr' →
  fr_tiles fr !! i = Some t → fr_tiles fr' !! i = Some t' →
  is_Some (guess !! i) →
  ∃ u u', fr_tiles (markGreen guess fr i) !! i = Some u
          ∧ fr_tiles (markGreen guess fr' i) !! i = Some u'
          ∧ written target guess i u u'.
Proof.
  intros [(Hs & _) Ht] Hlk Hlk' [letter Hg].
  assert (Ht' : wordToGuess (fr_state fr') = target) by by rewrite <- Hs.
  destruct (markGreen_at target guess fr i t Ht Hlk) as (u & Hu & ->).
  destruct (markGreen_at target guess fr' i t' Ht' Hlk') as (u' & Hu' & ->).
  eexists _, _. split; [done|]. split; [done|].
  exists letter. unfold firstPaint. rewrite Hg. cbn [innerText].
  split; [done|]. split; [done|]. split; [done|].
  intros Hex. by rewrite bool_decide_eq_true_2.
Qed.

Lemma deductGreen_alike target guess fr fr' i :
  alike target fr fr' →
  alike target (deductGreen guess fr i) (deductGreen guess fr' i).
Proof.
  intros [(Hs & Hc & Hn) Ht]. split.
  - unfold deductGreen. destruct (guess !! i) as [letter|]; [|done].
    rewrite <- Hs.
    destruct (bool_decide _); unfold sameCore;
      cbn [fr_state fr_correct fr_counts with_counts];
      by rewrite <- ?Hs, <- ?Hc, <- ?Hn.
  - by rewrite deductGreen_state.
Qed.

Lemma markYellowGray_alike target guess fr fr' i :
  alike target fr fr' →
  alike target (markYellowGray guess fr i) (markYellowGray guess fr' i).
Proof.
  intros [(Hs & Hc & Hn) Ht]. split.
  - unfold markYellowGray. destruct (guess !! i) as [letter|]; [|done].
    rewrite <- Hs, <- Hn.
    destruct (bool_decide _); [done|].
    destruct (0 <? _)%Z; unfold sameCore;
      cbn [fr_state fr_correct fr_counts with_tiles with_state with_counts];
      by rewrite <- ?Hs, <- ?Hc, <- ?Hn.
  - by rewrite (grows_word _ _ (markYellowGray_grows guess fr i)).
Qed.

Lemma markYellowGray_pair target guess fr fr' i t t' :
  alike target fr fr' →
  fr_tiles fr !! i = Some t → fr_tiles fr' !! i = Some t' →
  written target guess i t t' →
  ∃ u u', fr_tiles (markYellowGray guess fr i) !! i = Some u
          ∧ fr_tiles (markYellowGray guess fr' i) !! i = Some u'
          ∧ u = u'.
Proof.
  intros [(Hs & _ & Hn) Ht] Hlk Hlk' (letter & Hg & Htext & Htext' & Hsame).
  unfold markYellowGray. rewrite Hg, <- Hs, <- Hn, Ht.
  destruct (bool_decide_reflect (target !! i = Some letter)) as [Hex|Hex].
  - exists t, t'. split; [done|]. split; [done|]. by apply Hsame.
  - destruct (0 <? _)%Z;
      cbn [fr_tiles with_tiles with_state with_counts];
      rewrite !list_lookup_alter_eq, Hlk, Hlk'; cbn [fmap option_fmap option_map];
      eexists _, _; (split; [done|]); (split; [done|]);
      unfold setColor; by rewrite Htext, Htext'.
Qed.

Lemma runPasses_alike guess gs tiles tiles' :
  length guess = WORD_LENGTH →
  length tiles = WORD_LENGTH → length tiles' = WORD_LENGTH →
  runPasses guess (enterRow gs tiles) = runPasses guess (enterRow gs tiles').
Proof.
  intros Hlen Hl Hl'.
  set (target := wordToGuess gs).
  assert (H0 : alike target (enterRow gs tiles) (enterRow gs tiles')) by done.
  assert (Hnd : NoDup (seq 0 WORD_LENGTH)) by apply NoDup_seq.
  assert (Htiles : ∀ j,
    fr_tiles (runPasses guess (enterRow gs tiles)) !! j
    = fr_tiles (runPasses guess (enterRow gs tiles')) !! j).
  { intros j. destruct (decide (j < WORD_LENGTH)) as [Hj|Hj].
    - assert (Hin : j ∈ seq 0 WORD_LENGTH) by (apply elem_of_seq; lia).
      destruct (lookup_lt_is_Some_2 tiles j) as [t Hlk]; [lia|].
      destruct (lookup_lt_is_Some_2 tiles' j) as [t' Hlk']; [lia|].
      destruct (pair_at (markGreen guess) (alike target)
                  (λ i _ _, is_Some (guess !! i)) (written target guess)
                  (markGreen_alike target guess) (markGreen_other guess)
                  (markGreen_pair target guess)
                  (enterRow gs tiles) (enterRow gs tiles') (seq 0 WORD_LENGTH)
                  j t t' H0 Hnd Hin Hlk Hlk')
        as (u & u' & Hu & Hu' & Hw).
      { apply lookup_lt_is_Some_2. lia. }
      pose proof (pair_core (markGreen guess) (alike target)
                    (markGreen_alike target guess)
                    (enterRow gs tiles) (enterRow gs tiles') (seq 0 WORD_LENGTH) H0)
        as H1.
      rewrite !runPasses_split. unfold beforeLastPass.
      set (fr1 := foldl (markGreen guess) (enterRow gs tiles) (seq 0 WORD_LENGTH)) in *.
      set (fr1' := foldl (markGreen guess) (enterRow gs tiles') (seq 0 WORD_LENGTH)) in *.
      assert (H2 : alike target
                (with_counts (λ _, foldl countLetter ∅ (wordToGuess (fr_state fr1))) fr1)
                (with_counts (λ _, foldl countLetter ∅ (wordToGuess (fr_state fr1'))) fr1')).
      { destruct H1 as [(Hs & Hc & Hn) Ht]. split; [|done].
        unfold sameCore. cbn [fr_state fr_correct fr_counts with_counts].
        by rewrite <- Hs, <- Hc. }
      pose proof (pair_core (deductGreen guess) (alike target)
                    (deductGreen_alike target guess) _ _ (seq 0 WORD_LENGTH) H2)
        as H3.
      destruct (pair_at (markYellowGray guess) (alike target)
                  (written target guess) (λ _ u u', u = u')
                  (markYellowGray_alike target guess) (markYellowGray_other guess)
                  (markYellowGray_pair target guess)
                  _ _ (seq 0 WORD_LENGTH) j u u' H3 Hnd Hin)
        as (v & v' & Hv & Hv' & ->); try done.
      + by rewrite deductPass_tiles.
      + by rewrite deductPass_tiles.
      + by rewrite Hv, Hv'.
    - rewrite !runPasses_other by lia. cbn [fr_tiles enterRow].
      by rewrite !lookup_ge_None_2 by lia. }
  apply list_eq in Htiles.
  assert (Hcore : alike target (runPasses guess (enterRow gs tiles))
                    (runPasses guess (enterRow gs tiles'))).
  { rewrite !runPasses_split. unfold beforeLastPass.
    apply (pair_core (markYellowGray guess) (alike target)
             (markYellowGray_alike target guess)).
    apply (pair_core (deductGreen guess) (alike target)
             (deductGreen_alike target guess)).
    pose proof (pair_core (markGreen guess) (alike target)
                  (markGreen_alike target guess)
                  (enterRow gs tiles) (enterRow gs tiles') (seq 0 WORD_LENGTH) H0)
      as [(Hs & Hc & Hn) Ht].
    split; [|done]. unfold sameCore.
    cbn [fr_state fr_correct fr_counts with_counts]. by rewrite <- Hs, <- Hc. }
  destruct Hcore as [(Hs & Hc & Hn) _].
  destruct (runPasses guess (enterRow gs tiles)),
           (runPasses guess (enterRow gs tiles')).
  cbn [fr_state fr_tiles fr_correct fr_counts] in *. by subst.
Qed.

(** X15. [processGuess] writes the letter and a colour on each of the
    five tiles of its row and reads none of them: for a guess of five
    letters, the three passes run on any row of five tiles (one with the
    light blue tile of a hint, say) leave the same tiles, the same
    letter sets, the same [correctCount] and the same [letterCounts] as
    on a blank row.  What a row held before the guess is gone after
    it. *)
Theorem processGuess_overwrites (gs : GameState) (guess : jsstring)
    (tiles : list Tile) :
  length guess = WORD_LENGTH → length tiles = WORD_LENGTH →
  guessCount gs < MAX_GUESSES →
  (let fr := runPasses guess (enterRow gs tiles) in
   (fr_state fr, Some (fr_tiles fr), fr_correct fr =? WORD_LENGTH))
  = processGuess gs guess.
Proof.
  intros Hlen Hl Hrow. rewrite processGuess_found by done. cbn zeta.
  by rewrite (runPasses_alike guess gs tiles (replicate WORD_LENGTH blankTile))
    by (try done; by rewrite length_replicate).
Qed.

Lemma processGuess_overwrites_witness :
  length (str "PLATE") = WORD_LENGTH ∧ length hintedRow = WORD_LENGTH
  ∧ guessCount (sampleState "APPLE") < MAX_GUESSES
  ∧ (let fr := runPasses (str "PLATE") (enterRow (sampleState "APPLE") hintedRow) in
     (fr_state fr, Some (fr_tiles fr), fr_correct fr =? WORD_LENGTH))
    = processGuess (sampleState "APPLE") (str "PLATE").
Proof.
  assert (H1 : length (str "PLATE") = WORD_LENGTH) by reflexivity.
  assert (H2 : length hintedRow = WORD_LENGTH) by reflexivity.
  assert (H3 : guessCount (sampleState "APPLE") < MAX_GUESSES) by (vm_compute; lia).
  exact (conj H1 (conj H2 (conj H3
    (processGuess_overwrites (sampleState "APPLE") (str "PLATE") hintedRow H1 H2 H3)))).
Defined.

(** ** Numbers written to and read from localStorage *)










(** ** What the storage keeps of points and streak *)


















(** ** The field and the keys *)

Lemma page_makeGuess pg :
  Page.game (Page.makeGuess pg).1
  = (makeGuess (Page.game pg) (Page.guessInput pg)).1
  ∧ (Page.makeGuess pg).2 = (makeGuess (Page.game pg) (Page.guessInput pg)).2
  ∧ Page.guessInput (Page.makeGuess pg).1
    = match (Page.makeGuess pg).2 with
      | Rejected _ => Page.guessInput pg
      | Played _ _ => []
      end.
Proof.
  unfold Page.makeGuess, makeGuess.
  destruct (gameOver (Page.game pg)); [done|].
  destruct (MAX_GUESSES <=? guessCount (Page.game pg)); [done|].
  destruct (negb (length (toUpperCase (Page.guessInput pg)) =? WORD_LENGTH));
    [done|].
  destruct (negb (matchesAZ (toUpperCase (Page.guessInput pg)))); [done|].
  destruct (negb (includes (validWords (Page.game pg))
                    (toUpperCase (Page.guessInput pg)))); [done|].
  destruct (processGuess (Page.game pg) (toUpperCase (Page.guessInput pg)))
    as [[gs row] correct].
  destruct correct; [done|].
  cbn [Page.game Page.with_game Page.set_guessInput guessCount set_guessCount].
  by destruct (MAX_GUESSES <=? guessCount gs + 1).
Qed.

Lemma clicks_input letters pg :
  length (Page.guessInput pg) ≤ WORD_LENGTH →
  Page.clicks letters pg
  = Page.set_guessInput (take WORD_LENGTH (Page.guessInput pg ++ letters)) pg.
Proof.
  revert pg. induction letters as [|c letters IH]; intros pg Hlen.
  - rewrite app_nil_r, take_ge by done. by destruct pg.
  - change (Page.clicks (c :: letters) pg)
      with (Page.clicks letters (Page.insertLetter c pg)).
    unfold Page.insertLetter.
    destruct (Nat.ltb_spec (length (Page.guessInput pg)) WORD_LENGTH) as [Hlt|Hge].
    + rewrite IH.
      * cbn [Page.guessInput Page.set_guessInput]. by rewrite <- app_assoc.
      * cbn [Page.guessInput Page.set_guessInput]. rewrite length_app. simpl. lia.
    + rewrite IH by done. by rewrite !take_app_le by lia.
Qed.

Lemma keyboardRows_letters c :
  isUpperAZ c = true → c ∈ concat keyboardRows.
Proof.
  intros H. apply list_elem_of_In.
  destruct c as [[] [] [] [] [] [] [] []]; try discriminate H;
    vm_compute; repeat (first [left; reflexivity|right]).
Qed.

Lemma matchesAZ_Forall word :
  matchesAZ word = true → Forall (λ c, isUpperAZ c = true) word.
Proof.
  intros H%matchesAZ_forall. apply Forall_forall. intros c Hc.
  rewrite forallb_forall in H. by apply H, list_elem_of_In.
Qed.

(** X17. A word of five letters A-Z can be typed on the keys of the
    page alone: [generateKeyboard] builds a key for each of its letters,
    and from an empty field the clicks of these keys leave the word in
    the field, [insertLetter] ignoring every click after the fifth;
    [makeGuess] then plays the engine on that word, without the alert
    about the length or about illegal characters. *)
Theorem keyboard_types (pg : Page.Page) (word more : jsstring) :
  Page.guessInput pg = [] → length word = WORD_LENGTH → matchesAZ word = true →
  (∀ c, c ∈ word →
     (c, createKey (Page.game pg) c) ∈ concat (generateKeyboard (Page.game pg)))
  ∧ Page.clicks (word ++ more) pg = Page.set_guessInput word pg
  ∧ Page.game (Page.makeGuess (Page.clicks (word ++ more) pg)).1
    = (makeGuess (Page.game pg) word).1
  ∧ (Page.makeGuess (Page.clicks (word ++ more) pg)).2
    = (makeGuess (Page.game pg) word).2
  ∧ (makeGuess (Page.game pg) word).2 ≠ Rejected AlertLength
  ∧ (makeGuess (Page.game pg) word).2 ≠ Rejected AlertIllegalChars.
Proof.
  intros Hempty Hlen Hm.
  assert (Hclicks : Page.clicks (word ++ more) pg = Page.set_guessInput word pg).
  { rewrite clicks_input by (rewrite Hempty; simpl; lia).
    rewrite Hempty. cbn [app]. by rewrite take_app_le, take_ge by lia. }
  split; [|split; [done|]].
  - intros c Hc. unfold generateKeyboard. rewrite <- concat_map.
    apply (list_elem_of_fmap_2 (λ letter, (letter, createKey (Page.game pg) letter))).
    apply keyboardRows_letters.
    pose proof (matchesAZ_Forall word Hm) as Hall.
    rewrite Forall_forall in Hall. by apply Hall.
  - destruct (page_makeGuess (Page.clicks (word ++ more) pg)) as (Hg & Ho & _).
    rewrite Hg, Ho, Hclicks. cbn [Page.game Page.guessInput Page.set_guessInput].
    split; [done|]. split; [done|].
    assert (Hup : toUpperCase word = word)
      by by apply toUpperCase_upper, matchesAZ_forall.
    unfold makeGuess. rewrite Hup, Hlen, Nat.eqb_refl, Hm. cbn [negb].
    destruct (gameOver (Page.game pg)); [done|].
    destruct (MAX_GUESSES <=? guessCount (Page.game pg)); [done|].
    destruct (negb (includes _ _)); [done|].
    destruct (processGuess (Page.game pg) word) as [[gs row] correct].
    destruct correct; [done|].
    by destruct (MAX_GUESSES <=? _).
Qed.

Lemma keyboard_types_witness :
  Page.guessInput (Page.initialPage [] ∅) = []
  ∧ length (str "CRANE") = WORD_LENGTH ∧ matchesAZ (str "CRANE") = true
  ∧ Page.clicks (str "CRANE" ++ str "S") (Page.initialPage [] ∅)
    = Page.set_guessInput (str "CRANE") (Page.initialPage [] ∅)
  ∧ (Page.makeGuess (Page.clicks (str "CRANE" ++ str "S") (Page.initialPage [] ∅))).2
    = (makeGuess (Page.game (Page.initialPage [] ∅)) (str "CRANE")).2.
Proof.
  assert (H1 : Page.guessInput (Page.initialPage [] ∅) = []) by reflexivity.
  assert (H2 : length (str "CRANE") = WORD_LENGTH) by reflexivity.
  assert (H3 : matchesAZ (str "CRANE") = true) by reflexivity.
  destruct (keyboard_types (Page.initialPage [] ∅) (str "CRANE") (str "S") H1 H2 H3)
    as (_ & Hc & _ & Ho & _).
  exact (conj H1 (conj H2 (conj H3 (conj Hc Ho)))).
Defined.

(** ** The word list, line by line *)












(** ** A visit of the page as a session of the engine *)







(** ** The streak over a run *)




(** ** The row, position by position *)

Lemma markYellowGray_count target guess fr i c :
  wordToGuess (fr_state fr) = target →
  countOf (fr_counts (markYellowGray guess fr i)) c
  = if nonExactFor c target guess i && (0 <? countOf (fr_counts fr) c)%Z
    then (countOf (fr_counts fr) c - 1)%Z
    else countOf (fr_counts fr) c.
Proof.
  intros <-. unfold markYellowGray, nonExactFor.
  destruct (guess !! i) as [letter|] eqn:Hg.
  - destruct (bool_decide_reflect (wordToGuess (fr_state fr) !! i = Some letter))
      as [Hex|Hex].
    + destruct (decide (letter = c)) as [->|Hne].
      * by rewrite (bool_decide_eq_true_2 _ Hex), andb_false_r.
      * by rewrite (bool_decide_eq_false_2 (Some letter = Some c)) by congruence.
    + destruct (Z.ltb_spec 0 (countOf (fr_counts fr) letter)) as [Hpos|Hpos];
        cbn [fr_counts with_counts with_state with_tiles].
      * destruct (decide (letter = c)) as [->|Hne].
        -- rewrite (bool_decide_eq_true_2 (Some c = Some c)) by done.
           rewrite (bool_decide_eq_false_2 _ Hex). cbn [negb andb].
           rewrite (proj2 (Z.ltb_lt _ _) Hpos).
           unfold countOf in *. rewrite lookup_alter_eq.
           by destruct (fr_counts fr !! c).
        -- rewrite (bool_decide_eq_false_2 (Some letter = Some c)) by congruence.
           cbn [andb]. unfold countOf. by rewrite lookup_alter_ne.
      * destruct (decide (letter = c)) as [->|Hne].
        -- rewrite (proj2 (Z.ltb_ge _ _) Hpos). by rewrite andb_false_r.
        -- by rewrite (bool_decide_eq_false_2 (Some letter = Some c)) by congruence.
  - by rewrite (bool_decide_eq_false_2 (None = Some c)).
Qed.

Lemma markYellowGray_tile target guess fr i letter t :
  wordToGuess (fr_state fr) = target → guess !! i = Some letter →
  fr_tiles fr !! i = Some t →
  fr_tiles (markYellowGray guess fr i) !! i
  = Some (if bool_decide (target !! i = Some letter) then t
          else setColor (if (0 <? countOf (fr_counts fr) letter)%Z
                         then Yellow else Gray) t).
Proof.
  intros <- Hg Hlk. unfold markYellowGray. rewrite Hg.
  destruct (bool_decide _); [done|].
  destruct (0 <? _)%Z; cbn [fr_tiles with_counts with_state with_tiles];
    by rewrite list_lookup_alter_eq, Hlk.
Qed.

Lemma nonExact_before_S letter target guess n :
  count_if (nonExactFor letter target guess) (seq 0 (S n))
  = count_if (nonExactFor letter target guess) (seq 0 n)
    + Nat.b2n (nonExactFor letter target guess n).
Proof.
  rewrite seq_S, count_if_app, count_if_cons. cbn [Nat.add].
  replace (count_if (nonExactFor letter target guess) []) with 0 by done. lia.
Qed.

(** The frame from which the last pass starts, on a blank row. *)
Lemma beforeLastPass_start target guess gs :
  wordToGuess gs = target →
  let fr3 := beforeLastPass guess (enterRow gs (replicate WORD_LENGTH blankTile)) in
  wordToGuess (fr_state fr3) = target
  ∧ (∀ c, countOf (fr_counts fr3) c
          = (Z.of_nat (occurrences c target)
             - Z.of_nat (count_if (exactFor c target guess) (seq 0 WORD_LENGTH)))%Z)
  ∧ (∀ i, i < WORD_LENGTH →
       fr_tiles fr3 !! i = Some (firstPaint target guess i blankTile))
  ∧ length (fr_tiles fr3) = WORD_LENGTH.
Proof.
  intros Ht fr3. unfold fr3, beforeLastPass.
  set (fr0 := enterRow gs (replicate WORD_LENGTH blankTile)).
  set (fr1 := foldl (markGreen guess) fr0 (seq 0 WORD_LENGTH)).
  assert (Ht1 : wordToGuess (fr_state fr1) = target)
    by by apply (loop_target _ _ (markGreen_grows guess)).
  assert (Htiles1 : ∀ i, i < WORD_LENGTH →
            fr_tiles fr1 !! i = Some (firstPaint target guess i blankTile)).
  { intros i Hi.
    destruct (loop_at (markGreen guess) target
                (λ i t t', t' = firstPaint target guess i t)
                (markGreen_grows guess) (markGreen_other guess)
                (markGreen_at target guess)
                fr0 (seq 0 WORD_LENGTH) i blankTile Ht (NoDup_seq _ _))
      as (t1 & Hlk1 & ->); [apply elem_of_seq; lia| |done].
    by apply lookup_replicate_2. }
  rewrite deductPass_state, deductPass_tiles.
  cbn [fr_state fr_tiles with_counts]. rewrite Ht1.
  split; [done|]. split; [|split; [done|]].
  - intros c. rewrite deductPass_count.
    + cbn [fr_state fr_counts with_counts]. rewrite Ht1, countLetter_fold.
      unfold countOf at 1. rewrite lookup_empty. cbn [default from_option id]. lia.
    + cbn [fr_state fr_counts with_counts]. rewrite Ht1. intros a Ha.
      apply countLetter_fold_present. by left.
  - assert (Hin : is_Some (fr_tiles fr1 !! 4)).
    { rewrite Htiles1 by (unfold WORD_LENGTH; lia). eauto. }
    assert (Hout : fr_tiles fr1 !! 5 = None).
    { unfold fr1. rewrite (loop_other _ (markGreen_other guess))
        by (rewrite elem_of_seq; unfold WORD_LENGTH; lia).
      cbn [fr_tiles fr0 enterRow]. apply lookup_ge_None_2.
      rewrite length_replicate. unfold WORD_LENGTH. lia. }
    apply lookup_lt_is_Some in Hin. apply lookup_ge_None in Hout.
    unfold WORD_LENGTH. lia.
Qed.

(** The last pass up to position [n]. *)
Lemma lastPass_prefix target guess fr3 n :
  length guess = WORD_LENGTH →
  wordToGuess (fr_state fr3) = target →
  (∀ c, countOf (fr_counts fr3) c
        = (Z.of_nat (occurrences c target)
           - Z.of_nat (count_if (exactFor c target guess) (seq 0 WORD_LENGTH)))%Z) →
  n ≤ WORD_LENGTH →
  let frn := foldl (markYellowGray guess) fr3 (seq 0 n) in
  wordToGuess (fr_state frn) = target
  ∧ (∀ c, countOf (fr_counts frn) c = leftBefore c target guess n)
  ∧ (∀ j, n ≤ j → fr_tiles frn !! j = fr_tiles fr3 !! j)
  ∧ (∀ j t, j < n → fr_tiles fr3 !! j = Some t →
       fr_tiles frn !! j
       = Some (if exactAt target guess j then t
               else setColor (expectedColor target guess j) t)).
Proof.
  intros Hlen Ht Hcounts. induction n as [|n IH]; intros Hn; cbn zeta.
  - split; [done|]. split; [|split; [done|intros j t Hj; lia]].
    intros c. rewrite Hcounts. unfold leftBefore.
    pose proof (exactFor_le c target guess WORD_LENGTH).
    replace (count_if (nonExactFor c target guess) (seq 0 0)) with 0 by done.
    lia.
  - destruct IH as (Htn & Hcn & Hrest & Hdone); [lia|].
    rewrite seq_S, foldl_app. cbn [foldl Nat.add].
    set (frn := foldl (markYellowGray guess) fr3 (seq 0 n)) in *.
    destruct (lookup_lt_is_Some_2 guess n) as [letter Hg]; [lia|].
    split; [|split; [|split]].
    + by rewrite (grows_word _ _ (markYellowGray_grows guess frn n)).
    + intros c. rewrite (markYellowGray_count target) by done.
      rewrite Hcn. unfold leftBefore. rewrite nonExact_before_S.
      destruct (nonExactFor c target guess n); cbn [andb Nat.b2n].
      * destruct (Z.ltb_spec 0
          (Z.max 0 (Z.of_nat (occurrences c target)
                    - Z.of_nat (count_if (exactFor c target guess) (seq 0 WORD_LENGTH))
                    - Z.of_nat (count_if (nonExactFor c target guess) (seq 0 n)))));
          lia.
      * f_equal. lia.
    + intros j Hj. rewrite markYellowGray_other by lia. apply Hrest. lia.
    + intros j t Hj Hlk. destruct (decide (j = n)) as [->|Hne].
      * rewrite (markYellowGray_tile target guess frn n letter t Htn Hg)
          by (rewrite Hrest by lia; done).
        unfold exactAt, expectedColor. rewrite Hg.
        destruct (bool_decide (target !! n = Some letter)); [done|].
        rewrite Hcn. unfold leftBefore.
        pose proof (exactFor_le letter target guess WORD_LENGTH).
        destruct (Nat.ltb_spec
                    (count_if (nonExactFor letter target guess) (seq 0 n)
                     + count_if (exactFor letter target guess) (seq 0 WORD_LENGTH))
                    (occurrences letter target)) as [Hlt|Hge];
          destruct (Z.ltb_spec 0
            (Z.max 0 (Z.of_nat (occurrences letter target)
                      - Z.of_nat (count_if (exactFor letter target guess)
                                    (seq 0 WORD_LENGTH))
                      - Z.of_nat (count_if (nonExactFor letter target guess)
                                    (seq 0 n)))));
          try done; lia.
      * rewrite markYellowGray_other by done. apply Hdone; [lia|done].
Qed.

Lemma runPasses_expected guess gs :
  length guess = WORD_LENGTH →
  fr_tiles (runPasses guess (enterRow gs (replicate WORD_LENGTH blankTile)))
  = expectedRow (wordToGuess gs) guess.
Proof.
  intros Hlen. set (target := wordToGuess gs).
  destruct (beforeLastPass_start target guess gs eq_refl)
    as (Ht3 & Hc3 & Htiles3 & Hlen3).
  set (fr3 := beforeLastPass guess (enterRow gs (replicate WORD_LENGTH blankTile))) in *.
  destruct (lastPass_prefix target guess fr3 WORD_LENGTH Hlen Ht3 Hc3 (le_n _))
    as (_ & _ & Hrest & Hdone).
  rewrite runPasses_split. fold fr3.
  apply list_eq. intros j. unfold expectedRow.
  destruct (decide (j < WORD_LENGTH)) as [Hj|Hj].
  - rewrite (Hdone j _ Hj (Htiles3 j Hj)).
    rewrite list_lookup_fmap, lookup_seq_lt by done. cbn [fmap option_fmap option_map Nat.add].
    f_equal. destruct (lookup_lt_is_Some_2 guess j) as [letter Hg]; [lia|].
    unfold exactAt, expectedColor, firstPaint, setColor. rewrite Hg.
    cbn [innerText backgroundColor].
    by destruct (bool_decide (target !! j = Some letter)).
  - rewrite Hrest by lia.
    rewrite lookup_ge_None_2 by lia.
    rewrite list_lookup_fmap, lookup_seq_ge by lia. done.
Qed.

(** X21. The row of a guess of five letters, in closed form: tile [i]
    shows letter [i] of the guess, green if the target has the letter
    there; otherwise yellow if the exact matches of the letter in the
    whole guess plus its other positions left of [i] are fewer than its
    occurrences in the target, and gray if not.  So of the positions
    that share a letter and are no exact match, the leftmost ones are
    the yellow ones. *)
Theorem processGuess_expected (gs : GameState) (guess : jsstring) :
  length guess = WORD_LENGTH → guessCount gs < MAX_GUESSES →
  (processGuess gs guess).1.2 = Some (expectedRow (wordToGuess gs) guess).
Proof.
  intros Hlen Hrow. rewrite processGuess_found by done. cbn [fst snd].
  by rewrite runPasses_expected.
Qed.

Lemma processGuess_expected_witness :
  length (str "EERIE") = WORD_LENGTH
  ∧ guessCount (sampleState "LEVEL") < MAX_GUESSES
  ∧ (processGuess (sampleState "LEVEL") (str "EERIE")).1.2
    = Some (expectedRow (str "LEVEL") (str "EERIE"))
  ∧ colors (expectedRow (str "LEVEL") (str "EERIE"))
    = [Yellow; Green; Gray; Gray; Gray].
Proof.
  assert (H1 : length (str "EERIE") = WORD_LENGTH) by reflexivity.
  assert (H2 : guessCount (sampleState "LEVEL") < MAX_GUESSES) by (vm_compute; lia).
  exact (conj H1 (conj H2
    (conj (processGuess_expected (sampleState "LEVEL") (str "EERIE") H1 H2)
          eq_refl))).
Defined.
